(** * Optima-SEO: classification, extraction, scanning and scoring pipeline

    A shallow embedding of the pure core of the repository
    ([src/utils/semanticClassifier.ts], [contentParser.ts],
    [pagesContextParser.ts], [seoScanner.ts], [seoScorer.ts]), the
    properties of it that the specification states, and further
    properties read off the code.

    Modelling conventions.
    - A JavaScript string is a [string] whose characters are UTF-16 code
      units in the range 0..255 (the Latin-1 block); [length] counts code
      units as [String.prototype.length] does.
    - A JavaScript [number] is a rational ([Q]) and arithmetic is that of
      binary64: every sum, difference, product and quotient is rounded to
      the nearest double, ties to the even significand ([double]), and a
      decimal literal stands for the double nearest to it.  Comparisons
      and [Math.round], which is [floor (x + 1/2)], are exact.  NaN, the
      infinities, the sign of zero and overflow are not represented;
      lengths and counts are integers below 2^53, which are doubles.
    - Regular expressions are values of [re], run by a backtracking matcher
      with the priorities of the ECMAScript one (leftmost match, greedy and
      lazy repetition, alternatives tried in order).
    - [console.log] calls are dropped. *)

From Stdlib Require Import ZArith QArith Qround List String Ascii Bool Lia.
From Stdlib Require Floats.
Import ListNotations.
Local Close Scope Q_scope.
Local Open Scope nat_scope.
Local Open Scope string_scope.

Set Implicit Arguments.
Set Warnings "-register-all,-inexact-float".

(* ================================================================== *)
(** ** JavaScript strings *)

Module JsString.

Definition code (c : ascii) : N := N_of_ascii c.

Definition in_range (lo hi : N) (c : ascii) : bool :=
  (N.leb lo (code c) && N.leb (code c) hi)%bool.

(** [\s], and the characters removed by [trim]: TAB, LF, VT, FF, CR,
    SPACE and NO-BREAK SPACE. *)
Definition is_space (c : ascii) : bool :=
  (in_range 9 13 c || N.eqb (code c) 32 || N.eqb (code c) 160)%bool.

(** [\d] *)
Definition is_digit (c : ascii) : bool := in_range 48 57 c.

(** [.] without the [s] flag: anything but a line terminator. *)
Definition is_dot (c : ascii) : bool :=
  negb (N.eqb (code c) 10 || N.eqb (code c) 13)%bool.

(** [String.prototype.toLowerCase] on one code unit. *)
Definition lower (c : ascii) : ascii :=
  if (in_range 65 90 c
      || (in_range 192 222 c && negb (N.eqb (code c) 215)))%bool
  then ascii_of_N (code c + 32) else c.

Fixpoint toLowerCase (s : string) : string :=
  match s with
  | EmptyString => EmptyString
  | String c s' => String (lower c) (toLowerCase s')
  end.

Fixpoint trimStart (s : string) : string :=
  match s with
  | EmptyString => EmptyString
  | String c s' => if is_space c then trimStart s' else s
  end.

Definition is_empty (s : string) : bool :=
  match s with EmptyString => true | _ => false end.

Fixpoint trimEnd (s : string) : string :=
  match s with
  | EmptyString => EmptyString
  | String c s' =>
      let t := trimEnd s' in
      if (is_space c && is_empty t)%bool then EmptyString else String c t
  end.

Definition trim (s : string) : string := trimEnd (trimStart s).

Definition startsWith (s p : string) : bool := String.prefix p s.

Fixpoint includes (s sub : string) : bool :=
  if String.prefix sub s then true
  else match s with
       | EmptyString => false
       | String _ s' => includes s' sub
       end.

Fixpoint endsWith (s suf : string) : bool :=
  if String.eqb s suf then true
  else match s with
       | EmptyString => false
       | String _ s' => endsWith s' suf
       end.

(** [s.substring(0, n)] *)
Definition substring0 (n : nat) (s : string) : string :=
  String.substring 0 n s.

(** A string is truthy when it is not empty. *)
Definition truthy (s : string) : bool := negb (is_empty s).

(** [a || b] on strings. *)
Definition or_else (a b : string) : string := if truthy a then a else b.

(** [parts.join(sep)] *)
Fixpoint join (sep : string) (parts : list string) : string :=
  match parts with
  | [] => EmptyString
  | [p] => p
  | p :: rest => p ++ sep ++ join sep rest
  end.

Fixpoint take (n : nat) (s : string) : string :=
  match n, s with
  | S n', String c s' => String c (take n' s')
  | _, _ => EmptyString
  end.

End JsString.
Import JsString.

(* ================================================================== *)
(** ** Regular expressions *)

Module RegExp.

(** The fragment of the ECMAScript pattern language the sources use:
    every repetition is over a character class, and at most one capture
    group is read back. *)
Inductive re : Type :=
| Eps
| Chr (p : ascii -> bool)
| Seq (r1 r2 : re)
| Alt (r1 r2 : re)
| Star (greedy : bool) (p : ascii -> bool)
| Eol
| Grp (r : re).

(** A pattern with its leading [^], if any. *)
Record regexp : Type := mkRe { bol : bool; body : re }.

Section Matcher.
Variable A : Type.

(** A continuation receives what is left of the input and group 1. *)
Definition cont : Type := string -> option string -> option A.

Fixpoint star_greedy (p : ascii -> bool) (s : string)
         (cap : option string) (k : cont) : option A :=
  match s with
  | String c s' =>
      if p c then
        match star_greedy p s' cap k with
        | Some a => Some a
        | None => k s cap
        end
      else k s cap
  | EmptyString => k s cap
  end.

Fixpoint star_lazy (p : ascii -> bool) (s : string)
         (cap : option string) (k : cont) : option A :=
  match k s cap with
  | Some a => Some a
  | None =>
      match s with
      | String c s' => if p c then star_lazy p s' cap k else None
      | EmptyString => None
      end
  end.

Fixpoint run (r : re) (s : string) (cap : option string) (k : cont)
  : option A :=
  match r with
  | Eps => k s cap
  | Chr p =>
      match s with
      | String c s' => if p c then k s' cap else None
      | EmptyString => None
      end
  | Seq r1 r2 => run r1 s cap (fun s' cap' => run r2 s' cap' k)
  | Alt r1 r2 =>
      match run r1 s cap k with
      | Some a => Some a
      | None => run r2 s cap k
      end
  | Star g p => if g then star_greedy p s cap k else star_lazy p s cap k
  | Eol =>
      match s with
      | EmptyString => k s cap
      | String _ _ => None
      end
  | Grp r1 =>
      run r1 s cap
          (fun s' _ => k s' (Some (take (length s - length s') s)))
  end.
End Matcher.

(** A match found at the head of the input: its length and group 1. *)
Definition exec_here (r : re) (s : string) : option (nat * option string) :=
  run r s None (fun s' cap => Some (length s - length s', cap)).

Record MatchResult : Type :=
  mkMatch { m_index : nat; m_0 : string; m_1 : option string }.

(** Leftmost match starting at or after the head of [s]; [i] is the
    index of the head of [s] in the whole input. *)
Fixpoint search_from (r : re) (i : nat) (s : string) : option MatchResult :=
  match exec_here r s with
  | Some (n, cap) => Some (mkMatch i (take n s) cap)
  | None =>
      match s with
      | EmptyString => None
      | String _ s' => search_from r (S i) s'
      end
  end.

(** [s.match(r)] for a pattern without the [g] flag. *)
Definition match_ (r : regexp) (s : string) : option MatchResult :=
  if bol r then
    match exec_here (body r) s with
    | Some (n, cap) => Some (mkMatch 0 (take n s) cap)
    | None => None
    end
  else search_from (body r) 0 s.

(** [r.test(s)] *)
Definition test (r : regexp) (s : string) : bool :=
  match match_ r s with Some _ => true | None => false end.

(** [m[1]] of a match whose group took part in it. *)
Definition group1 (m : MatchResult) : string :=
  match m_1 m with Some g => g | None => EmptyString end.

(** [s.replace(r, rep)] with the [g] flag, for an unanchored pattern:
    [skip] counts the characters of the current match still to drop. *)
Fixpoint replace_all_aux (r : re) (rep : string) (skip : nat) (s : string)
  : string :=
  match s with
  | EmptyString =>
      match skip, exec_here r s with
      | O, Some _ => rep
      | _, _ => EmptyString
      end
  | String c s' =>
      match skip with
      | S n => replace_all_aux r rep n s'
      | O =>
          match exec_here r s with
          | Some (S n, _) => rep ++ replace_all_aux r rep n s'
          | Some (O, _) => rep ++ String c (replace_all_aux r rep 0 s')
          | None => String c (replace_all_aux r rep 0 s')
          end
      end
  end.

Definition replace_all (r : re) (rep : string) (s : string) : string :=
  replace_all_aux r rep 0 s.

(** [s.replace(r, rep)] without the [g] flag: the first match only. *)
Fixpoint replace_first (r : re) (rep : string) (s : string) : string :=
  match exec_here r s with
  | Some (n, _) => rep ++ String.substring n (length s - n) s
  | None =>
      match s with
      | EmptyString => EmptyString
      | String c s' => String c (replace_first r rep s')
      end
  end.

(** [s.match(r)] with the [g] flag: every match, left to right
    ([None] is JavaScript's [null], returned when there is none). *)
Fixpoint match_all_aux (r : re) (skip : nat) (s : string) : list string :=
  match s with
  | EmptyString =>
      match skip, exec_here r s with
      | O, Some (n, _) => [take n s]
      | _, _ => []
      end
  | String c s' =>
      match skip with
      | S n => match_all_aux r n s'
      | O =>
          match exec_here r s with
          | Some (S n, _) => take (S n) s :: match_all_aux r n s'
          | Some (O, _) => EmptyString :: match_all_aux r 0 s'
          | None => match_all_aux r 0 s'
          end
      end
  end.

Definition match_all (r : re) (s : string) : option (list string) :=
  match match_all_aux r 0 s with
  | [] => None
  | l => Some l
  end.

(** [s.split(r)]: [cur] is the segment being read, reversed. *)
Definition rev_string (rs : list ascii) : string :=
  string_of_list_ascii (rev rs).

Fixpoint split_aux (r : re) (skip : nat) (cur : list ascii) (s : string)
  : list string :=
  match s with
  | EmptyString => [rev_string cur]
  | String c s' =>
      match skip with
      | S n => split_aux r n cur s'
      | O =>
          match exec_here r s with
          | Some (S n, _) => rev_string cur :: split_aux r n [] s'
          | Some (O, _) =>
              match cur with
              | [] => split_aux r 0 [c] s'
              | _ => rev_string cur :: split_aux r 0 [c] s'
              end
          | None => split_aux r 0 (c :: cur) s'
          end
      end
  end.

Definition split (r : re) (s : string) : list string :=
  match s with
  | EmptyString =>
      match exec_here r s with Some _ => [] | None => [EmptyString] end
  | _ => split_aux r 0 [] s
  end.

(** *** Pattern combinators *)

Definition any : ascii -> bool := fun _ => true.
Definition ch (c : ascii) : ascii -> bool := Ascii.eqb c.
(** a letter under the [i] flag *)
Definition chi (c : ascii) : ascii -> bool :=
  fun x => Ascii.eqb (lower x) (lower c).
Definition none_of (cs : string) : ascii -> bool :=
  fun x => negb (existsb (Ascii.eqb x) (list_ascii_of_string cs)).
Definition one_of (cs : string) : ascii -> bool :=
  fun x => existsb (Ascii.eqb x) (list_ascii_of_string cs).

Fixpoint lit (s : string) : re :=
  match s with
  | EmptyString => Eps
  | String c s' => Seq (Chr (ch c)) (lit s')
  end.

Fixpoint liti (s : string) : re :=
  match s with
  | EmptyString => Eps
  | String c s' => Seq (Chr (chi c)) (liti s')
  end.

Definition star (p : ascii -> bool) : re := Star true p.
Definition star_q (p : ascii -> bool) : re := Star false p.
Definition plus (p : ascii -> bool) : re := Seq (Chr p) (Star true p).
Definition opt (r : re) : re := Alt r Eps.

Fixpoint alts (rs : list re) : re :=
  match rs with
  | [] => Seq (Chr (fun _ => false)) Eps
  | [r] => r
  | r :: rest => Alt r (alts rest)
  end.

Fixpoint seqs (rs : list re) : re :=
  match rs with
  | [] => Eps
  | [r] => r
  | r :: rest => Seq r (seqs rest)
  end.

End RegExp.
Import RegExp.

(* ================================================================== *)
(** ** Numbers *)

Module JsNumber.

Definition number : Type := Q.

Definition of_nat (n : nat) : number := inject_Z (Z.of_nat n).

(** The integer nearest to [p / q], a half going to the even one
    ([0 <= p], [0 < q]). *)
Definition nearest_even (p q : Z) : Z :=
  let f := (p / q)%Z in
  match (2 * (p mod q) ?= q)%Z with
  | Lt => f
  | Gt => (f + 1)%Z
  | Eq => if Z.even f then f else (f + 1)%Z
  end.

(** [floor (log2 (n / d))], for [0 < n] and [0 < d]. *)
Definition binade (n d : Z) : Z :=
  let e := (Z.log2 n - Z.log2 d)%Z in
  if (n * 2 ^ Z.max 0 (- e) <? d * 2 ^ Z.max 0 e)%Z then (e - 1)%Z else e.

(** The double nearest to [x], ties to the even significand: a
    significand of 53 bits scaled by a power of two, the power not below
    2^-1074 (the subnormal range). *)
Definition double (x : Q) : number :=
  let n := Z.abs (Qnum x) in
  let d := Z.pos (Qden x) in
  if (n =? 0)%Z then 0%Q
  else
    let fexp := Z.max (binade n d - 52) (-1074) in
    let s := Z.sgn (Qnum x) in
    if (0 <=? fexp)%Z
    then inject_Z (s * nearest_even n (d * 2 ^ fexp) * 2 ^ fexp)
    else Qred (Qmake (s * nearest_even (n * 2 ^ (- fexp)) d)
                     (Z.to_pos (2 ^ (- fexp)))).

(** [x + y], [x - y], [x * y], [x / y] *)
Definition fadd (x y : number) : number := double (x + y)%Q.
Definition fsub (x y : number) : number := double (x - y)%Q.
Definition fmul (x y : number) : number := double (x * y)%Q.
Definition fdiv (x y : number) : number := double (x / y)%Q.

(** The value of a finite binary64 number of the machine, to compare
    [double] and the four operations with the hardware's. *)
Definition of_binary64 (f : PrimFloat.float) : option number :=
  match FloatOps.Prim2SF f with
  | SpecFloat.S754_zero _ => Some 0%Q
  | SpecFloat.S754_finite s m e =>
      let v :=
        if (0 <=? e)%Z then inject_Z (Z.pos m * 2 ^ e)
        else Qred (Qmake (Z.pos m) (Z.to_pos (2 ^ (- e)))) in
      Some (if s then Qopp v else v)
  | _ => None
  end.

(** [Math.round]: the nearest integer, halves rounded up. *)
Definition Math_round (x : number) : number :=
  inject_Z (Qfloor (x + (1 # 2))%Q).

Definition Math_min (x y : number) : number := if Qle_bool x y then x else y.
Definition Math_max (x y : number) : number := if Qle_bool x y then y else x.

(** [x < y], [x <= y], [x > y], [x >= y] *)
Definition ltb (x y : number) : bool := negb (Qle_bool y x).
Definition leb (x y : number) : bool := Qle_bool x y.
Definition gtb (x y : number) : bool := ltb y x.
Definition geb (x y : number) : bool := leb y x.

(** A number is falsy when it is zero. *)
Definition nonzero (x : number) : bool := negb (Qeq_bool x 0).

End JsNumber.
Import JsNumber.

(* ================================================================== *)
(** ** Untyped values ([any], [unknown]) *)

Inductive JsVal : Type :=
| JUndefined
| JNull
| JBool (b : bool)
| JNum (q : number)
| JStr (s : string)
| JArr (elems : list JsVal)
| JObj (props : list (string * JsVal)).

(* ================================================================== *)
(** ** Data model ([src/types]) *)

Inductive SemanticCategory : Type :=
| Heading | Paragraph | RichText | Label | Link | Button | Image | List
| Other.

Definition SemanticCategory_eqb (a b : SemanticCategory) : bool :=
  match a, b with
  | Heading, Heading | Paragraph, Paragraph | RichText, RichText
  | Label, Label | Link, Link | Button, Button | Image, Image
  | List, List | Other, Other => true
  | _, _ => false
  end.

Record ComponentMetadata : Type := mkComponentMetadata {
  meta_componentName : string;
  meta_componentId : string;
  meta_datasourceItemId : option string;
  meta_fieldName : string;
  meta_renderingPlaceholder : option string;
  meta_params : option JsVal
}.

Record SemanticTextItem : Type := mkSemanticTextItem {
  item_id : string;
  item_text : string;
  item_category : SemanticCategory;
  item_metadata : ComponentMetadata;
  item_path : list string
}.

Record FieldInfo : Type := mkFieldInfo {
  field_name : string;
  field_value : string;
  field_type : string;
  field_category : SemanticCategory
}.

Inductive ComponentNode : Type := mkComponentNode {
  node_id : string;
  node_name : string;
  node_componentName : string;
  node_type : string;
  node_datasourceId : option string;
  node_placeholder : option string;
  node_params : option JsVal;
  node_fields : list FieldInfo;
  node_children : list ComponentNode;
  node_path : list string
}.

Record PageContent : Type := mkPageContent {
  page_itemId : string;
  page_name : string;
  page_language : string;
  page_path : string;
  page_route : option (string * JsVal);
  page_components : list ComponentNode
}.

(** *** SEO types ([src/types/seo]) *)

Record PageMetadata : Type := mkPageMetadata {
  md_title : option string;
  md_description : option string;
  md_keywords : option (list string);
  md_canonical : option string;
  md_robots : option string
}.

Record PageHeadings : Type := mkPageHeadings {
  h_h1 : option string;
  h_h2 : option (list string);
  h_h3 : option (list string);
  h_all : list string
}.

Record PageImage : Type := mkPageImage {
  img_id : string;
  img_alt : option string;
  img_src : string;
  img_componentId : option string;
  img_componentName : option string;
  img_fieldName : option string;
  img_path : option (list string)
}.

Record PageLink : Type := mkPageLink {
  link_text : option string;
  link_href : option string;
  link_isPlaceholder : option bool;
  link_isBroken : option bool;
  link_componentId : option string;
  link_componentName : option string;
  link_fieldName : option string;
  link_path : option (list string)
}.

Record ComponentContent : Type := mkComponentContent {
  cc_componentId : string;
  cc_componentName : string;
  cc_path : list string;
  cc_headings : PageHeadings;
  cc_paragraphs : list (string * string);   (* fieldName, text *)
  cc_images : list PageImage;
  cc_links : list PageLink
}.

Record ReadabilityMetrics : Type := mkReadabilityMetrics {
  rd_score : number;
  rd_grade : string;
  rd_sentences : number;
  rd_words : number;
  rd_syllables : number;
  rd_averageWordsPerSentence : number;
  rd_averageSyllablesPerWord : number
}.

Record ContentMetrics : Type := mkContentMetrics {
  cm_wordCount : number;
  cm_characterCount : number;
  cm_paragraphCount : number;
  cm_headingCount : number;
  cm_linkCount : number;
  cm_imageCount : number;
  cm_readability : option ReadabilityMetrics
}.

Record PageData : Type := mkPageData {
  pd_metadata : PageMetadata;
  pd_headings : PageHeadings;
  pd_text : string;
  pd_images : list PageImage;
  pd_links : list PageLink;
  pd_wordCount : option number;
  pd_components : option (list ComponentContent);
  pd_metrics : option ContentMetrics
}.

Record ScoreBreakdown : Type := mkScoreBreakdown {
  sb_metadata : number;
  sb_content : number;
  sb_accessibility : number;
  sb_links : number
}.

(** An optional flag of [SEOIssues] is [true] when the property is set
    (the code only ever sets it to [true]); an optional list is [None]
    when the property is absent. *)
Record SEOIssues : Type := mkSEOIssues {
  missingMetaDescription : bool;
  missingH1 : bool;
  weakAltText : option (list string);
  placeholderLinks : option (list string);
  brokenLinks : option (list string);
  titleTooLong : bool;
  descriptionTooLong : bool;
  lowReadability : bool;
  shortContent : bool;
  missingImages : bool;
  tooManyLinks : bool;
  noInternalLinks : bool
}.

Inductive BrokenReason : Type :=
| placeholder | invalid_url | empty | suspected_broken.

Record BrokenLinkInfo : Type := mkBrokenLinkInfo {
  bl_href : string;
  bl_text : option string;
  bl_componentId : option string;
  bl_componentName : option string;
  bl_reason : BrokenReason
}.

Record ScanResult : Type := mkScanResult {
  seoScore : number;
  breakdown : ScoreBreakdown;
  issues : SEOIssues;
  pageData : PageData;
  brokenLinksDetails : option (list BrokenLinkInfo)
}.

(* ================================================================== *)
(** ** [src/utils/semanticClassifier.ts] *)

Module SemanticClassifier.

Local Open Scope char_scope.

(** [/^(w1|w2|...)$/i] *)
Definition whole_i (ws : list re) : regexp :=
  mkRe true (Seq (alts ws) Eol).

(** [/w$/i] *)
Definition suffix_i (w : string) : regexp :=
  mkRe false (Seq (liti w) Eol).

Definition h1_6 : re := Seq (Chr (chi "h")) (Chr (in_range 49 54)).

Definition FIELD_PATTERNS : list (SemanticCategory * list regexp) :=
  [ (Heading,
     [ whole_i [liti "title"; liti "heading"; liti "header"; h1_6;
                liti "pageTitle"; liti "sectionTitle"];
       suffix_i "title";
       suffix_i "heading" ]);
    (Paragraph,
     [ whole_i [liti "text"; liti "content"; liti "body";
                liti "description"; liti "paragraph"; liti "copy";
                liti "summary"; liti "intro"];
       suffix_i "text";
       suffix_i "description";
       suffix_i "content" ]);
    (RichText,
     [ whole_i [liti "richText"; liti "html"; liti "markup";
                liti "formattedText"; liti "wysiwyg"; liti "editor"];
       suffix_i "richtext" ]);
    (Label,
     [ whole_i [liti "label"; liti "name"; liti "caption"; liti "tag";
                liti "badge"; liti "category"; liti "type"];
       suffix_i "label";
       suffix_i "name" ]);
    (Link,
     [ whole_i [liti "link"; liti "url"; liti "href"; liti "cta";
                liti "action"; liti "navigation"; liti "anchor"];
       mkRe true (seqs [liti "link"; star is_digit; Eol]);
       suffix_i "link";
       suffix_i "url" ]);
    (Button,
     [ whole_i [liti "button"; liti "cta"; liti "action"; liti "submit";
                seqs [liti "call"; star is_dot; liti "action"]];
       mkRe true (seqs [liti "button"; star is_digit; Eol]);
       suffix_i "button";
       suffix_i "cta" ]);
    (Image,
     [ whole_i [liti "image"; liti "img"; liti "picture"; liti "photo";
                liti "thumbnail"; liti "banner"; liti "icon"; liti "media"];
       suffix_i "image";
       suffix_i "img" ]);
    (List,
     [ whole_i [liti "list"; liti "items"; liti "collection";
                liti "array"; liti "menu"; liti "options"];
       suffix_i "list";
       suffix_i "items" ]);
    (Other, []) ].

(** [/<[^>]+>/] *)
Definition re_tag : re := seqs [lit "<"; plus (none_of ">"); lit ">"].

(** [https?:\/\/] under the [i] flag *)
Definition re_http : re :=
  seqs [liti "http"; opt (Chr (chi "s")); lit "://"].

Definition CONTENT_PATTERNS : list (SemanticCategory * list regexp) :=
  [ (Heading,
     [ mkRe true
         (seqs [lit "<"; h1_6; star (none_of ">"); lit ">"; star is_dot;
                lit "</"; h1_6; lit ">"; Eol]) ]);
    (RichText,
     [ mkRe false re_tag;
       mkRe false (alts [lit "&nbsp;"; lit "&lt;"; lit "&gt;"; lit "&amp;"]) ]);
    (Link,
     [ mkRe true re_http;
       mkRe true
         (seqs [lit "/";
                plus (fun c => (in_range 97 122 (lower c) || is_digit c
                                || ch "-" c || ch "/" c)%bool);
                Eol]);
       mkRe false (seqs [lit "["; re_http; plus (none_of "]"); lit "]"]);
       mkRe false (seqs [lit "["; plus (none_of "]"); lit "]"]) ]);
    (Button,
     [ mkRe true
         (seqs [alts [liti "buy"; liti "learn more"; liti "read more";
                      liti "get started"; liti "sign up"; liti "subscribe";
                      liti "download"; liti "shop now"; liti "add to cart";
                      liti "checkout"];
                opt (seqs [plus is_space; lit "["; star is_dot; lit "]"]);
                Eol]) ]);
    (Image,
     [ mkRe false
         (seqs [lit ".";
                alts [liti "jpg"; liti "jpeg"; liti "png"; liti "gif";
                      liti "svg"; liti "webp"; liti "bmp"];
                opt (Seq (lit "?") (star is_dot));
                Eol]) ]);
    (Paragraph, []);
    (Label, []);
    (List, []);
    (Other, []) ].

Local Close Scope char_scope.

Definition TEMPLATE_PATTERNS : list (string * SemanticCategory) :=
  [ ("Heading", Heading); ("Text", Paragraph); ("Rich Text", RichText);
    ("Link", Link); ("Image", Image); ("Button", Button); ("List", List) ].

(** The value a lookup or a classification yields at run time: a
    category, or the member of [Object.prototype] that an object literal
    inherits under [key] (a function, or the prototype itself). *)
Inductive Classified : Type :=
| Cat (c : SemanticCategory)
| Inherited (key : string).

Definition Object_prototype_keys : list string :=
  [ "constructor"; "hasOwnProperty"; "isPrototypeOf";
    "propertyIsEnumerable"; "toLocaleString"; "toString"; "valueOf";
    "__proto__"; "__defineGetter__"; "__defineSetter__";
    "__lookupGetter__"; "__lookupSetter__" ].

Fixpoint own (table : list (string * SemanticCategory)) (key : string)
  : option SemanticCategory :=
  match table with
  | [] => None
  | (k, c) :: rest => if String.eqb k key then Some c else own rest key
  end.

(** [table[key]]; [None] is [undefined]. *)
Definition get (table : list (string * SemanticCategory)) (key : string)
  : option Classified :=
  match own table key with
  | Some c => Some (Cat c)
  | None =>
      if existsb (String.eqb key) Object_prototype_keys
      then Some (Inherited key) else None
  end.

Definition entry_matches (s : string) (e : SemanticCategory * list regexp)
  : bool :=
  existsb (fun pattern => test pattern s) (snd e).

(** First entry, in table order, one of whose patterns matches. *)
Fixpoint first_match (skip : SemanticCategory -> bool) (s : string)
         (entries : list (SemanticCategory * list regexp))
  : option SemanticCategory :=
  match entries with
  | [] => None
  | e :: rest =>
      if skip (fst e) then first_match skip s rest
      else if entry_matches s e then Some (fst e)
           else first_match skip s rest
  end.

Definition classifyFieldName (fieldName : string) : SemanticCategory :=
  match first_match (SemanticCategory_eqb Other) fieldName FIELD_PATTERNS with
  | Some category => category
  | None => Other
  end.

Definition patterns_of (c : SemanticCategory)
           (table : list (SemanticCategory * list regexp)) : list regexp :=
  flat_map (fun e => if SemanticCategory_eqb (fst e) c then snd e else [])
           table.

(** [None] is [null]. *)
Definition classifyContent (content : string) : option SemanticCategory :=
  if (is_empty content || Nat.eqb (length (trim content)) 0)%bool then None
  else if existsb (fun pattern => test pattern content)
                  (patterns_of Button CONTENT_PATTERNS)
  then Some Button
  else first_match
         (fun category =>
            (SemanticCategory_eqb category Other
             || SemanticCategory_eqb category Paragraph
             || SemanticCategory_eqb category Label
             || SemanticCategory_eqb category Button)%bool)
         content CONTENT_PATTERNS.

Definition isSubstantialContent (content : string) : bool :=
  if is_empty content then false
  else
    let textOnly := trim (replace_all re_tag "" content) in
    Nat.ltb 0 (length textOnly).

Local Open Scope char_scope.

Definition re_script : re :=
  seqs [liti "<script"; star (none_of ">"); lit ">"; star_q any;
        liti "</script>"].
Definition re_style : re :=
  seqs [liti "<style"; star (none_of ">"); lit ">"; star_q any;
        liti "</style>"].
Definition re_br : re :=
  seqs [liti "<br"; star is_space; opt (lit "/"); lit ">"].
Definition re_p_close : re := liti "</p>".
Definition re_spaces : re := plus is_space.

Local Close Scope char_scope.

Definition LF : string := String (ascii_of_nat 10) EmptyString.
Definition quot : string := String (ascii_of_nat 34) EmptyString.

Definition extractPlainText (html : string) : string :=
  if is_empty html then EmptyString
  else
    let text := replace_all re_script "" html in
    let text := replace_all re_style "" text in
    let text := replace_all re_br LF text in
    let text := replace_all re_p_close LF text in
    let text := replace_all re_tag "" text in
    let text := replace_all (lit "&nbsp;") " " text in
    let text := replace_all (lit "&lt;") "<" text in
    let text := replace_all (lit "&gt;") ">" text in
    let text := replace_all (lit "&amp;") "&" text in
    let text := replace_all (lit "&quot;") quot text in
    let text := replace_all (lit "&#39;") "'" text in
    trim (replace_all re_spaces " " text).

Definition semanticCategories : list (string * SemanticCategory) :=
  [ ("Heading", Heading); ("Paragraph", Paragraph); ("RichText", RichText);
    ("Label", Label); ("Link", Link); ("Button", Button); ("Image", Image);
    ("List", List); ("Other", Other) ].

Definition typeMap : list (string * SemanticCategory) :=
  [ ("Single-Line Text", Label); ("Multi-Line Text", Paragraph);
    ("Rich Text", RichText); ("General Link", Link); ("Image", Image);
    ("Droplink", Label); ("Droptree", Label); ("Checklist", List);
    ("Multilist", List); ("Treelist", List) ].

Definition mapFieldTypeToCategory (fieldType : string) : Classified :=
  match get typeMap fieldType with
  | Some v => v
  | None => Cat Other
  end.

Definition is_Other (v : Classified) : bool :=
  match v with Cat Other => true | _ => false end.

(** The first two tiers: [Some v] when one of them returns [v]. *)
Definition by_template (templateName : option string) : option Classified :=
  match templateName with
  | Some t => if truthy t then get TEMPLATE_PATTERNS t else None
  | None => None
  end.

Definition by_type (fieldType : option string) : option Classified :=
  match fieldType with
  | Some t =>
      if truthy t then
        match own semanticCategories t with
        | Some c => Some (Cat c)
        | None =>
            let typeCategory := mapFieldTypeToCategory t in
            if is_Other typeCategory then None else Some typeCategory
        end
      else None
  | None => None
  end.

Definition classifyField (fieldName fieldValue : string)
           (fieldType templateName : option string) : Classified :=
  match by_template templateName with
  | Some v => v
  | None =>
  match by_type fieldType with
  | Some v => v
  | None =>
      let nameCategory := classifyFieldName fieldName in
      let contentCategory := classifyContent fieldValue in
      if negb (SemanticCategory_eqb nameCategory Other) then
        if (SemanticCategory_eqb nameCategory Link
            || SemanticCategory_eqb nameCategory Button)%bool
        then Cat nameCategory
        else
          match contentCategory with
          | Some RichText => Cat RichText
          | _ => Cat nameCategory
          end
      else
        match contentCategory with
        | Some Link => Cat Link
        | Some Button => Cat Button
        | Some c => Cat c
        | None =>
            if Nat.ltb 200 (length fieldValue) then Cat Paragraph
            else if Nat.ltb 50 (length fieldValue) then Cat Paragraph
            else Cat Label
        end
  end
  end.

Definition createSemanticTextItem (field : FieldInfo)
           (metadata : ComponentMetadata) (path : list string)
  : SemanticTextItem :=
  let plainText := extractPlainText (field_value field) in
  {| item_id := meta_componentId metadata ++ "-" ++ field_name field;
     item_text := or_else plainText (field_value field);
     item_category := field_category field;
     item_metadata := metadata;
     item_path := path |}.

End SemanticClassifier.
Import SemanticClassifier.

(* ================================================================== *)
(** ** [src/utils/contentParser.ts] *)

Module ContentParser.

Local Open Scope list_scope.

Definition metadata_of (component : ComponentNode) (field : FieldInfo)
  : ComponentMetadata :=
  {| meta_componentName := node_componentName component;
     meta_componentId := node_id component;
     meta_datasourceItemId := node_datasourceId component;
     meta_fieldName := field_name field;
     meta_renderingPlaceholder := node_placeholder component;
     meta_params := node_params component |}.

(** The inner function of [extractSemanticItems]; the array [items] it
    pushes to is threaded through. *)
Fixpoint processComponent (component : ComponentNode) (path : list string)
         (items : list SemanticTextItem) : list SemanticTextItem :=
  let componentPath := path ++ [node_name component] in
  let items :=
    fold_left
      (fun items field =>
         items ++ [createSemanticTextItem
                     field (metadata_of component field) componentPath])
      (node_fields component) items in
  fold_left
    (fun items child => processComponent child componentPath items)
    (node_children component) items.

Definition extractSemanticItems (pageContent : PageContent)
  : list SemanticTextItem :=
  fold_left
    (fun items component =>
       processComponent component [page_name pageContent] items)
    (page_components pageContent) [].

End ContentParser.
Import ContentParser.

(* ================================================================== *)
(** ** [src/utils/seoScanner.ts] *)

Module SeoScanner.

Local Open Scope list_scope.

(** Truthiness of an optional string property. *)
Definition opt_truthy (o : option string) : bool :=
  match o with Some s => truthy s | None => false end.

(** [list || []] *)
Definition or_nil (A : Type) (o : option (list A)) : list A :=
  match o with Some l => l | None => [] end.

Definition category_is (c : SemanticCategory) (item : SemanticTextItem)
  : bool := SemanticCategory_eqb (item_category item) c.

Definition fieldName_lower (item : SemanticTextItem) : string :=
  toLowerCase (meta_fieldName (item_metadata item)).

(** [/Alt:\s*([^|]+)/] *)
Definition re_alt : regexp :=
  mkRe false (seqs [lit "Alt:"; star is_space; Grp (plus (none_of "|"))]).
(** [/Src:\s*(.+)$/] *)
Definition re_src : regexp :=
  mkRe false (seqs [lit "Src:"; star is_space; Grp (plus is_dot); Eol]).
(** [/\[([^\]]+)\]$/] *)
Definition re_url : regexp :=
  mkRe false (seqs [lit "["; Grp (plus (none_of "]")); lit "]"; Eol]).
(** [/^([^\[(]+)/] *)
Definition re_linktext : regexp :=
  mkRe true (Grp (plus (none_of "[("))).

(** [m ? m[1].trim() : ''] *)
Definition group1_trim (m : option MatchResult) : string :=
  match m with Some m => trim (group1 m) | None => EmptyString end.

(** *** Per-component buckets *)

Fixpoint has (componentId : string) (componentMap : list ComponentContent)
  : bool :=
  match componentMap with
  | [] => false
  | c :: rest =>
      (String.eqb (cc_componentId c) componentId || has componentId rest)%bool
  end.

(** The entry under [componentId] is replaced by its image under [f]:
    the object [componentMap.get(componentId)] is mutated in place. *)
Fixpoint update (componentId : string)
         (f : ComponentContent -> ComponentContent)
         (componentMap : list ComponentContent) : list ComponentContent :=
  match componentMap with
  | [] => []
  | c :: rest =>
      if String.eqb (cc_componentId c) componentId then f c :: rest
      else c :: update componentId f rest
  end.

Definition set_headings (c : ComponentContent) (h : PageHeadings)
  : ComponentContent :=
  {| cc_componentId := cc_componentId c;
     cc_componentName := cc_componentName c;
     cc_path := cc_path c;
     cc_headings := h;
     cc_paragraphs := cc_paragraphs c;
     cc_images := cc_images c;
     cc_links := cc_links c |}.

Definition image_of (item : SemanticTextItem) (alt src : string)
  : PageImage :=
  {| img_id := item_id item;
     img_alt := Some alt;
     img_src := src;
     img_componentId := Some (meta_componentId (item_metadata item));
     img_componentName := Some (meta_componentName (item_metadata item));
     img_fieldName := Some (meta_fieldName (item_metadata item));
     img_path := Some (item_path item) |}.

Definition component_item (item : SemanticTextItem)
           (component : ComponentContent) : ComponentContent :=
  match item_category item with
  | Heading =>
      let text := trim (extractPlainText (item_text item)) in
      if truthy text then
        let h := cc_headings component in
        let h := {| h_h1 := h_h1 h; h_h2 := h_h2 h; h_h3 := h_h3 h;
                    h_all := h_all h ++ [text] |} in
        let fieldName := fieldName_lower item in
        set_headings component
          (if (includes fieldName "h1" || String.eqb fieldName "title"
               || String.eqb fieldName "heading")%bool
           then
             if negb (opt_truthy (h_h1 h))
             then {| h_h1 := Some text; h_h2 := h_h2 h; h_h3 := h_h3 h;
                     h_all := h_all h |}
             else h
           else if includes fieldName "h2"
           then {| h_h1 := h_h1 h; h_h2 := Some (or_nil (h_h2 h) ++ [text]);
                   h_h3 := h_h3 h; h_all := h_all h |}
           else if includes fieldName "h3"
           then {| h_h1 := h_h1 h; h_h2 := h_h2 h;
                   h_h3 := Some (or_nil (h_h3 h) ++ [text]);
                   h_all := h_all h |}
           else h)
      else component
  | Paragraph | RichText =>
      let text := trim (extractPlainText (item_text item)) in
      if Nat.ltb 10 (length text) then
        {| cc_componentId := cc_componentId component;
           cc_componentName := cc_componentName component;
           cc_path := cc_path component;
           cc_headings := cc_headings component;
           cc_paragraphs :=
             cc_paragraphs component
             ++ [(meta_fieldName (item_metadata item), text)];
           cc_images := cc_images component;
           cc_links := cc_links component |}
      else component
  | Image =>
      let alt := group1_trim (match_ re_alt (item_text item)) in
      let src := group1_trim (match_ re_src (item_text item)) in
      if truthy src then
        {| cc_componentId := cc_componentId component;
           cc_componentName := cc_componentName component;
           cc_path := cc_path component;
           cc_headings := cc_headings component;
           cc_paragraphs := cc_paragraphs component;
           cc_images := cc_images component ++ [image_of item alt src];
           cc_links := cc_links component |}
      else component
  | Link =>
      let href := group1_trim (match_ re_url (item_text item)) in
      let linkText := group1_trim (match_ re_linktext (item_text item)) in
      if truthy href then
        {| cc_componentId := cc_componentId component;
           cc_componentName := cc_componentName component;
           cc_path := cc_path component;
           cc_headings := cc_headings component;
           cc_paragraphs := cc_paragraphs component;
           cc_images := cc_images component;
           cc_links :=
             cc_links component
             ++ [ {| link_text := Some linkText;
                     link_href := Some href;
                     link_isPlaceholder :=
                       Some (String.eqb href "http://#"
                             || String.eqb href "#")%bool;
                     link_isBroken := None;
                     link_componentId :=
                       Some (meta_componentId (item_metadata item));
                     link_componentName :=
                       Some (meta_componentName (item_metadata item));
                     link_fieldName :=
                       Some (meta_fieldName (item_metadata item));
                     link_path := Some (item_path item) |} ] |}
      else component
  | _ => component
  end.

Definition extractComponentContent (semanticItems : list SemanticTextItem)
  : list ComponentContent :=
  fold_left
    (fun componentMap item =>
       let componentId := meta_componentId (item_metadata item) in
       let componentMap :=
         if negb (has componentId componentMap)
         then componentMap
              ++ [ {| cc_componentId := componentId;
                      cc_componentName :=
                        meta_componentName (item_metadata item);
                      cc_path := item_path item;
                      cc_headings :=
                        {| h_h1 := None; h_h2 := None; h_h3 := None;
                           h_all := [] |};
                      cc_paragraphs := [];
                      cc_images := [];
                      cc_links := [] |} ]
         else componentMap in
       update componentId (component_item item) componentMap)
    semanticItems [].

(** *** Metadata *)

Definition is_titleField (item : SemanticTextItem) : bool :=
  (includes (fieldName_lower item) "title"
   && (category_is Heading item || category_is Label item))%bool.

Definition is_descriptionField (item : SemanticTextItem) : bool :=
  ((includes (fieldName_lower item) "description"
    || includes (fieldName_lower item) "meta"
    || includes (fieldName_lower item) "summary")
   && (category_is Paragraph item || category_is RichText item))%bool.

Definition is_meta (item : SemanticTextItem) : bool :=
  includes (fieldName_lower item) "meta".

Definition extractMetadata (pageContent : PageContent)
           (semanticItems : list SemanticTextItem) : PageMetadata :=
  let titleFields := filter is_titleField semanticItems in
  let title :=
    match titleFields with
    | first :: _ =>
        match find is_meta titleFields with
        | Some metaTitle => trim (item_text metaTitle)
        | None => trim (item_text first)
        end
    | [] => page_name pageContent
    end in
  let descriptionFields := filter is_descriptionField semanticItems in
  let description :=
    match descriptionFields with
    | first :: _ =>
        match find is_meta descriptionFields with
        | Some metaDesc =>
            Some (trim (extractPlainText (item_text metaDesc)))
        | None =>
            let firstDesc := trim (extractPlainText (item_text first)) in
            Some (substring0 165 firstDesc)
        end
    | [] => None
    end in
  {| md_title := Some title;
     md_description := description;
     md_keywords := None;
     md_canonical := None;
     md_robots := None |}.

(** *** Headings *)

(** One iteration of the loop of [extractHeadings]. *)
Definition heading_step (headings : PageHeadings) (item : SemanticTextItem)
  : PageHeadings :=
  let text := trim (extractPlainText (item_text item)) in
  if negb (truthy text) then headings
  else
    let fieldName := fieldName_lower item in
    let headings :=
      if (includes fieldName "h1"
          || String.eqb fieldName "title"
          || String.eqb fieldName "heading"
          || (negb (opt_truthy (h_h1 headings))
              && negb (includes fieldName "h2")
              && negb (includes fieldName "h3")))%bool
      then
        if negb (opt_truthy (h_h1 headings))
        then {| h_h1 := Some text; h_h2 := h_h2 headings;
                h_h3 := h_h3 headings; h_all := h_all headings |}
        else headings
      else if (includes fieldName "h2" || opt_truthy (h_h1 headings))%bool
      then {| h_h1 := h_h1 headings;
              h_h2 := Some (or_nil (h_h2 headings) ++ [text]);
              h_h3 := h_h3 headings; h_all := h_all headings |}
      else if includes fieldName "h3"
      then {| h_h1 := h_h1 headings; h_h2 := h_h2 headings;
              h_h3 := Some (or_nil (h_h3 headings) ++ [text]);
              h_all := h_all headings |}
      else headings in
    {| h_h1 := h_h1 headings; h_h2 := h_h2 headings; h_h3 := h_h3 headings;
       h_all := h_all headings ++ [text] |}.

Definition extractHeadings (semanticItems : list SemanticTextItem)
  : PageHeadings :=
  let headings :=
    {| h_h1 := None; h_h2 := Some []; h_h3 := Some []; h_all := [] |} in
  let headingItems := filter (category_is Heading) semanticItems in
  fold_left heading_step headingItems headings.

(** *** Body text, images, links *)

Definition extractTextContent (semanticItems : list SemanticTextItem)
  : string :=
  let textItems :=
    filter (fun item =>
              (category_is Paragraph item || category_is RichText item
               || (category_is Other item
                   && Nat.ltb 50 (length (item_text item))))%bool)
           semanticItems in
  let paragraphs :=
    fold_left
      (fun paragraphs item =>
         let text := trim (extractPlainText (item_text item)) in
         if Nat.ltb 10 (length text) then paragraphs ++ [text]
         else paragraphs)
      textItems [] in
  join " " paragraphs.

Definition extractImages (semanticItems : list SemanticTextItem)
  : list PageImage :=
  let imageItems := filter (category_is Image) semanticItems in
  fold_left
    (fun images item =>
       let alt := group1_trim (match_ re_alt (item_text item)) in
       let src := group1_trim (match_ re_src (item_text item)) in
       if truthy src then images ++ [image_of item alt src] else images)
    imageItems [].

Definition TAB : string := String (ascii_of_nat 9) EmptyString.

Section Links.

(** [new URL(href)] succeeds: the URL parser of the platform. *)
Variable url_parses : string -> bool.

Definition detectBrokenLink (href : string) : bool :=
  if (negb (truthy href) || Nat.eqb (length (trim href)) 0)%bool then true
  else if (String.eqb href "http://#" || String.eqb href "#"
           || startsWith href "http://#")%bool then true
  else if (includes href "javascript:void(0)"
           || includes href "javascript:;")%bool then true
  else if (startsWith href "/" || startsWith href "./"
           || startsWith href "../")%bool then false
  else if url_parses href then false
  else (includes href " " || includes href LF || includes href TAB)%bool.

Definition link_of (item : SemanticTextItem) (text href : string)
  : PageLink :=
  {| link_text := Some text;
     link_href := Some href;
     link_isPlaceholder :=
       Some (String.eqb href "http://#" || String.eqb href "#"
             || startsWith href "http://#"
             || Nat.eqb (length (trim href)) 0)%bool;
     link_isBroken := Some (detectBrokenLink href);
     link_componentId := Some (meta_componentId (item_metadata item));
     link_componentName := Some (meta_componentName (item_metadata item));
     link_fieldName := Some (meta_fieldName (item_metadata item));
     link_path := Some (item_path item) |}.

(** One iteration of the loop of [extractLinks]. *)
Definition link_step (links : list PageLink) (item : SemanticTextItem)
  : list PageLink :=
  let href := group1_trim (match_ re_url (item_text item)) in
  let text := group1_trim (match_ re_linktext (item_text item)) in
  if truthy href then links ++ [link_of item text href] else links.

Definition extractLinks (semanticItems : list SemanticTextItem)
  : list PageLink :=
  let linkItems := filter (category_is Link) semanticItems in
  fold_left link_step linkItems [].

End Links.

(** *** Metrics *)

Definition nonempty (s : string) : bool := Nat.ltb 0 (length s).

Definition countWords (text : string) : nat :=
  if (negb (truthy text) || Nat.eqb (length (trim text)) 0)%bool then 0
  else
    let words := filter nonempty (split (plus is_space) (trim text)) in
    List.length words.

Definition countSyllables (word : string) : nat :=
  let lowerWord := trim (toLowerCase word) in
  if Nat.leb (length lowerWord) 3 then 1
  else
    let modified := replace_first (Seq (lit "e") Eol) "" lowerWord in
    match match_all (plus (one_of "aeiouy")) modified with
    | None => 1
    | Some vowelGroups =>
        let syllables := List.length vowelGroups in
        let syllables :=
          if (endsWith lowerWord "le" && Nat.ltb 2 (length lowerWord))%bool
          then syllables + 1 else syllables in
        Nat.max 1 syllables
    end.

Local Open Scope Q_scope.

Definition getReadabilityGrade (score : number) : string :=
  if geb score 90 then "5th grade"
  else if geb score 80 then "6th grade"
  else if geb score 70 then "7th grade"
  else if geb score 60 then "8th-9th grade"
  else if geb score 50 then "10th-12th grade"
  else if geb score 30 then "College"
  else "College graduate".

Definition calculateReadability (text : string) (words sentences : list string)
  : ReadabilityMetrics :=
  if (Nat.eqb (List.length words) 0 || Nat.eqb (List.length sentences) 0)%bool
  then
    {| rd_score := 0; rd_grade := "N/A"; rd_sentences := 0; rd_words := 0;
       rd_syllables := 0; rd_averageWordsPerSentence := 0;
       rd_averageSyllablesPerWord := 0 |}
  else
    let totalSyllables :=
      fold_left (fun total word => (total + countSyllables word)%nat)
                words 0%nat in
    let averageWordsPerSentence :=
      fdiv (of_nat (List.length words)) (of_nat (List.length sentences)) in
    let averageSyllablesPerWord :=
      fdiv (of_nat totalSyllables) (of_nat (List.length words)) in
    let score :=
      Math_round
        (fsub (fsub (double (206835 # 1000))
                    (fmul (double (1015 # 1000)) averageWordsPerSentence))
              (fmul (double (846 # 10)) averageSyllablesPerWord)) in
    let clampedScore := Math_max 0 (Math_min 100 score) in
    let grade := getReadabilityGrade clampedScore in
    {| rd_score := clampedScore;
       rd_grade := grade;
       rd_sentences := of_nat (List.length sentences);
       rd_words := of_nat (List.length words);
       rd_syllables := of_nat totalSyllables;
       rd_averageWordsPerSentence :=
         fdiv (Math_round (fmul averageWordsPerSentence 10)) 10;
       rd_averageSyllablesPerWord :=
         fdiv (Math_round (fmul averageSyllablesPerWord 100)) 100 |}.

Local Close Scope Q_scope.

Definition calculateContentMetrics (text : string) (headings : PageHeadings)
           (links : list PageLink) (images : list PageImage)
  : ContentMetrics :=
  let cleanText := trim (replace_all re_tag " " text) in
  let words := filter nonempty (split (plus is_space) cleanText) in
  let sentences :=
    filter (fun s => nonempty (trim s))
           (split (plus (one_of ".!?")) cleanText) in
  let paragraphs :=
    filter (fun p => nonempty (trim p))
           (split (seqs [lit LF; star is_space; lit LF]) cleanText) in
  {| cm_wordCount := of_nat (List.length words);
     cm_characterCount := of_nat (length cleanText);
     cm_paragraphCount := of_nat (List.length paragraphs);
     cm_headingCount := of_nat (List.length (h_all headings));
     cm_linkCount := of_nat (List.length links);
     cm_imageCount := of_nat (List.length images);
     cm_readability := Some (calculateReadability cleanText words sentences) |}.

Section Scan.

Variable url_parses : string -> bool.

Definition scanPageContent (pageContent : PageContent)
           (semanticItems : list SemanticTextItem) : PageData :=
  let metadata := extractMetadata pageContent semanticItems in
  let headings := extractHeadings semanticItems in
  let text := extractTextContent semanticItems in
  let images := extractImages semanticItems in
  let links := extractLinks url_parses semanticItems in
  let wordCount := countWords text in
  let components := extractComponentContent semanticItems in
  let metrics := calculateContentMetrics text headings links images in
  {| pd_metadata := metadata;
     pd_headings := headings;
     pd_text := text;
     pd_images := images;
     pd_links := links;
     pd_wordCount := Some (of_nat wordCount);
     pd_components := Some components;
     pd_metrics := Some metrics |}.

End Scan.

End SeoScanner.

(* ================================================================== *)
(** ** [src/utils/seoScorer.ts] *)

Module SeoScorer.

Local Open Scope list_scope.

(** [s?.trim() || ''] *)
Definition trim_or_empty (o : option string) : string :=
  match o with Some s => trim s | None => EmptyString end.

Definition opt_true (o : option bool) : bool :=
  match o with Some b => b | None => false end.

Definition countWords (text : string) : nat :=
  if (negb (truthy text) || Nat.eqb (length (trim text)) 0)%bool then 0
  else
    let textOnly := replace_all re_tag " " text in
    let words :=
      filter SeoScanner.nonempty (split (plus is_space) (trim textOnly)) in
    List.length words.

(** [wordCount || countWords(text)] *)
Definition words_of (wordCount : option number) (text : string) : number :=
  match wordCount with
  | Some n => if nonzero n then n else of_nat (countWords text)
  | None => of_nat (countWords text)
  end.

Local Open Scope Q_scope.

(** The credit for a title or description of length [len] (not empty)
    and limit [limit]. *)
Definition length_credit (len limit : nat) : number :=
  if Nat.leb len limit then 10
  else Math_max 0 (fsub 10 (fmul (fsub (of_nat len) (of_nat limit))
                                 (double (1 # 10)))).

Definition scoreMetadata (metadata : PageMetadata) : number :=
  let score := 0 in
  let title := trim_or_empty (md_title metadata) in
  let description := trim_or_empty (md_description metadata) in
  let score :=
    if Nat.ltb 0 (length title)
    then fadd score (length_credit (length title) 60) else score in
  let score :=
    if Nat.ltb 0 (length description)
    then fadd score (length_credit (length description) 165) else score in
  let score :=
    if (Nat.ltb 0 (length title) && Nat.ltb 0 (length description))%bool
    then fadd score 5 else score in
  Math_min 25 (Math_round score).

Definition scoreContent (headings : PageHeadings) (text : string)
           (wordCount : option number) : number :=
  let score := 0 in
  let score :=
    match h_h1 headings with
    | Some h1 =>
        if (truthy h1 && Nat.ltb 0 (length (trim h1)))%bool
        then fadd score 15 else score
    | None => score
    end in
  let words := words_of wordCount text in
  let score :=
    if geb words 250 then fadd score 10
    else if gtb words 0
         then fadd score (Math_round (fmul (fdiv words 250) 10))
    else score in
  Math_min 25 (Math_round score).

Definition has_alt (img : PageImage) : bool :=
  match img_alt img with
  | Some alt => (truthy alt && Nat.leb 5 (length (trim alt)))%bool
  | None => false
  end.

Definition scoreAccessibility (images : list PageImage) : number :=
  if Nat.eqb (List.length images) 0 then 25
  else
    let imagesWithAlt := List.length (filter has_alt images) in
    let percentage :=
      fdiv (of_nat imagesWithAlt) (of_nat (List.length images)) in
    Math_round (fmul percentage 25).

Definition is_validLink (link : PageLink) : bool :=
  match link_href link with
  | Some href =>
      (truthy href
       && Nat.ltb 0 (length (trim href))
       && negb (opt_true (link_isPlaceholder link))
       && negb (opt_true (link_isBroken link))
       && negb (String.eqb href "http://#")
       && negb (String.eqb href "#"))%bool
  | None => false
  end.

Definition scoreLinks (links : list PageLink) : number :=
  if Nat.eqb (List.length links) 0 then 25
  else
    let validLinks := List.length (filter is_validLink links) in
    let percentage :=
      fdiv (of_nat validLinks) (of_nat (List.length links)) in
    Math_round (fmul percentage 25).

Local Close Scope Q_scope.

(** [!link.href || link.href.trim().length === 0] *)
Definition href_missing (link : PageLink) : bool :=
  match link_href link with
  | Some href => (negb (truthy href) || Nat.eqb (length (trim href)) 0)%bool
  | None => true
  end.

(** [link.href || 'empty'] *)
Definition href_or_empty (link : PageLink) : string :=
  match link_href link with
  | Some href => or_else href "empty"
  | None => "empty"
  end.

Definition detail (link : PageLink) (href : string) (reason : BrokenReason)
  : BrokenLinkInfo :=
  {| bl_href := href;
     bl_text := link_text link;
     bl_componentId := link_componentId link;
     bl_componentName := link_componentName link;
     bl_reason := reason |}.

(** The state of the loop over [pageData.links]:
    [brokenLinks], [placeholderLinks], [brokenLinksDetails]. *)
Definition link_state : Type :=
  (list string * list string * list BrokenLinkInfo)%type.

Definition issue_step (st : link_state) (link : PageLink) : link_state :=
  let '(brokenLinks, placeholderLinks, brokenLinksDetails) := st in
  if href_missing link then
    (brokenLinks ++ [href_or_empty link],
     placeholderLinks,
     brokenLinksDetails ++ [detail link (href_or_empty link) empty])
  else
    let href := match link_href link with Some h => h | None => EmptyString end in
    if (opt_true (link_isPlaceholder link)
        || String.eqb href "http://#" || String.eqb href "#")%bool
    then
      (brokenLinks,
       placeholderLinks ++ [href],
       brokenLinksDetails ++ [detail link href placeholder])
    else if opt_true (link_isBroken link) then
      (brokenLinks ++ [href],
       placeholderLinks,
       brokenLinksDetails ++ [detail link href suspected_broken])
    else st.

Definition is_internal (link : PageLink) : bool :=
  match link_href link with
  | Some href =>
      (truthy href
       && negb (opt_true (link_isPlaceholder link))
       && negb (opt_true (link_isBroken link))
       && (startsWith href "/" || startsWith href "./"
           || startsWith href "../"))%bool
  | None => false
  end.

Definition weak_alt (img : PageImage) : bool :=
  match img_alt img with
  | Some alt => (negb (truthy alt) || Nat.ltb (length (trim alt)) 5)%bool
  | None => true
  end.

Definition nonempty_list (A : Type) (l : list A) : option (list A) :=
  match l with [] => None | _ => Some l end.

Definition identifyIssues (pageData : PageData)
  : SEOIssues * list BrokenLinkInfo :=
  let md := pd_metadata pageData in
  let title := trim_or_empty (md_title md) in
  let description := trim_or_empty (md_description md) in
  let wordCount := words_of (pd_wordCount pageData) (pd_text pageData) in
  let weakAltImages := map img_id (filter weak_alt (pd_images pageData)) in
  let '(brokenLinks, placeholderLinks, brokenLinksDetails) :=
    fold_left issue_step (pd_links pageData) ([], [], []) in
  let hasInternalLinks := existsb is_internal (pd_links pageData) in
  ({| missingMetaDescription :=
        match md_description md with
        | Some d => (negb (truthy d) || Nat.eqb (length (trim d)) 0)%bool
        | None => true
        end;
      titleTooLong := Nat.ltb 60 (length title);
      descriptionTooLong := Nat.ltb 165 (length description);
      missingH1 :=
        match h_h1 (pd_headings pageData) with
        | Some h1 => (negb (truthy h1) || Nat.eqb (length (trim h1)) 0)%bool
        | None => true
        end;
      shortContent := ltb wordCount 250%Q;
      lowReadability :=
        match pd_metrics pageData with
        | Some metrics =>
            match cm_readability metrics with
            | Some readability => ltb (rd_score readability) 60%Q
            | None => false
            end
        | None => false
        end;
      weakAltText := nonempty_list weakAltImages;
      missingImages := Nat.eqb (List.length (pd_images pageData)) 0;
      placeholderLinks := nonempty_list placeholderLinks;
      brokenLinks := nonempty_list brokenLinks;
      tooManyLinks := Nat.ltb 100 (List.length (pd_links pageData));
      noInternalLinks :=
        (Nat.ltb 0 (List.length (pd_links pageData))
         && negb hasInternalLinks)%bool |},
   brokenLinksDetails).

Definition computeSEOScore (pageData : PageData) : ScanResult :=
  let breakdown :=
    {| sb_metadata := scoreMetadata (pd_metadata pageData);
       sb_content :=
         scoreContent (pd_headings pageData) (pd_text pageData)
                      (pd_wordCount pageData);
       sb_accessibility := scoreAccessibility (pd_images pageData);
       sb_links := scoreLinks (pd_links pageData) |} in
  let seoScore :=
    Math_round (fadd (fadd (fadd (sb_metadata breakdown)
                                 (sb_content breakdown))
                           (sb_accessibility breakdown))
                     (sb_links breakdown)) in
  let '(issues, brokenLinksDetails) := identifyIssues pageData in
  {| seoScore := seoScore;
     breakdown := breakdown;
     issues := issues;
     pageData := pageData;
     brokenLinksDetails := Some brokenLinksDetails |}.

End SeoScorer.

(* ================================================================== *)
(** ** [src/utils/pagesContextParser.ts] *)

Module PagesContextParser.

Local Open Scope list_scope.

(** *** Operations on untyped values *)

Definition js_truthy (v : JsVal) : bool :=
  match v with
  | JUndefined | JNull => false
  | JBool b => b
  | JNum q => nonzero q
  | JStr s => truthy s
  | JArr _ | JObj _ => true
  end.

(** [a || b] *)
Definition js_or (a b : JsVal) : JsVal := if js_truthy a then a else b.

(** [typeof v === 'object'] *)
Definition typeof_object (v : JsVal) : bool :=
  match v with JNull | JArr _ | JObj _ => true | _ => false end.

Definition typeof_string (v : JsVal) : bool :=
  match v with JStr _ => true | _ => false end.

Definition is_undefined (v : JsVal) : bool :=
  match v with JUndefined => true | _ => false end.

Fixpoint lookup (props : list (string * JsVal)) (key : string)
  : option JsVal :=
  match props with
  | [] => None
  | (k, v) :: rest => if String.eqb k key then Some v else lookup rest key
  end.

(** [v.key] and [v?.key] on a value that is neither [null] nor
    [undefined], for a key that no prototype defines (every key read
    below is one): an own property of an object, else [undefined]. *)
Definition prop (v : JsVal) (key : string) : JsVal :=
  match v with
  | JObj props =>
      match lookup props key with Some x => x | None => JUndefined end
  | _ => JUndefined
  end.

(** [key in v], for an object or an array *)
Definition has_prop (v : JsVal) (key : string) : bool :=
  match v with
  | JObj props =>
      match lookup props key with Some _ => true | None => false end
  | _ => false
  end.

(** What a call returns, or the [TypeError] it throws. *)
Inductive Outcome (A : Type) : Type :=
| Returned (a : A)
| Threw.
Arguments Threw {A}.

Record DatasourceField : Type := mkDatasourceField {
  ds_name : string;
  ds_value : JsVal;
  ds_jsonValue : JsVal
}.

(** The object [convertDatasourceFieldToComponentField] returns.  Its
    declared type is [FieldInfo]; at run time [type] is whatever
    [jsonValue.type] holds, and [category] whatever [classifyField]
    returns. *)
Record RawFieldInfo : Type := mkRawFieldInfo {
  raw_name : string;
  raw_value : string;
  raw_type : JsVal;
  raw_category : Classified
}.

Record ParsedLink : Type := mkParsedLink {
  pl_text : string;
  pl_url : string;
  pl_title : option string
}.

Definition dquote : ascii := ascii_of_nat 34.
Definition is_quote (c : ascii) : bool :=
  (Ascii.eqb c dquote || Ascii.eqb c "'"%char)%bool.

(** [/<Link\s+([^>]+)\s*\/?>/i] *)
Definition re_Link : regexp :=
  mkRe false
       (seqs [liti "<Link"; plus is_space; Grp (plus (none_of ">"));
              star is_space; opt (lit "/"); lit ">"]).

(** The patterns [text=], [url=] and [title=] followed by a quoted
    attribute value: a single or double quote, one or more characters
    that are not quotes (group 1), a quote; under the [i] flag. *)
Definition re_attr (attr : string) : regexp :=
  mkRe false
       (seqs [liti attr; lit "="; Chr is_quote;
              Grp (plus (fun c => negb (is_quote c))); Chr is_quote]).

Definition parseSitecoreLinkXML (xmlString : string) : option ParsedLink :=
  if negb (truthy xmlString) then None
  else
    match match_ re_Link xmlString with
    | None => None
    | Some linkMatch =>
        let attributes := group1 linkMatch in
        let text :=
          match match_ (re_attr "text") attributes with
          | Some textMatch => group1 textMatch
          | None => EmptyString
          end in
        let url :=
          match match_ (re_attr "url") attributes with
          | Some urlMatch => group1 urlMatch
          | None => EmptyString
          end in
        let title :=
          match match_ (re_attr "title") attributes with
          | Some titleMatch => Some (group1 titleMatch)
          | None => None
          end in
        if (negb (truthy text) && negb (truthy url))%bool then None
        else Some {| pl_text := text; pl_url := url; pl_title := title |}
    end.

(** [/^link\d*$/i.test(name) || name.toLowerCase().includes('link')] *)
Definition isLinkFieldByName (name : string) : bool :=
  (test (mkRe true (seqs [liti "link"; star is_digit; Eol])) name
   || includes (toLowerCase name) "link")%bool.

(** [/description|desc|text|content|body/i.test(name)] *)
Definition isDescriptionField (name : string) : bool :=
  test (mkRe false (alts [liti "description"; liti "desc"; liti "text";
                          liti "content"; liti "body"])) name.

(** [value] is a string that, trimmed, starts with [<Link]. *)
Definition link_xml_of (value : JsVal) : option string :=
  match value with
  | JStr v =>
      if (truthy v && startsWith (trim v) "<Link")%bool then Some v else None
  | _ => None
  end.

Section Convert.

(** [String(v)] and string interpolation of a value that is not a
    string, and [JSON.stringify(v)]. *)
Variable ToString : JsVal -> string.
Variable JSON_stringify : JsVal -> string.

Definition str (v : JsVal) : string :=
  match v with JStr s => s | _ => ToString v end.

(** [classifyField(name, fieldValue, fieldType)] for the value
    [fieldType] holds at run time.  A value that is not a string is
    none of the category names, and is looked up in the type table
    under its string form. *)
Definition classify (name fieldValue : string) (fieldType : JsVal)
  : Classified :=
  match fieldType with
  | JStr t => classifyField name fieldValue (Some t) None
  | _ =>
      if js_truthy fieldType then
        let typeCategory := mapFieldTypeToCategory (ToString fieldType) in
        if is_Other typeCategory
        then classifyField name fieldValue None None
        else typeCategory
      else classifyField name fieldValue None None
  end.

(** [imageSrc] *)
Definition imageSrc_of (actualValue : JsVal) : JsVal :=
  js_or (prop actualValue "src")
        (if (typeof_object actualValue && has_prop actualValue "src")%bool
         then prop actualValue "src" else JNull).

(** The guard of the image branch. *)
Definition image_branch (name : string) (actualValue : JsVal) : bool :=
  ((js_truthy (imageSrc_of actualValue)
    || includes (toLowerCase name) "image")
   && negb (isLinkFieldByName name)
   && js_truthy actualValue
   && typeof_object actualValue)%bool.

(** The guard of the link block. *)
Definition link_branch (name : string) (actualValue : JsVal)
           (parsedLinkFromValue : option ParsedLink) : bool :=
  (isLinkFieldByName name
   || negb (is_undefined (prop actualValue "href"))
   || negb (is_undefined (prop actualValue "url"))
   || match parsedLinkFromValue with Some _ => true | None => false end)%bool.

(** The tail of the function, from "Skip if empty after conversion".
    On every path that reaches it [fieldValue] is a string, so the
    conversion [String(fieldValue)] that precedes it in the source is never
    applied. *)
Definition finish (name fieldValue : string) (fieldType : JsVal)
  : Outcome (option RawFieldInfo) :=
  let isDescription := isDescriptionField name in
  let isEmpty :=
    (negb (truthy fieldValue) || Nat.eqb (length (trim fieldValue)) 0)%bool in
  let is_type t :=
    match fieldType with JStr s => String.eqb s t | _ => false end in
  if (isEmpty && negb isDescription
      && negb (is_type "Image") && negb (is_type "Link"))%bool
  then Returned None
  else
    let fieldValue :=
      if (isEmpty && isDescription)%bool then "[Empty]"%string
      else fieldValue in
    if (is_type "Link" && isEmpty)%bool then Returned None
    else
      Returned (Some {| raw_name := name;
                        raw_value := fieldValue;
                        raw_type := fieldType;
                        raw_category := classify name fieldValue fieldType |}).

(** The link block.  [None]: the block falls through to the image
    test. *)
Definition link_block (name : string) (actualValue : JsVal)
           (parsedLinkFromValue : option ParsedLink)
  : option (Outcome (option RawFieldInfo)) :=
  let '(linkText, linkUrl, linkTitle) :=
    match parsedLinkFromValue with
    | Some p =>
        (JStr (pl_text p), JStr (pl_url p),
         JStr (match pl_title p with Some t => t | None => EmptyString end))
    | None =>
        (js_or (prop actualValue "text")
               (js_or (prop actualValue "textValue")
                      (js_or (prop actualValue "linkText") (JStr ""))),
         js_or (prop actualValue "href")
               (js_or (prop actualValue "url")
                      (js_or (prop actualValue "linkUrl") (JStr ""))),
         js_or (prop actualValue "title") (JStr ""))
    end in
  let parts := [] in
  let parts := if js_truthy linkText then parts ++ [str linkText] else parts in
  let parts :=
    if js_truthy linkTitle
    then parts ++ [("(" ++ str linkTitle ++ ")")%string] else parts in
  (* [linkUrl && linkUrl.trim().length > 0] *)
  let url_part : Outcome (list string) :=
    if js_truthy linkUrl then
      match linkUrl with
      | JStr u =>
          Returned (if Nat.ltb 0 (length (trim u))
                    then parts ++ [("[" ++ u ++ "]")%string] else parts)
      | _ => Threw
      end
    else Returned parts in
  match url_part with
  | Threw => Some Threw
  | Returned parts =>
      if js_truthy (js_or linkText linkUrl) then
        let fieldValue :=
          if Nat.ltb 0 (List.length parts) then join " " parts
          else str (js_or linkText linkUrl) in
        Some (Returned
                (Some {| raw_name := name;
                         raw_value := fieldValue;
                         raw_type := JStr "Link";
                         raw_category :=
                           classifyField name fieldValue (Some "Link") None |}))
      else None
  end.

Definition convertDatasourceFieldToComponentField
           (datasourceField : DatasourceField)
  : Outcome (option RawFieldInfo) :=
  let name := ds_name datasourceField in
  let value := ds_value datasourceField in
  let jsonValue := ds_jsonValue datasourceField in
  if startsWith name "__" then Returned None
  else if (negb (js_truthy value) && negb (js_truthy jsonValue))%bool
  then Returned None
  else
    let parsedLinkFromValue :=
      match link_xml_of value with
      | Some v => parseSitecoreLinkXML v
      | None => None
      end in
    if (js_truthy jsonValue && typeof_object jsonValue)%bool then
      let actualValue := js_or (prop jsonValue "value") jsonValue in
      match
        (if link_branch name actualValue parsedLinkFromValue
         then link_block name actualValue parsedLinkFromValue else None)
      with
      | Some outcome => outcome
      | None =>
          if image_branch name actualValue then
            let parts := [] in
            let alt :=
              js_or (prop actualValue "alt")
                    (js_or (prop actualValue "altText") (JStr "")) in
            let src := js_or (imageSrc_of actualValue) (JStr "") in
            let parts :=
              if js_truthy alt
              then parts ++ [("Alt: " ++ str alt)%string] else parts in
            let parts :=
              if js_truthy src
              then parts ++ [("Src: " ++ str src)%string] else parts in
            if Nat.ltb 0 (List.length parts)
            then finish name (join " | " parts) (JStr "Image")
            else if includes (toLowerCase name) "image"
            then finish name "[Image field - no src]" (JStr "Image")
            else Returned None
          else
            match actualValue with
            | JStr s =>
                finish name s (js_or (prop jsonValue "type") (JStr "Rich Text"))
            | _ => finish name (JSON_stringify actualValue) (JStr "JSON")
            end
      end
    else if js_truthy value then
      match link_xml_of value, value with
      | Some v, _ =>
          match parseSitecoreLinkXML v with
          | Some parsedLink =>
              let parts := [] in
              let parts :=
                if truthy (pl_text parsedLink)
                then parts ++ [pl_text parsedLink] else parts in
              let parts :=
                match pl_title parsedLink with
                | Some t =>
                    if truthy t then parts ++ [("(" ++ t ++ ")")%string]
                    else parts
                | None => parts
                end in
              let parts :=
                if (truthy (pl_url parsedLink)
                    && Nat.ltb 0 (length (trim (pl_url parsedLink))))%bool
                then parts ++ [("[" ++ pl_url parsedLink ++ "]")%string]
                else parts in
              finish name
                     (if Nat.ltb 0 (List.length parts) then join " " parts
                      else or_else (pl_text parsedLink)
                                   (or_else (pl_url parsedLink) ""))
                     (JStr "Link")
          | None => finish name v (JStr "Single-Line Text")
          end
      | None, JStr v => finish name v (JStr "Single-Line Text")
      | None, _ => finish name (JSON_stringify value) (JStr "Single-Line Text")
      end
    else finish name "" (JStr "unknown").

End Convert.

End PagesContextParser.

(* ================================================================== *)
(** ** Vocabulary of the specification *)

Module Vocabulary.

Import SeoScanner SeoScorer PagesContextParser.

(** [reach c ancestors c']: [c'] is [c] or one of its descendants, and
    [ancestors] are the components from [c] down to the parent of [c'],
    outermost first. *)
Inductive reach : ComponentNode -> list ComponentNode -> ComponentNode -> Prop :=
| reach_self : forall c, reach c [] c
| reach_child : forall c child ancestors c',
    In child (node_children c) ->
    reach child ancestors c' ->
    reach c (c :: ancestors) c'.

(** [c] is a component of the page, below the chain [ancestors] that
    starts at a root component. *)
Definition owner_chain (pageContent : PageContent)
           (ancestors : list ComponentNode) (c : ComponentNode) : Prop :=
  exists root, In root (page_components pageContent) /\ reach root ancestors c.

(** The tests of content analysis, by the category they stand for. *)
Definition content_matches (category : SemanticCategory) (content : string)
  : bool :=
  existsb (fun pattern => test pattern content)
          (patterns_of category CONTENT_PATTERNS).

(** [table[key]] is [undefined]: [key] is neither a key of the table nor
    the name of a member the table inherits from [Object.prototype]. *)
Definition no_entry (table : list (string * SemanticCategory))
           (key : string) : Prop :=
  own table key = None /\ ~ In key Object_prototype_keys.

(** A Heading-category item whose plain text is not empty. *)
Definition heading_with_text (item : SemanticTextItem) : bool :=
  (category_is Heading item
   && truthy (trim (extractPlainText (item_text item))))%bool.

(** The candidates for the description, in order. *)
Definition descriptionFields (semanticItems : list SemanticTextItem)
  : list SemanticTextItem :=
  filter is_descriptionField semanticItems.

(** The diagnostic list in the state of the loop of [identifyIssues]. *)
Definition details_of (st : link_state) : list BrokenLinkInfo := snd st.

End Vocabulary.

(* ================================================================== *)
(** ** Sample inputs *)

Module Samples.

Import SeoScanner SeoScorer PagesContextParser.

Definition sample_item (category : SemanticCategory) (fieldName text : string)
  : SemanticTextItem :=
  {| item_id := "hero-1-" ++ fieldName;
     item_text := text;
     item_category := category;
     item_metadata :=
       {| meta_componentName := "Hero";
          meta_componentId := "hero-1";
          meta_datasourceItemId := None;
          meta_fieldName := fieldName;
          meta_renderingPlaceholder := Some "main";
          meta_params := None |};
     item_path := ["Home"; "Hero"] |}.

Definition sample_field (name value : string) (category : SemanticCategory)
  : FieldInfo :=
  {| field_name := name; field_value := value;
     field_type := "Rich Text"; field_category := category |}.

Definition sample_metadata : ComponentMetadata :=
  {| meta_componentName := "Hero";
     meta_componentId := "hero-1";
     meta_datasourceItemId := None;
     meta_fieldName := "Body";
     meta_renderingPlaceholder := None;
     meta_params := None |}.

Definition sample_node (id name : string) (fields : list FieldInfo)
           (children : list ComponentNode) : ComponentNode :=
  {| node_id := id; node_name := name; node_componentName := name;
     node_type := "Component"; node_datasourceId := None;
     node_placeholder := None; node_params := None;
     node_fields := fields; node_children := children;
     node_path := [] |}.

Definition sample_page : PageContent :=
  {| page_itemId := "page-123";
     page_name := "Home";
     page_language := "en";
     page_path := "/";
     page_route := None;
     page_components :=
       [ sample_node "container-1" "Container" []
           [ sample_node "text-1" "Text"
               [ sample_field "Content" "Nested text" Paragraph ] [] ] ] |}.

(** The one item of [sample_page]. *)
Definition sample_item_of_page : SemanticTextItem :=
  {| item_id := "text-1-Content";
     item_text := "Nested text";
     item_category := Paragraph;
     item_metadata :=
       {| meta_componentName := "Text";
          meta_componentId := "text-1";
          meta_datasourceItemId := None;
          meta_fieldName := "Content";
          meta_renderingPlaceholder := None;
          meta_params := None |};
     item_path := ["Home"; "Container"; "Text"] |}.

(** Three Link items: one with a bracketed URL, one without, one whose
    brackets hold spaces only. *)
Definition sample_links : list SemanticTextItem :=
  [ sample_item Link "Cta" "Read more [/about]";
    sample_item Link "Link1" "Contact us";
    sample_item Link "Link2" "Home [   ]" ].

(** A URL parser that accepts everything; the samples do not depend on
    it. *)
Definition any_url : string -> bool := fun _ => true.

(** The long description of the samples: 170 characters. *)
Definition long_text : string :=
  "aaaaaaaaaaaaaaaaaaaaaaaaaaaaaaaaaaaaaaaaaaaaaaaaaaaaaaaaaaaaaaaaaaaaaaaaaaaaaaaaaaaaa" ++
  "bbbbbbbbbbbbbbbbbbbbbbbbbbbbbbbbbbbbbbbbbbbbbbbbbbbbbbbbbbbbbbbbbbbbbbbbbbbbbbbbbbbbb".

(** Stand-ins for the coercions of the platform; the samples below never
    reach them. *)
Definition sample_ToString : JsVal -> string := fun _ => "[object Object]".
Definition sample_stringify : JsVal -> string := fun _ => "{}".

(** A field named like a link whose [jsonValue] wraps a string, declares
    the type "Image" and exposes a [src]. *)
Definition link_named_image : DatasourceField :=
  {| ds_name := "Link1";
     ds_value := JStr "";
     ds_jsonValue :=
       JObj [ ("value", JStr "Banner"); ("type", JStr "Image");
              ("src", JStr "/media/banner.png") ] |}.

(** A field named like a link whose [jsonValue] is an image object. *)
Definition link_named_src : DatasourceField :=
  {| ds_name := "Link2";
     ds_value := JStr "";
     ds_jsonValue :=
       JObj [ ("value", JObj [ ("src", JStr "/media/banner.png");
                               ("alt", JStr "Banner") ]) ] |}.

End Samples.

(* ================================================================== *)
(** ** [src/utils/semanticClassifier.ts]: search and grouping *)

Module SemanticSearch.

Local Open Scope list_scope.

(** The category as the string the code compares and prints. *)
Definition category_name (c : SemanticCategory) : string :=
  match c with
  | Heading => "Heading" | Paragraph => "Paragraph" | RichText => "RichText"
  | Label => "Label" | Link => "Link" | Button => "Button"
  | Image => "Image" | List => "List" | Other => "Other"
  end.

(** The predicate of the [filter] of [filterBySearch]. *)
Definition matches_query (lowerQuery : string) (item : SemanticTextItem)
  : bool :=
  if includes (toLowerCase (item_text item)) lowerQuery then true
  else if includes (toLowerCase (meta_componentName (item_metadata item)))
                   lowerQuery then true
  else if includes (toLowerCase (meta_fieldName (item_metadata item)))
                   lowerQuery then true
  else if includes (toLowerCase (category_name (item_category item)))
                   lowerQuery then true
  else false.

Definition filterBySearch (items : list SemanticTextItem) (query : string)
  : list SemanticTextItem :=
  if (negb (truthy query) || Nat.eqb (length (trim query)) 0)%bool then items
  else
    let lowerQuery := toLowerCase query in
    filter (matches_query lowerQuery) items.

(** The object [grouped]: its nine keys in the order of the literal, each
    with its array. *)
Definition Grouped : Type := list (SemanticCategory * list SemanticTextItem).

(** [grouped[category].push(item)] *)
Fixpoint push (category : SemanticCategory) (item : SemanticTextItem)
         (grouped : Grouped) : Grouped :=
  match grouped with
  | [] => []
  | (key, array) :: rest =>
      if SemanticCategory_eqb key category
      then (key, array ++ [item]) :: rest
      else (key, array) :: push category item rest
  end.

Definition groupByCategory (items : list SemanticTextItem) : Grouped :=
  let grouped :=
    [ (Heading, []); (Paragraph, []); (RichText, []); (Label, []);
      (Link, []); (Button, []); (Image, []); (List, []); (Other, []) ] in
  fold_left (fun grouped item => push (item_category item) item grouped)
            items grouped.

(** [grouped[category]]; [None] is [undefined]. *)
Fixpoint group (grouped : Grouped) (category : SemanticCategory)
  : option (list SemanticTextItem) :=
  match grouped with
  | [] => None
  | (key, array) :: rest =>
      if SemanticCategory_eqb key category then Some array
      else group rest category
  end.

End SemanticSearch.

(* ================================================================== *)
(** ** [src/utils/contentParser.ts]: the component tree *)

Module ComponentTree.

Local Open Scope list_scope.

(** The inner function of [flattenComponentTree]; the array [flat] it
    pushes to is threaded through. *)
Fixpoint traverse (component : ComponentNode) (flat : list ComponentNode)
  : list ComponentNode :=
  fold_left (fun flat child => traverse child flat)
            (node_children component) (flat ++ [component]).

Definition flattenComponentTree (components : list ComponentNode)
  : list ComponentNode :=
  fold_left (fun flat component => traverse component flat) components [].

(** The loop of [findComponentById]: the first result that is not
    [null]. *)
Fixpoint first_found (A B : Type) (f : A -> option B) (l : list A)
  : option B :=
  match l with
  | [] => None
  | x :: rest =>
      match f x with
      | Some found => Some found
      | None => first_found f rest
      end
  end.

(** One iteration of that loop, on [component]. *)
Fixpoint findComponent (id : string) (component : ComponentNode)
  : option ComponentNode :=
  if String.eqb (node_id component) id then Some component
  else first_found (findComponent id) (node_children component).

Definition findComponentById (components : list ComponentNode) (id : string)
  : option ComponentNode :=
  first_found (findComponent id) components.

Definition getComponentBreadcrumb (component : ComponentNode) : string :=
  join " > " (node_path component).

Definition systemFields : list string :=
  [ "__typename"; "id"; "name"; "displayName"; "template"; "path"; "url";
    "children"; "parent"; "created"; "updated"; "revision"; "version" ].

(** [array.includes(s)] on strings *)
Definition array_includes (array : list string) (s : string) : bool :=
  existsb (String.eqb s) array.

Definition isSystemField (fieldName : string) : bool :=
  array_includes systemFields (toLowerCase fieldName).

End ComponentTree.

(* ================================================================== *)
(** ** [src/utils/seoScorer.ts]: grade and colour *)

Module ScoreDisplay.

Local Open Scope Q_scope.

Definition getSEOGrade (score : number) : string :=
  if geb score 90 then "A+"
  else if geb score 80 then "A"
  else if geb score 70 then "B"
  else if geb score 60 then "C"
  else if geb score 50 then "D"
  else "F".

Definition getScoreColor (score : number) : string :=
  if geb score 80 then "#8629FF"
  else if geb score 60 then "#6b7280"
  else "#FF1F38".

End ScoreDisplay.

(* ================================================================== *)
(** ** [src/utils/pagesContextParser.ts]: names from datasource paths *)

Module DatasourceName.

Local Open Scope list_scope.

(** [s.split(sep)] for a separator of one character; [cur] is the segment
    being read, reversed. *)
Fixpoint split_char_aux (sep : ascii) (cur : list ascii) (s : string)
  : list string :=
  match s with
  | EmptyString => [rev_string cur]
  | String c s' =>
      if Ascii.eqb c sep then rev_string cur :: split_char_aux sep [] s'
      else split_char_aux sep (c :: cur) s'
  end.

Definition split_char (sep : ascii) (s : string) : list string :=
  split_char_aux sep [] s.

(** [s.replace(r, rep)] for a pattern with a leading [^] and no [g]
    flag. *)
Definition replace_at_start (r : re) (rep : string) (s : string) : string :=
  match exec_here r s with
  | Some (n, _) => rep ++ String.substring n (length s - n) s
  | None => s
  end.

Definition extractComponentNameFromDatasource (datasourcePath : string)
  : string :=
  if negb (truthy datasourcePath) then EmptyString
  else
    let cleanPath := replace_at_start (lit "local:") "" datasourcePath in
    let segments := split_char "/"%char cleanPath in
    or_else (last segments EmptyString) "".

End DatasourceName.

(* ================================================================== *)
(** ** Vocabulary of the further properties *)

Module Helpers.

Import SeoScanner SeoScorer.

Local Open Scope list_scope.

(** [strip w s]: what follows [w] in [s], when [s] starts with [w]. *)
Fixpoint strip (w s : string) : option string :=
  match w, s with
  | EmptyString, _ => Some s
  | String a w', String c s' => if Ascii.eqb a c then strip w' s' else None
  | String _ _, EmptyString => None
  end.

(** No character of [s] is [c]. *)
Definition lacks (c : ascii) (s : string) : bool :=
  forallb (fun x => negb (Ascii.eqb x c)) (list_ascii_of_string s).

(** The text [extractHeadings] reads off an item. *)
Definition heading_text (item : SemanticTextItem) : string :=
  trim (extractPlainText (item_text item)).

(** The items [extractHeadings] does not skip. *)
Definition headings_read (semanticItems : list SemanticTextItem)
  : list SemanticTextItem :=
  filter (fun item => truthy (heading_text item))
         (filter (category_is Heading) semanticItems).

(** The name of the item hints at h1, or hints at no level at all. *)
Definition h1_candidate (item : SemanticTextItem) : bool :=
  (includes (fieldName_lower item) "h1"
   || String.eqb (fieldName_lower item) "title"
   || String.eqb (fieldName_lower item) "heading"
   || (negb (includes (fieldName_lower item) "h2")
       && negb (includes (fieldName_lower item) "h3")))%bool.

(** The number of texts filed under a level. *)
Definition filed (headings : PageHeadings) : nat :=
  (if opt_truthy (h_h1 headings) then 1 else 0)
  + List.length (or_nil (h_h2 headings))
  + List.length (or_nil (h_h3 headings)).

(** The strings of [l], each at its first occurrence only. *)
Fixpoint first_occurrences (seen l : list string) : list string :=
  match l with
  | [] => []
  | x :: rest =>
      if existsb (String.eqb x) seen then first_occurrences seen rest
      else x :: first_occurrences (seen ++ [x]) rest
  end.

(** [collapse in_run s]: every run of white space of [s] replaced by one
    space; [in_run] tells that the run [s] starts in has its space
    already. *)
Fixpoint collapse (in_run : bool) (s : string) : string :=
  match s with
  | EmptyString => EmptyString
  | String c s' =>
      if is_space c then
        if in_run then collapse true s' else String " " (collapse true s')
      else String c (collapse false s')
  end.

(** [tidy_from after_space s]: the only white space of [s] is single
    spaces, none of them last ([after_space]: a space stands before
    [s]). *)
Fixpoint tidy_from (after_space : bool) (s : string) : bool :=
  match s with
  | EmptyString => true
  | String c s' =>
      if is_space c
      then (Ascii.eqb c " " && negb after_space && tidy_from true s')%bool
      else tidy_from false s'
  end.

(** The item belongs to the component [componentId]. *)
Definition of_component (componentId : string) (item : SemanticTextItem)
  : bool :=
  String.eqb (meta_componentId (item_metadata item)) componentId.

(** The bucket is the one of [componentId]. *)
Definition keyed (componentId : string) (c : ComponentContent) : bool :=
  String.eqb (cc_componentId c) componentId.

(** What a link says, apart from the verdicts on it. *)
Definition link_target (link : PageLink)
  : option string * option string * option string :=
  (link_text link, link_href link, link_fieldName link).

End Helpers.

(* ================================================================== *)
(** ** Further sample data *)

Module PageSamples.

Import SeoScanner SeoScorer.

Local Open Scope list_scope.

(** An item of the component [componentId]. *)
Definition item_in (componentId : string) (category : SemanticCategory)
           (fieldName text : string) : SemanticTextItem :=
  {| item_id := componentId ++ "-" ++ fieldName;
     item_text := text;
     item_category := category;
     item_metadata :=
       {| meta_componentName := "Block";
          meta_componentId := componentId;
          meta_datasourceItemId := None;
          meta_fieldName := fieldName;
          meta_renderingPlaceholder := Some "main";
          meta_params := None |};
     item_path := ["Home"; "Block"] |}.

(** Items of two components, in turn. *)
Definition mixed_items : list SemanticTextItem :=
  [ item_in "hero-1" Heading "Title" "<h1>Welcome</h1>";
    item_in "promo-2" Image "Image" "Alt: Logo | Src: /logo.png";
    item_in "hero-1" Link "Cta" "Read more [/about]";
    item_in "promo-2" Link "Link2" "Home [#]" ].

(** Page data on which no issue is raised: 300 words, one heading, a
    title and a description, no image and no link. *)
Definition clean_page (title : string) : PageData :=
  {| pd_metadata :=
       {| md_title := Some title;
          md_description := Some "All about the product";
          md_keywords := None;
          md_canonical := None;
          md_robots := None |};
     pd_headings :=
       {| h_h1 := Some "Welcome"; h_h2 := Some []; h_h3 := Some [];
          h_all := ["Welcome"] |};
     pd_text := "Welcome";
     pd_images := [];
     pd_links := [];
     pd_wordCount := Some (of_nat 300);
     pd_components := None;
     pd_metrics := None |}.

(** Page data with one image, which has no alt text. *)
Definition unlabelled_page : PageData :=
  scanPageContent Samples.any_url Samples.sample_page
    [ item_in "promo-2" Image "Image" "Src: /logo.png" ].

(** A page without components. *)
Definition blank_page (name : string) : PageContent :=
  {| page_itemId := "page-0";
     page_name := name;
     page_language := "en";
     page_path := "/";
     page_route := None;
     page_components := [] |}.

End PageSamples.

(* ================================================================== *)
(** ** Inputs on which binary64 and exact arithmetic differ *)

Module NumberSamples.

Import SeoScanner SeoScorer.

Local Open Scope list_scope.

(** A text of [n] letters. *)
Definition letters (n : nat) : string :=
  string_of_list_ascii (repeat "a"%char n).

(** A title of 63 characters and a description of 257. *)
Definition long_metadata : PageMetadata :=
  {| md_title := Some (letters 63);
     md_description := Some (letters 257);
     md_keywords := None;
     md_canonical := None;
     md_robots := None |}.

Definition image (alt : option string) : PageImage :=
  {| img_id := "img-0";
     img_alt := alt;
     img_src := "/photo.png";
     img_componentId := None;
     img_componentName := None;
     img_fieldName := None;
     img_path := None |}.

(** [n] images, [k] of them with an alt text. *)
Definition images_with_alt (k n : nat) : list PageImage :=
  repeat (image (Some "A photo")) k ++ repeat (image None) (n - k).

Definition link (href : option string) : PageLink :=
  {| link_text := Some "Read more";
     link_href := href;
     link_isPlaceholder := None;
     link_isBroken := None;
     link_componentId := None;
     link_componentName := None;
     link_fieldName := None;
     link_path := None |}.

(** [n] links, [k] of them valid. *)
Definition links_valid (k n : nat) : list PageLink :=
  repeat (link (Some "/about")) k ++ repeat (link None) (n - k).

(** Forty words of 41 syllables. *)
Definition forty_words : list string := repeat "a" 39 ++ ["hello"].

End NumberSamples.

(* ================================================================== *)
(** * Properties *)

Import SeoScanner SeoScorer PagesContextParser.

Unset Implicit Arguments.

(** ** Strings *)

Section StringFacts.

Local Open Scope list_scope.

Lemma trimStart_head (s : string) :
  trimStart s = EmptyString \/
  exists c t, trimStart s = String c t /\ is_space c = false.
Proof.
  induction s as [|c s IH]; simpl.
  - now left.
  - destruct (is_space c) eqn:E.
    + exact IH.
    + right. now exists c, s.
Qed.

Lemma trimEnd_idem (s : string) : trimEnd (trimEnd s) = trimEnd s.
Proof.
  induction s as [|c s IH]; simpl; trivial.
  destruct (is_space c) eqn:E; simpl.
  - destruct (trimEnd s) eqn:T; simpl; trivial.
    rewrite E. simpl. simpl in IH. rewrite IH. reflexivity.
  - rewrite E. simpl. now rewrite IH.
Qed.

Lemma trimEnd_cons (c : ascii) (s : string) :
  is_space c = false -> trimEnd (String c s) = String c (trimEnd s).
Proof. intros E. simpl. now rewrite E. Qed.

Lemma trimStart_cons (c : ascii) (s : string) :
  is_space c = false -> trimStart (String c s) = String c s.
Proof. intros E. simpl. now rewrite E. Qed.

Lemma trim_idem (s : string) : trim (trim s) = trim s.
Proof.
  unfold trim.
  destruct (trimStart_head s) as [E | (c & t & E & Hc)]; rewrite E.
  - reflexivity.
  - rewrite trimEnd_cons, trimStart_cons, trimEnd_cons by exact Hc.
    now rewrite trimEnd_idem.
Qed.

Lemma is_empty_true (s : string) : is_empty s = true <-> s = EmptyString.
Proof. destruct s; simpl; split; congruence. Qed.

Lemma truthy_true (s : string) : truthy s = true <-> s <> EmptyString.
Proof.
  destruct s; simpl; split; intro H;
    try discriminate; try reflexivity; now elim H.
Qed.

Lemma length_zero (s : string) : Nat.eqb (length s) 0 = true <-> s = EmptyString.
Proof. destruct s; simpl; split; congruence. Qed.

Lemma substring0_length (n : nat) (s : string) : length (substring0 n s) <= n.
Proof.
  unfold substring0. revert s.
  induction n as [|n IH]; intros [|c s]; simpl; auto with arith.
Qed.

(** A trimmed string that is empty consists of spaces only. *)
Lemma trimStart_empty (s : string) :
  trimStart s = EmptyString ->
  Forall (fun c => is_space c = true) (list_ascii_of_string s).
Proof.
  induction s as [|c s IH]; simpl; intros H.
  - constructor.
  - destruct (is_space c) eqn:E; [|discriminate].
    constructor; auto.
Qed.

Lemma trim_empty (s : string) :
  trim s = EmptyString ->
  Forall (fun c => is_space c = true) (list_ascii_of_string s).
Proof.
  unfold trim. intros H. apply trimStart_empty.
  destruct (trimStart_head s) as [E | (c & t & E & Hc)]; trivial.
  rewrite E, trimEnd_cons in H by exact Hc. discriminate.
Qed.

End StringFacts.

(** ** The repository's unit tests and the specification's examples,
       replayed on the embedding *)

Section UnitTests.

Local Open Scope list_scope.

Example test_classifyFieldName :
  map classifyFieldName
      ["Title"; "Heading"; "PageTitle"; "H1"; "Text"; "Content";
       "Description"; "Body"; "HTML";
       "Label"; "Name"; "Caption"; "Tag"; "Link"; "URL"; "CTA";
       "Button"; "CtaButton"; "Image"; "Picture"; "Thumbnail";
       "List"; "Items"; "Menu"; "UnknownField"; "CustomData"]
  = [Heading; Heading; Heading; Heading; Paragraph; Paragraph;
     Paragraph; Paragraph; RichText;
     Label; Label; Label; Label; Link; Link; Link;
     Button; Button; Image; Image; Image;
     List; List; List; Other; Other].
Proof. reflexivity. Qed.

(** The names "RichText" and "FormattedText" end in "text": the Paragraph
    group, which comes first in the table, takes them (the unit test of
    the repository expects RichText for both). *)
Example test_classifyFieldName_text_suffix :
  map classifyFieldName ["RichText"; "FormattedText"] = [Paragraph; Paragraph].
Proof. reflexivity. Qed.

Example test_classifyContent :
  map classifyContent
      ["<h1>Heading</h1>"; "<h2>Subheading</h2>";
       "<p>Some <strong>formatted</strong> text</p>";
       "Text with &nbsp; entities";
       "https://example.com"; "http://test.com"; "/relative/path";
       "image.jpg"; "photo.png"; "graphic.svg";
       "Just plain text"; "Simple content"; ""; "   "]
  = [Some Heading; Some Heading; Some RichText; Some RichText;
     Some Link; Some Link; Some Link;
     Some Image; Some Image; Some Image;
     None; None; None; None].
Proof. reflexivity. Qed.

Example test_classifyField :
  classifyField "CustomField" "Some text" (Some "Rich Text") None = Cat RichText
  /\ classifyField "Title" "Some heading text" None None = Cat Heading
  /\ classifyField "SomeField" "<p>HTML content</p>" None None = Cat RichText
  /\ classifyField "UnknownField" "Short text" None None = Cat Label
  /\ classifyField "UnknownField" (Samples.long_text ++ Samples.long_text)
                   None None
     = Cat Paragraph.
Proof. repeat split. Qed.

Example test_isSubstantialContent :
  map isSubstantialContent
      ["Some text"; "<p>HTML</p>"; ""; "   "; "<p></p>"; "<p>A</p>"]
  = [true; true; false; false; false; true].
Proof. reflexivity. Qed.

Example test_extractPlainText :
  map extractPlainText
      ["<p>Hello</p>"; "<div><span>Text</span></div>";
       "<script>alert('hi')</script>Text"; "<style>.class{}</style>Content";
       "Hello&nbsp;World"; "&lt;tag&gt;"; "&amp;";
       "Multiple   spaces"; "  Trimmed  "; ""]
  = ["Hello"; "Text"; "Text"; "Content"; "Hello World"; "<tag>"; "&";
     "Multiple spaces"; "Trimmed"; ""].
Proof. reflexivity. Qed.

Example test_createSemanticTextItem :
  item_text (createSemanticTextItem
               (Samples.sample_field
                  "RichText" "<p>Formatted <strong>content</strong></p>"
                  RichText)
               Samples.sample_metadata [])
  = "Formatted content".
Proof. reflexivity. Qed.

Example test_extractSemanticItems :
  extractSemanticItems Samples.sample_page = [Samples.sample_item_of_page].
Proof. reflexivity. Qed.

(** The lazy repetition of the script pattern stops at the first closing
    tag, and the greedy [\s*] of the alt pattern gives a space back to the
    group that needs one character. *)
Example test_matcher_priorities :
  extractPlainText "<script>a</script>keep<script>b</script>" = "keep"
  /\ option_map group1 (match_ re_alt "Alt:  | Src: photo.jpg") = Some " "
  /\ option_map group1 (match_ re_url "see [a] and [b]") = Some "b"
  /\ match_ re_url "[a] trailing" = None
  /\ option_map group1 (match_ re_linktext "Read more (title) [/x]")
     = Some "Read more ".
Proof. repeat split. Qed.

(** Words of at most three letters count one syllable; a final "e" is
    dropped before the vowel groups are counted, and a final "le" adds
    one. *)
Example test_countSyllables :
  map countSyllables ["the"; "table"; "readable"; "simple"; "rhythm"; "Hello"]
  = [1; 2; 3; 2; 1; 2].
Proof. reflexivity. Qed.

(** A title of 7 characters and an empty description score 10. *)
Example spec_scoreMetadata_title_only :
  scoreMetadata {| md_title := Some "Welcome"; md_description := Some "";
                   md_keywords := None; md_canonical := None;
                   md_robots := None |}
  = 10%Q.
Proof. reflexivity. Qed.

(** The text of an image item with no alt parses to an empty alt, and one
    such image scores 0 for accessibility. *)
Example spec_image_without_alt :
  map (fun img => (img_alt img, img_src img))
      (extractImages [Samples.sample_item Image "Image" "Alt:  | Src: photo.jpg"])
  = [(Some "", "photo.jpg")]
  /\ scoreAccessibility
       (extractImages [Samples.sample_item Image "Image" "Alt:  | Src: photo.jpg"])
     = 0%Q.
Proof. split; reflexivity. Qed.

(** The two placeholder hrefs are flagged and reported. *)
Example spec_placeholder_links :
  map link_isPlaceholder
      (extractLinks Samples.any_url
         [Samples.sample_item Link "Link1" "Home [#]";
          Samples.sample_item Link "Link2" "Home [http://#]"])
  = [Some true; Some true]
  /\ placeholderLinks
       (fst (identifyIssues
               (scanPageContent Samples.any_url Samples.sample_page
                  [Samples.sample_item Link "Link1" "Home [#]";
                   Samples.sample_item Link "Link2" "Home [http://#]"])))
     = Some ["#"; "http://#"].
Proof. split; reflexivity. Qed.

End UnitTests.

(** ** The extractor *)

Section Extractor.

Local Open Scope list_scope.

Lemma ComponentNode_children_ind (P : ComponentNode -> Prop) :
  (forall c, Forall P (node_children c) -> P c) -> forall c, P c.
Proof.
  intros H. fix IH 1. intros c. apply H.
  destruct c as [i n cn t d p pa fs children pth]. simpl.
  induction children as [|child rest IHrest]; constructor.
  - apply IH.
  - exact IHrest.
Qed.

Lemma fold_left_push (A B : Type) (g : A -> B) (l : list A) (acc : list B) :
  fold_left (fun items x => items ++ [g x]) l acc = acc ++ map g l.
Proof.
  revert acc. induction l as [|x l IH]; intros acc; simpl.
  - now rewrite app_nil_r.
  - rewrite IH, <- app_assoc. reflexivity.
Qed.

Lemma fold_left_append (A B : Type) (f : A -> list B -> list B)
      (l : list A) (acc : list B) :
  Forall (fun x => forall items, f x items = items ++ f x []) l ->
  fold_left (fun items x => f x items) l acc
  = acc ++ flat_map (fun x => f x []) l.
Proof.
  intros H. revert acc. induction H as [|x l Hx _ IH]; intros acc; simpl.
  - now rewrite app_nil_r.
  - rewrite IH, Hx, <- app_assoc. reflexivity.
Qed.

Lemma processComponent_eq (c : ComponentNode) (path : list string)
      (items : list SemanticTextItem) :
  processComponent c path items
  = fold_left
      (fun items child => processComponent child (path ++ [node_name c]) items)
      (node_children c)
      (fold_left
         (fun items field =>
            items ++ [createSemanticTextItem field (metadata_of c field)
                                             (path ++ [node_name c])])
         (node_fields c) items).
Proof. destruct c; reflexivity. Qed.

Lemma processComponent_acc (c : ComponentNode) :
  forall path items,
    processComponent c path items = items ++ processComponent c path [].
Proof.
  induction c as [c IH] using ComponentNode_children_ind.
  intros path items.
  rewrite (processComponent_eq c path items), (processComponent_eq c path []).
  rewrite !fold_left_push.
  rewrite (@fold_left_append _ _
             (fun child items =>
                processComponent child (path ++ [node_name c]) items)).
  - rewrite (@fold_left_append _ _
               (fun child items =>
                  processComponent child (path ++ [node_name c]) items)
               _ ([] ++ _)).
    + simpl. now rewrite app_assoc.
    + eapply Forall_impl; [|exact IH]. intros child Hc its. apply Hc.
  - eapply Forall_impl; [|exact IH]. intros child Hc its. apply Hc.
Qed.

Lemma processComponent_items (c : ComponentNode) (path : list string) :
  processComponent c path []
  = map (fun field =>
           createSemanticTextItem field (metadata_of c field)
                                  (path ++ [node_name c]))
        (node_fields c)
    ++ flat_map
         (fun child => processComponent child (path ++ [node_name c]) [])
         (node_children c).
Proof.
  rewrite processComponent_eq, fold_left_push.
  rewrite (@fold_left_append _ _
             (fun child items =>
                processComponent child (path ++ [node_name c]) items)).
  - reflexivity.
  - apply Forall_forall. intros child _ its. apply processComponent_acc.
Qed.

Lemma extractSemanticItems_items (pageContent : PageContent) :
  extractSemanticItems pageContent
  = flat_map
      (fun c => processComponent c [page_name pageContent] [])
      (page_components pageContent).
Proof.
  unfold extractSemanticItems.
  rewrite (@fold_left_append _ _
             (fun c items => processComponent c [page_name pageContent] items)).
  - reflexivity.
  - apply Forall_forall. intros c _ its. apply processComponent_acc.
Qed.

Lemma processComponent_owner (c : ComponentNode) :
  forall path item,
    In item (processComponent c path []) ->
    exists ancestors c' field,
      Vocabulary.reach c ancestors c' /\ In field (node_fields c') /\
      item = createSemanticTextItem
               field (metadata_of c' field)
               (path ++ map node_name ancestors ++ [node_name c']).
Proof.
  induction c as [c IH] using ComponentNode_children_ind.
  intros path item Hin.
  rewrite processComponent_items in Hin.
  apply in_app_or in Hin. destruct Hin as [Hin | Hin].
  - apply in_map_iff in Hin. destruct Hin as (field & <- & Hf).
    exists [], c, field. repeat split; trivial. constructor.
  - apply in_flat_map in Hin. destruct Hin as (child & Hchild & Hin).
    rewrite Forall_forall in IH.
    destruct (IH child Hchild _ _ Hin) as (anc & c' & field & Hr & Hf & ->).
    exists (c :: anc), c', field. repeat split; trivial.
    + econstructor; eassumption.
    + simpl. now rewrite <- app_assoc.
Qed.

(** Conversely, every field of every component of the page yields its
    item. *)
Lemma processComponent_complete (c : ComponentNode)
      (ancestors : list ComponentNode) (c' : ComponentNode) :
  Vocabulary.reach c ancestors c' ->
  forall path field,
    In field (node_fields c') ->
    In (createSemanticTextItem
          field (metadata_of c' field)
          (path ++ map node_name ancestors ++ [node_name c']))
       (processComponent c path []).
Proof.
  induction 1 as [c | c child ancestors c' Hchild _ IH]; intros path field Hf;
    rewrite processComponent_items; apply in_or_app.
  - left. apply in_map_iff. now exists field.
  - right. apply in_flat_map. exists child. split; trivial.
    specialize (IH (path ++ [node_name c]) field Hf).
    simpl. now rewrite <- app_assoc in IH.
Qed.

Lemma extractSemanticItems_complete (pageContent : PageContent)
      (ancestors : list ComponentNode) (c : ComponentNode) (field : FieldInfo) :
  Vocabulary.owner_chain pageContent ancestors c ->
  In field (node_fields c) ->
  In (createSemanticTextItem
        field (metadata_of c field)
        (page_name pageContent :: map node_name ancestors ++ [node_name c]))
     (extractSemanticItems pageContent).
Proof.
  intros (root & Hroot & Hreach) Hf.
  rewrite extractSemanticItems_items. apply in_flat_map.
  exists root. split; trivial.
  exact (processComponent_complete root ancestors c Hreach
           [page_name pageContent] field Hf).
Qed.

(** C9. Every item produced by [extractSemanticItems] comes from a field
    of a component of the page, and its breadcrumb path is the page name,
    then the names of that component's ancestors from the root component
    down, then the component's own name. *)
Theorem extractSemanticItems_breadcrumb :
  forall (pageContent : PageContent) (item : SemanticTextItem),
    In item (extractSemanticItems pageContent) ->
    exists ancestors c field,
      Vocabulary.owner_chain pageContent ancestors c /\
      In field (node_fields c) /\
      item = createSemanticTextItem field (metadata_of c field) (item_path item) /\
      item_path item
      = page_name pageContent :: map node_name ancestors ++ [node_name c].
Proof.
  intros pageContent item Hin.
  rewrite extractSemanticItems_items in Hin.
  apply in_flat_map in Hin. destruct Hin as (root & Hroot & Hin).
  destruct (processComponent_owner _ _ _ Hin) as (anc & c & field & Hr & Hf & ->).
  exists anc, c, field. repeat split; trivial.
  exists root. now split.
Qed.

End Extractor.

Lemma extractSemanticItems_breadcrumb_witness :
  exists ancestors c field,
    Vocabulary.owner_chain Samples.sample_page ancestors c
    /\ In field (node_fields c)
    /\ Samples.sample_item_of_page
       = createSemanticTextItem field (metadata_of c field)
                                (item_path Samples.sample_item_of_page)
    /\ item_path Samples.sample_item_of_page
       = page_name Samples.sample_page
         :: map node_name ancestors ++ [node_name c].
Proof.
  apply (extractSemanticItems_breadcrumb Samples.sample_page).
  left. reflexivity.
Defined.

(** ** Semantic items *)

Section Items.

Local Open Scope list_scope.

(** C3, as the code has it.  The text of the item is the HTML-stripped
    plain text of the field's value when that text is not empty; when it is
    empty, the text is the field's value itself, unstripped. *)
Theorem createSemanticTextItem_text :
  forall (field : FieldInfo) (metadata : ComponentMetadata) (path : list string),
    item_text (createSemanticTextItem field metadata path)
    = if is_empty (extractPlainText (field_value field))
      then field_value field
      else extractPlainText (field_value field).
Proof.
  intros field metadata path. unfold createSemanticTextItem, or_else, truthy.
  simpl. now destruct (is_empty (extractPlainText (field_value field))).
Qed.

(** C3, as the specification states it, fails on a value whose stripped
    text is empty: a lone line break keeps its markup. *)
Lemma createSemanticTextItem_text_not_stripped :
  extractPlainText (field_value (Samples.sample_field "Body" "<br>" RichText))
  = EmptyString
  /\ item_text (createSemanticTextItem
                  (Samples.sample_field "Body" "<br>" RichText)
                  Samples.sample_metadata ["Home"; "Hero"])
     <> extractPlainText
          (field_value (Samples.sample_field "Body" "<br>" RichText)).
Proof. split; [reflexivity | vm_compute; discriminate]. Qed.

End Items.

(** ** The scanner *)

Section ScannerFacts.

Local Open Scope list_scope.

Variable url_parses : string -> bool.

Lemma find_filter_none (items : list SemanticTextItem) :
  (forall item, In item items ->
                is_descriptionField item = true -> is_meta item = false) ->
  find is_meta (Vocabulary.descriptionFields items) = None.
Proof.
  intros H. unfold Vocabulary.descriptionFields.
  destruct (find is_meta (filter is_descriptionField items)) eqn:E; trivial.
  apply find_some in E. destruct E as [Hin Hm].
  apply filter_In in Hin. destruct Hin as [Hin Hd].
  rewrite (H _ Hin Hd) in Hm. discriminate.
Qed.

Lemma find_filter_some (items : list SemanticTextItem) :
  (exists item, In item items /\ is_descriptionField item = true
                /\ is_meta item = true) ->
  exists item, find is_meta (Vocabulary.descriptionFields items) = Some item.
Proof.
  intros (item & Hin & Hd & Hm). unfold Vocabulary.descriptionFields.
  destruct (find is_meta (filter is_descriptionField items)) eqn:E.
  - now exists s.
  - assert (Hf : In item (filter is_descriptionField items))
      by (apply filter_In; now split).
    rewrite (find_none _ _ E _ Hf) in Hm. discriminate.
Qed.

Lemma extractMetadata_description (pageContent : PageContent)
      (items : list SemanticTextItem) :
  md_description (extractMetadata pageContent items)
  = match Vocabulary.descriptionFields items with
    | first :: _ =>
        match find is_meta (Vocabulary.descriptionFields items) with
        | Some metaDesc => Some (trim (extractPlainText (item_text metaDesc)))
        | None =>
            Some (substring0 165 (trim (extractPlainText (item_text first))))
        end
    | [] => None
    end.
Proof. reflexivity. Qed.

(** C4. When some Paragraph or RichText item is named like a description
    ("description", "meta" or "summary" in its field name): if none of
    these candidates has "meta" in its name, the scanner's description has
    at most 165 characters; if one has, the description is the whole plain
    text of the first such candidate. *)
Theorem scanPageContent_description :
  forall (pageContent : PageContent) (semanticItems : list SemanticTextItem),
    (exists item, In item semanticItems /\ is_descriptionField item = true) ->
    ((forall item, In item semanticItems ->
                   is_descriptionField item = true -> is_meta item = false) ->
     exists d,
       md_description
         (pd_metadata (scanPageContent url_parses pageContent semanticItems))
       = Some d
       /\ length d <= 165)
    /\
    ((exists item, In item semanticItems /\ is_descriptionField item = true
                   /\ is_meta item = true) ->
     exists item,
       In item semanticItems /\ is_descriptionField item = true
       /\ is_meta item = true
       /\ find is_meta (Vocabulary.descriptionFields semanticItems) = Some item
       /\ md_description
            (pd_metadata (scanPageContent url_parses pageContent semanticItems))
          = Some (trim (extractPlainText (item_text item)))).
Proof.
  intros pageContent items (cand & Hin & Hd).
  assert (Hne : Vocabulary.descriptionFields items <> []).
  { intros E. assert (Hf : In cand (Vocabulary.descriptionFields items))
      by (apply filter_In; now split).
    rewrite E in Hf. exact Hf. }
  unfold scanPageContent. cbn [pd_metadata].
  rewrite extractMetadata_description.
  destruct (Vocabulary.descriptionFields items) as [|first rest] eqn:Ecand;
    [now elim Hne|].
  rewrite <- Ecand. split.
  - intros Hnone. rewrite (find_filter_none _ Hnone).
    eexists. split; [reflexivity | apply substring0_length].
  - intros Hsome. destruct (find_filter_some _ Hsome) as (item & Hfind).
    exists item. rewrite Hfind.
    pose proof (find_some _ _ Hfind) as [Hf Hm].
    apply filter_In in Hf. destruct Hf as [Hi Hdi].
    repeat split; trivial.
Qed.

End ScannerFacts.

Lemma scanPageContent_description_witness :
  (exists d,
     md_description
       (pd_metadata
          (scanPageContent Samples.any_url Samples.sample_page
             [Samples.sample_item Heading "Title" "Welcome";
              Samples.sample_item Paragraph "Summary" Samples.long_text]))
     = Some d
     /\ length d <= 165)
  /\
  (exists item,
     In item [Samples.sample_item Paragraph "Summary" "short";
              Samples.sample_item RichText "MetaDescription"
                                  Samples.long_text]
     /\ is_descriptionField item = true
     /\ is_meta item = true
     /\ find is_meta
          (Vocabulary.descriptionFields
             [Samples.sample_item Paragraph "Summary" "short";
              Samples.sample_item RichText "MetaDescription"
                                  Samples.long_text])
        = Some item
     /\ md_description
          (pd_metadata
             (scanPageContent Samples.any_url Samples.sample_page
                [Samples.sample_item Paragraph "Summary" "short";
                 Samples.sample_item RichText "MetaDescription"
                                     Samples.long_text]))
        = Some (trim (extractPlainText (item_text item)))).
Proof.
  split.
  - apply (scanPageContent_description Samples.any_url Samples.sample_page
             [Samples.sample_item Heading "Title" "Welcome";
              Samples.sample_item Paragraph "Summary" Samples.long_text]).
    + exists (Samples.sample_item Paragraph "Summary" Samples.long_text).
      split; [right; left; reflexivity | reflexivity].
    + intros item [<- | [<- | []]] _; reflexivity.
  - apply (scanPageContent_description Samples.any_url Samples.sample_page
             [Samples.sample_item Paragraph "Summary" "short";
              Samples.sample_item RichText "MetaDescription"
                                  Samples.long_text]).
    + exists (Samples.sample_item Paragraph "Summary" "short").
      split; [left; reflexivity | reflexivity].
    + exists (Samples.sample_item RichText "MetaDescription" Samples.long_text).
      split; [right; left; reflexivity | split; reflexivity].
Defined.

(** ** Headings *)

Section Headings.

Local Open Scope list_scope.


(** What one iteration of the loop of [extractHeadings] does with an item
    hinted "h3" (and nothing else) once an h1 is set: it goes to [h2]. *)
Lemma heading_step_h3_after_h1 (headings : PageHeadings) (item : SemanticTextItem) :
  truthy (trim (extractPlainText (item_text item))) = true ->
  includes (fieldName_lower item) "h3" = true ->
  includes (fieldName_lower item) "h2" = false ->
  includes (fieldName_lower item) "h1" = false ->
  String.eqb (fieldName_lower item) "title" = false ->
  String.eqb (fieldName_lower item) "heading" = false ->
  opt_truthy (h_h1 headings) = true ->
  heading_step headings item
  = {| h_h1 := h_h1 headings;
       h_h2 := Some (or_nil (h_h2 headings)
                     ++ [trim (extractPlainText (item_text item))]);
       h_h3 := h_h3 headings;
       h_all := h_all headings ++ [trim (extractPlainText (item_text item))] |}.
Proof.
  intros Ht H3 H2 H1 Etitle Eheading Hset. unfold heading_step.
  rewrite Ht, H1, H2, H3, Etitle, Eheading, Hset. reflexivity.
Qed.

(** What it does with an item hinted "h2" and not "h1": it goes to [h2],
    whatever was assigned before. *)
Lemma heading_step_h2 (headings : PageHeadings) (item : SemanticTextItem) :
  truthy (trim (extractPlainText (item_text item))) = true ->
  includes (fieldName_lower item) "h2" = true ->
  includes (fieldName_lower item) "h1" = false ->
  heading_step headings item
  = {| h_h1 := h_h1 headings;
       h_h2 := Some (or_nil (h_h2 headings)
                     ++ [trim (extractPlainText (item_text item))]);
       h_h3 := h_h3 headings;
       h_all := h_all headings ++ [trim (extractPlainText (item_text item))] |}.
Proof.
  intros Ht H2 H1. unfold heading_step. rewrite Ht, H1, H2. simpl.
  assert (E1 : String.eqb (fieldName_lower item) "title" = false).
  { destruct (String.eqb_spec (fieldName_lower item) "title") as [E|]; trivial.
    rewrite E in H2. discriminate. }
  assert (E2 : String.eqb (fieldName_lower item) "heading" = false).
  { destruct (String.eqb_spec (fieldName_lower item) "heading") as [E|]; trivial.
    rewrite E in H2. discriminate. }
  rewrite E1, E2. simpl.
  rewrite !andb_false_r. reflexivity.
Qed.

(** C2, on the code.  An item hinted "h3" that follows an item hinted "h1"
    is filed under [h2] by [extractHeadings], and [h3] stays empty; the
    per-component pass over the same items files it under [h3]. *)
Theorem extractHeadings_h3_after_h1 :
  extractHeadings [Samples.sample_item Heading "h1" "Main";
                   Samples.sample_item Heading "h3" "Sub"]
  = {| h_h1 := Some "Main"; h_h2 := Some ["Sub"]; h_h3 := Some [];
       h_all := ["Main"; "Sub"] |}
  /\ map cc_headings
         (extractComponentContent
            [Samples.sample_item Heading "h1" "Main";
             Samples.sample_item Heading "h3" "Sub"])
     = [ {| h_h1 := Some "Main"; h_h2 := None; h_h3 := Some ["Sub"];
            h_all := ["Main"; "Sub"] |} ].
Proof. split; reflexivity. Qed.

End Headings.

(** ** Links *)

Section LinkFacts.

Local Open Scope list_scope.

Variable url_parses : string -> bool.

Lemma link_step_acc (item : SemanticTextItem) (links : list PageLink) :
  link_step url_parses links item = links ++ link_step url_parses [] item.
Proof.
  unfold link_step.
  destruct (truthy (group1_trim (match_ re_url (item_text item)))); simpl.
  - reflexivity.
  - now rewrite app_nil_r.
Qed.

Lemma extractLinks_items (items : list SemanticTextItem) :
  extractLinks url_parses items
  = flat_map (fun item => link_step url_parses [] item)
             (filter (category_is Link) items).
Proof.
  unfold extractLinks.
  rewrite (fold_left_append _ _
             (fun item links => link_step url_parses links item)).
  - reflexivity.
  - apply Forall_forall. intros item _ links. apply link_step_acc.
Qed.

Lemma category_is_true (c : SemanticCategory) (item : SemanticTextItem) :
  category_is c item = true -> item_category item = c.
Proof.
  unfold category_is. destruct (item_category item), c; simpl;
    intros H; try discriminate; reflexivity.
Qed.

(** A Link item whose text does not end in a bracketed token, or whose
    brackets hold spaces only, adds no link. *)
Lemma link_step_dropped (links : list PageLink) (item : SemanticTextItem) :
  group1_trim (match_ re_url (item_text item)) = EmptyString ->
  link_step url_parses links item = links.
Proof. intros H. unfold link_step. now rewrite H. Qed.

(** Where a link of [extractLinks] comes from. *)
Lemma extractLinks_origin (items : list SemanticTextItem) (link : PageLink) :
  In link (extractLinks url_parses items) ->
  exists item m,
    In item items /\ item_category item = Link
    /\ match_ re_url (item_text item) = Some m
    /\ trim (group1 m) <> EmptyString
    /\ link = link_of url_parses item
                      (group1_trim (match_ re_linktext (item_text item)))
                      (trim (group1 m)).
Proof.
  rewrite extractLinks_items. intros Hin.
  apply in_flat_map in Hin. destruct Hin as (item & Hitem & Hin).
  apply filter_In in Hitem. destruct Hitem as [Hitem Hcat].
  unfold link_step in Hin.
  destruct (match_ re_url (item_text item)) as [m|] eqn:Em; simpl in Hin.
  - destruct (truthy (trim (group1 m))) eqn:Et; simpl in Hin.
    + destruct Hin as [<- | []].
      exists item, m. repeat split; trivial.
      * now apply category_is_true.
      * now apply truthy_true.
    + destruct Hin.
  - destruct Hin.
Qed.

Lemma link_of_href_present (item : SemanticTextItem) (text href : string) :
  trim href = href -> href <> EmptyString ->
  href_missing (link_of url_parses item text href) = false.
Proof.
  intros Ht Hne. unfold href_missing, link_of. simpl. rewrite Ht.
  destruct href; [now elim Hne | reflexivity].
Qed.

Lemma issue_step_reason (st : link_state) (link : PageLink) :
  href_missing link = false ->
  forall d, In d (Vocabulary.details_of (issue_step st link)) ->
            In d (Vocabulary.details_of st) \/ bl_reason d <> empty.
Proof.
  intros Hm d. destruct st as [[broken placeholders] details].
  unfold issue_step, Vocabulary.details_of. rewrite Hm.
  repeat match goal with
         | |- context [if ?b then _ else _] => destruct b
         end; simpl; intros Hin;
    try (apply in_app_or in Hin; destruct Hin as [Hin | [<- | []]]);
    auto; right; simpl; discriminate.
Qed.

Lemma issue_fold_reason (links : list PageLink) :
  Forall (fun link => href_missing link = false) links ->
  forall st d,
    In d (Vocabulary.details_of (fold_left issue_step links st)) ->
    In d (Vocabulary.details_of st) \/ bl_reason d <> empty.
Proof.
  induction 1 as [|link links Hl _ IH]; intros st d; simpl.
  - now left.
  - intros Hin. destruct (IH _ _ Hin) as [Hin' | Hr]; [|now right].
    exact (issue_step_reason st link Hl d Hin').
Qed.

Lemma identifyIssues_details (pageData : PageData) :
  snd (identifyIssues pageData)
  = Vocabulary.details_of (fold_left issue_step (pd_links pageData) ([], [], [])).
Proof.
  unfold identifyIssues, Vocabulary.details_of.
  now destruct (fold_left issue_step (pd_links pageData) ([], [], []))
    as [[broken placeholders] details].
Qed.

(** C10. Every link of [extractLinks] comes from a Link item whose text
    ends in a bracketed token, and its href, the trimmed content of the
    brackets, is not empty; so [identifyIssues], run on page data whose
    links are those of [extractLinks], records no link with reason
    "empty". *)
Theorem extractLinks_href_not_empty :
  forall (semanticItems : list SemanticTextItem),
    (forall link,
        In link (extractLinks url_parses semanticItems) ->
        exists item m,
          In item semanticItems /\ item_category item = Link
          /\ match_ re_url (item_text item) = Some m
          /\ link_href link = Some (trim (group1 m))
          /\ trim (group1 m) <> EmptyString
          /\ href_missing link = false)
    /\
    (forall pageData,
        pd_links pageData = extractLinks url_parses semanticItems ->
        forall d, In d (snd (identifyIssues pageData)) -> bl_reason d <> empty).
Proof.
  intros items.
  assert (Hall : forall link,
             In link (extractLinks url_parses items) ->
             exists item m,
               In item items /\ item_category item = Link
               /\ match_ re_url (item_text item) = Some m
               /\ link_href link = Some (trim (group1 m))
               /\ trim (group1 m) <> EmptyString
               /\ href_missing link = false).
  { intros link Hin.
    destruct (extractLinks_origin items link Hin)
      as (item & m & Hi & Hc & Hm & Hne & ->).
    exists item, m. repeat split; trivial.
    apply link_of_href_present; trivial. apply trim_idem. }
  split; [exact Hall|].
  intros pageData Hlinks d Hin.
  rewrite identifyIssues_details, Hlinks in Hin.
  destruct (issue_fold_reason (extractLinks url_parses items)) with (st := (@nil string, @nil string, @nil BrokenLinkInfo)) (d := d)
    as [[] | Hr]; trivial.
  apply Forall_forall. intros link Hl.
  destruct (Hall link Hl) as (_ & _ & _ & _ & _ & _ & _ & H). exact H.
Qed.

End LinkFacts.

Lemma extractLinks_href_not_empty_witness :
  (exists item m,
      In item Samples.sample_links /\ item_category item = Link
      /\ match_ re_url (item_text item) = Some m
      /\ link_href (link_of Samples.any_url
                            (Samples.sample_item Link "Cta" "Read more [/about]")
                            "Read more" "/about")
         = Some (trim (group1 m))
      /\ trim (group1 m) <> EmptyString
      /\ href_missing (link_of Samples.any_url
                               (Samples.sample_item Link "Cta" "Read more [/about]")
                               "Read more" "/about")
         = false)
  /\ (forall d,
         In d (snd (identifyIssues
                      (scanPageContent Samples.any_url Samples.sample_page
                                       Samples.sample_links))) ->
         bl_reason d <> empty).
Proof.
  split.
  - apply (extractLinks_href_not_empty Samples.any_url Samples.sample_links).
    left. reflexivity.
  - apply (extractLinks_href_not_empty Samples.any_url Samples.sample_links).
    reflexivity.
Defined.

(** ** Numbers *)

Section NumberFacts.

Local Open Scope Q_scope.

Lemma Math_round_is_integer (x : number) :
  Math_round x = inject_Z (Qfloor (x + (1 # 2))).
Proof. reflexivity. Qed.

Lemma Qfloor_half (z : Z) : Qfloor (inject_Z z + (1 # 2)) = z.
Proof.
  unfold Qfloor, Qplus, inject_Z. cbn [Qnum Qden Pos.mul].
  replace (z * 2 + 1 * 1)%Z with (1 + z * 2)%Z by ring.
  change (Z.pos (1 * 2)) with 2%Z.
  rewrite Z.div_add by discriminate. reflexivity.
Qed.

Lemma Math_round_integer (x : number) (z : Z) :
  x == inject_Z z -> Math_round x = inject_Z z.
Proof.
  intros E. unfold Math_round. rewrite E. now rewrite Qfloor_half.
Qed.

Lemma Math_round_range (x : number) (lo hi : Z) :
  inject_Z lo <= x -> x <= inject_Z hi ->
  (lo <= Qfloor (x + (1 # 2)) <= hi)%Z.
Proof.
  intros Hlo Hhi. split.
  - rewrite <- (Qfloor_half lo). apply Qfloor_resp_le.
    apply Qplus_le_compat; [exact Hlo | apply Qle_refl].
  - rewrite <- (Qfloor_half hi). apply Qfloor_resp_le.
    apply Qplus_le_compat; [exact Hhi | apply Qle_refl].
Qed.

Lemma Math_round_nonneg (x : number) : 0 <= x -> (0 <= Qfloor (x + (1 # 2)))%Z.
Proof.
  intros H. rewrite <- (Qfloor_half 0). apply Qfloor_resp_le.
  apply Qplus_le_compat; [exact H | apply Qle_refl].
Qed.

Lemma Math_max_0_nonneg (x : number) : 0 <= Math_max 0 x.
Proof.
  unfold Math_max. destruct (Qle_bool 0 x) eqn:E.
  - now apply Qle_bool_iff.
  - apply Qle_refl.
Qed.

(** [Math.min(25, Math.round(x))] of a non-negative [x] is an integer of
    [0..25]. *)
Lemma capped_round (x : number) :
  0 <= x ->
  exists z : Z, Math_min 25 (Math_round x) = inject_Z z /\ (0 <= z <= 25)%Z.
Proof.
  intros H. unfold Math_min, Math_round.
  destruct (Qle_bool 25 (inject_Z (Qfloor (x + (1 # 2))))) eqn:E.
  - exists 25%Z. split; [reflexivity | lia].
  - exists (Qfloor (x + (1 # 2))). split; [reflexivity|].
    split; [now apply Math_round_nonneg|].
    destruct (Z.le_gt_cases 25 (Qfloor (x + (1 # 2)))) as [Hge | Hlt]; [|lia].
    assert (Hq : Qle_bool 25 (inject_Z (Qfloor (x + (1 # 2)))) = true).
    { apply Qle_bool_iff. change 25 with (inject_Z 25).
      now rewrite <- Zle_Qle. }
    rewrite Hq in E. discriminate.
Qed.

Lemma of_nat_nonneg (n : nat) : 0 <= of_nat n.
Proof.
  unfold of_nat. change 0 with (inject_Z 0). rewrite <- Zle_Qle. lia.
Qed.

Lemma of_nat_pos (n : nat) : (0 < n)%nat -> 0 < of_nat n.
Proof.
  intros H. unfold of_nat. change 0 with (inject_Z 0). rewrite <- Zlt_Qlt. lia.
Qed.

Lemma of_nat_le (k n : nat) : (k <= n)%nat -> of_nat k <= of_nat n.
Proof. intros H. unfold of_nat. rewrite <- Zle_Qle. lia. Qed.

Lemma clamp_0_100 (x : number) :
  0 <= Math_max 0 (Math_min 100 x) /\ Math_max 0 (Math_min 100 x) <= 100.
Proof.
  split; [apply Math_max_0_nonneg|].
  unfold Math_max, Math_min.
  destruct (Qle_bool 100 x) eqn:E1.
  - simpl. apply Qle_refl.
  - destruct (Qle_bool 0 x) eqn:E2; [|discriminate].
    apply Qlt_le_weak, Qnot_le_lt. intros H.
    apply Qle_bool_iff in H. rewrite H in E1. discriminate.
Qed.

(** *** Rounding to a double *)

Lemma nearest_even_ge (k p q : Z) :
  (0 < q)%Z -> (k * q <= p)%Z -> (k <= nearest_even p q)%Z.
Proof.
  intros Hq H. unfold nearest_even.
  assert (Hf : (k <= p / q)%Z)
    by (apply Z.div_le_lower_bound; [exact Hq | lia]).
  destruct (2 * (p mod q) ?= q)%Z; [destruct (Z.even (p / q))| |]; lia.
Qed.

Lemma nearest_even_le (k p q : Z) :
  (0 < q)%Z -> (p <= k * q)%Z -> (nearest_even p q <= k)%Z.
Proof.
  intros Hq H. unfold nearest_even.
  pose proof (Z.mod_pos_bound p q Hq) as Hm.
  pose proof (Z.div_mod p q ltac:(lia)) as Hd.
  assert (Hf : (p / q <= k)%Z) by (apply Z.div_le_upper_bound; lia).
  assert (Hs : (0 < p mod q -> p / q + 1 <= k)%Z).
  { intros Hr.
    assert (p / q < k)%Z; [|lia].
    apply Z.div_lt_upper_bound; [exact Hq|].
    destruct (Z.eq_dec p (k * q)) as [-> | Hne]; [|lia].
    rewrite Z.mod_mul in Hr by lia. lia. }
  destruct (2 * (p mod q) ?= q)%Z eqn:E.
  - apply Z.compare_eq in E. destruct (Z.even (p / q)); lia.
  - lia.
  - apply Z.compare_gt_iff in E. lia.
Qed.

(** A quotient below 2^53 lies in a binade below the 53rd. *)
Lemma binade_small (n d : Z) :
  (0 < n)%Z -> (0 < d)%Z -> (n < 2 ^ 53 * d)%Z -> (binade n d < 53)%Z.
Proof.
  intros Hn Hd H. unfold binade.
  pose proof (Z.log2_spec n Hn) as [Hn1 _].
  pose proof (Z.log2_spec d Hd) as [_ Hd2].
  pose proof (Z.log2_nonneg n) as Hln.
  pose proof (Z.log2_nonneg d) as Hld.
  set (ln := Z.log2 n) in *. set (ld := Z.log2 d) in *.
  destruct (Z_lt_le_dec (ln - ld) 53) as [Hlt | Hge].
  - destruct (_ <? _)%Z; lia.
  - destruct (Z.eq_dec (ln - ld) 53) as [E | Hne].
    + rewrite E. change (Z.max 0 (Z.opp 53)) with 0%Z.
      change (Z.max 0 53) with 53%Z.
      destruct (n * 2 ^ 0 <? d * 2 ^ 53)%Z eqn:Et; [lia|].
      apply Z.ltb_ge in Et. lia.
    + exfalso.
      assert (Hp : (2 ^ ln
                    = 2 ^ (ln - ld - 54) * (2 ^ 53 * 2 ^ Z.succ ld))%Z).
      { rewrite <- !Z.pow_add_r by lia. f_equal. lia. }
      assert (H1 : (1 <= 2 ^ (ln - ld - 54))%Z)
        by (apply (Z.pow_le_mono_r 2 0); lia).
      nia.
Qed.

Lemma double_between (x : Q) (a b : Z) :
  (0 <= a)%Z -> (b < 2 ^ 53)%Z ->
  inject_Z a <= x -> x <= inject_Z b ->
  inject_Z a <= double x /\ double x <= inject_Z b.
Proof.
  intros Ha Hb Hax Hxb. destruct x as [n d].
  unfold Qle in Hax, Hxb. cbn [Qnum Qden inject_Z] in Hax, Hxb.
  unfold double. cbn [Qnum Qden].
  destruct (Z.abs n =? 0)%Z eqn:E0.
  - apply Z.eqb_eq in E0. split; unfold Qle; cbn [Qnum Qden inject_Z]; lia.
  - apply Z.eqb_neq in E0.
    assert (Hn : (0 < n)%Z) by nia.
    rewrite (Z.abs_eq n) by lia. rewrite (Z.sgn_pos n Hn).
    pose proof (binade_small n (Z.pos d) Hn eq_refl ltac:(nia)) as Hbin.
    set (fexp := Z.max (binade n (Z.pos d) - 52) (-1074)).
    assert (Hf : (fexp <= 0)%Z) by (unfold fexp; lia).
    destruct (0 <=? fexp)%Z eqn:Ef.
    + apply Z.leb_le in Ef. assert (E : fexp = 0%Z) by lia. rewrite E.
      change (2 ^ 0)%Z with 1%Z. rewrite !Z.mul_1_r, Z.mul_1_l.
      unfold Qle. cbn [Qnum Qden inject_Z]. rewrite !Z.mul_1_r. split.
      * apply nearest_even_ge; lia.
      * apply nearest_even_le; lia.
    + apply Z.leb_gt in Ef.
      assert (Hp : (0 < 2 ^ (- fexp))%Z) by (apply Z.pow_pos_nonneg; lia).
      rewrite Qred_correct, Z.mul_1_l.
      unfold Qle. cbn [Qnum Qden inject_Z].
      rewrite (Z2Pos.id _ Hp), !Z.mul_1_r. split.
      * apply nearest_even_ge; [lia | nia].
      * apply nearest_even_le; [lia | nia].
Qed.

Lemma double_sign (x : Q) :
  (0 <= x -> 0 <= double x) /\ (x <= 0 -> double x <= 0).
Proof.
  destruct x as [n d]. unfold double. cbn [Qnum Qden].
  destruct (Z.abs n =? 0)%Z; [split; intros _; apply Qle_refl|].
  set (fexp := Z.max (binade (Z.abs n) (Z.pos d) - 52) (-1074)).
  destruct (0 <=? fexp)%Z eqn:Ef.
  - apply Z.leb_le in Ef.
    assert (Hp : (0 < 2 ^ fexp)%Z) by (apply Z.pow_pos_nonneg; lia).
    assert (Hm : (0 <= nearest_even (Z.abs n) (Z.pos d * 2 ^ fexp))%Z)
      by (apply (nearest_even_ge 0); lia).
    set (m := nearest_even (Z.abs n) (Z.pos d * 2 ^ fexp)) in *.
    unfold Qle. cbn [Qnum Qden inject_Z]. split; intros H.
    + assert (0 <= Z.sgn n * m * 2 ^ fexp)%Z; [|lia].
      apply Z.mul_nonneg_nonneg; [apply Z.mul_nonneg_nonneg|]; lia.
    + assert (0 <= (- Z.sgn n) * m * 2 ^ fexp)%Z; [|lia].
      apply Z.mul_nonneg_nonneg; [apply Z.mul_nonneg_nonneg|]; lia.
  - apply Z.leb_gt in Ef.
    assert (Hp : (0 < 2 ^ (- fexp))%Z) by (apply Z.pow_pos_nonneg; lia).
    assert (Hm : (0 <= nearest_even (Z.abs n * 2 ^ (- fexp)) (Z.pos d))%Z).
    { apply (nearest_even_ge 0); [reflexivity|].
      rewrite Z.mul_0_l. apply Z.mul_nonneg_nonneg; lia. }
    set (m := nearest_even (Z.abs n * 2 ^ (- fexp)) (Z.pos d)) in *.
    rewrite Qred_correct. unfold Qle. cbn [Qnum Qden]. split; intros H.
    + assert (0 <= Z.sgn n * m)%Z; [|lia].
      apply Z.mul_nonneg_nonneg; lia.
    + assert (0 <= (- Z.sgn n) * m)%Z; [|lia].
      apply Z.mul_nonneg_nonneg; lia.
Qed.

Lemma double_nonneg (x : Q) : 0 <= x -> 0 <= double x.
Proof. apply double_sign. Qed.

Lemma double_nonpos (x : Q) : x <= 0 -> double x <= 0.
Proof. apply double_sign. Qed.

(** An integer below 2^53 is a double. *)
Lemma double_integer (x : Q) (z : Z) :
  (0 <= z < 2 ^ 53)%Z -> x == inject_Z z -> double x == inject_Z z.
Proof.
  intros Hz E.
  destruct (double_between x z z) as [H1 H2]; try lia.
  - rewrite E. apply Qle_refl.
  - rewrite E. apply Qle_refl.
  - now apply Qle_antisym.
Qed.

Lemma Qred_integer (z : Z) : Qred (inject_Z z) = inject_Z z.
Proof.
  unfold Qred, inject_Z.
  pose proof (Z.ggcd_gcd z 1) as Hg.
  pose proof (Z.ggcd_correct_divisors z 1) as Hd.
  destruct (Z.ggcd z 1) as [g [aa bb]]. cbn [fst snd] in *.
  rewrite Z.gcd_1_r in Hg. subst g. destruct Hd as [Ha Hb].
  rewrite !Z.mul_1_l in *. now subst.
Qed.

(** ... and is the double of the numbers equal to it. *)
Lemma double_integer_eq (x : Q) (z : Z) :
  (0 <= z < 2 ^ 53)%Z -> x == inject_Z z -> double x = inject_Z z.
Proof.
  intros Hz E. pose proof (double_integer x z Hz E) as H.
  revert H. unfold double.
  destruct (_ =? 0)%Z.
  - intros H. unfold Qeq in H. cbn [Qnum Qden inject_Z] in H.
    assert (z = 0)%Z by lia. now subst.
  - destruct (0 <=? _)%Z.
    + intros H. unfold Qeq in H. cbn [Qnum Qden inject_Z] in H.
      f_equal. lia.
    + intros H. rewrite Qred_correct in H.
      rewrite (Qred_complete _ _ H). apply Qred_integer.
Qed.

Lemma double_le (x : Q) (b : Z) :
  (0 <= b < 2 ^ 53)%Z -> x <= inject_Z b -> double x <= inject_Z b.
Proof.
  intros Hb H. destruct (Qlt_le_dec x 0) as [Hneg | Hpos].
  - apply Qle_trans with 0; [apply double_nonpos; now apply Qlt_le_weak|].
    change 0 with (inject_Z 0). rewrite <- Zle_Qle. lia.
  - now apply (double_between x 0 b).
Qed.

Lemma fadd_nonneg (x y : number) : 0 <= x -> 0 <= y -> 0 <= fadd x y.
Proof.
  intros Hx Hy. apply double_nonneg. rewrite <- (Qplus_0_l 0).
  now apply Qplus_le_compat.
Qed.

Lemma fadd_le (x y : number) (a b : Z) :
  (0 <= a + b < 2 ^ 53)%Z ->
  x <= inject_Z a -> y <= inject_Z b -> fadd x y <= inject_Z (a + b).
Proof.
  intros Hab Hx Hy. apply double_le; [exact Hab|].
  rewrite inject_Z_plus. now apply Qplus_le_compat.
Qed.

Lemma fadd_ge (x y : number) (a b c : Z) :
  (0 <= a + b)%Z -> (c < 2 ^ 53)%Z ->
  inject_Z a <= x -> inject_Z b <= y -> x + y <= inject_Z c ->
  inject_Z (a + b) <= fadd x y.
Proof.
  intros Hab Hc Hx Hy Hxy. apply (double_between (x + y) (a + b) c); trivial.
  rewrite inject_Z_plus. now apply Qplus_le_compat.
Qed.

Lemma fadd_integer (a b : Z) :
  (0 <= a + b < 2 ^ 53)%Z ->
  fadd (inject_Z a) (inject_Z b) = inject_Z (a + b).
Proof.
  intros H. apply double_integer_eq; [exact H|].
  now rewrite inject_Z_plus.
Qed.

(** [Math.round(k / n * 25)] for [k <= n], [n] not zero, is an integer of
    [0..25]. *)
Lemma share_of_25 (k n : nat) :
  (k <= n)%nat -> (0 < n)%nat ->
  exists z : Z,
    Math_round (fmul (fdiv (of_nat k) (of_nat n)) 25) = inject_Z z
    /\ (0 <= z <= 25)%Z.
Proof.
  intros Hk Hn. eexists. split; [reflexivity|].
  pose proof (of_nat_pos n Hn) as Hpos.
  assert (Hp : inject_Z 0 <= fdiv (of_nat k) (of_nat n)
               /\ fdiv (of_nat k) (of_nat n) <= inject_Z 1).
  { apply double_between; try lia.
    - apply Qle_shift_div_l; [exact Hpos|].
      rewrite Qmult_0_l. apply of_nat_nonneg.
    - apply Qle_shift_div_r; [exact Hpos|].
      rewrite Qmult_1_l. now apply of_nat_le. }
  destruct Hp as [Hp0 Hp1].
  apply (Math_round_range _ 0 25); apply (double_between _ 0 25); try lia.
  - change (inject_Z 0) with (0 * 25). now apply Qmult_le_compat_r.
  - change (inject_Z 25) with (1 * 25). now apply Qmult_le_compat_r.
  - change (inject_Z 0) with (0 * 25). now apply Qmult_le_compat_r.
  - change (inject_Z 25) with (1 * 25). now apply Qmult_le_compat_r.
Qed.

End NumberFacts.

(** ** Binary64 arithmetic against the machine's *)

Section Binary64.

Import PrimFloat.

Local Open Scope Q_scope.

(** The decimal literals of the code. *)
Example literals :
  of_binary64 0.1%float = Some (double (1 # 10))
  /\ of_binary64 206.835%float = Some (double (206835 # 1000))
  /\ of_binary64 1.015%float = Some (double (1015 # 1000))
  /\ of_binary64 84.6%float = Some (double (846 # 10)).
Proof. vm_compute. repeat split. Qed.

(** Sums, differences, products and quotients that are not exact. *)
Example operations :
  of_binary64 (0.1 + 0.2)%float
  = Some (fadd (double (1 # 10)) (double (2 # 10)))
  /\ of_binary64 (29 / 50 * 25)%float = Some (fmul (fdiv 29 50) 25)
  /\ of_binary64 (10 - (63 - 60) * 0.1)%float
     = Some (fsub 10 (fmul (fsub 63 60) (double (1 # 10))))
  /\ of_binary64 (10 - (257 - 165) * 0.1)%float
     = Some (fsub 10 (fmul (fsub 257 165) (double (1 # 10))))
  /\ of_binary64 (41 / 40 * 100)%float = Some (fmul (fdiv 41 40) 100)
  /\ of_binary64 (102 / 100)%float = Some (fdiv 102 100)
  /\ of_binary64 (206.835 - 1.015 * (40 / 3) - 84.6 * (41 / 40))%float
     = Some (fsub (fsub (double (206835 # 1000))
                        (fmul (double (1015 # 1000)) (fdiv 40 3)))
                  (fmul (double (846 # 10)) (fdiv 41 40))).
Proof. vm_compute. repeat split. Qed.

(** 29 of 50 is [0.58], and [0.58 * 25] is [14.499999999999998]: the
    share rounds to 14, where the exact 14.5 would round to 15. *)
Example share_29_of_50 :
  scoreAccessibility (NumberSamples.images_with_alt 29 50) = 14
  /\ scoreLinks (NumberSamples.links_valid 29 50) = 14.
Proof. vm_compute. split; reflexivity. Qed.

(** A title 3 characters and a description 92 characters over their
    limits earn [9.7] and [0.7999999999999989]: with the 5 for having
    both, the sum is [15.499999999999998] and rounds to 15, where the
    exact 15.5 would round to 16. *)
Example metadata_over_limits :
  scoreMetadata NumberSamples.long_metadata = 15.
Proof. vm_compute. reflexivity. Qed.

(** With 41 syllables over 40 words, [41 / 40 * 100] is
    [102.49999999999999]: the average is reported as [1.02], where the
    exact 102.5 would give 1.03. *)
Example syllables_41_over_40 :
  rd_averageSyllablesPerWord
    (calculateReadability "" NumberSamples.forty_words ["a"])
  = double (102 # 100).
Proof. vm_compute. reflexivity. Qed.

End Binary64.

(** ** The scorer *)

Section ScorerFacts.

Local Open Scope Q_scope.

Lemma length_credit_nonneg (len limit : nat) : 0 <= length_credit len limit.
Proof.
  unfold length_credit. destruct (Nat.leb len limit).
  - discriminate.
  - apply Math_max_0_nonneg.
Qed.

Lemma Qplus_nonneg (x y : number) : 0 <= x -> 0 <= y -> 0 <= x + y.
Proof.
  intros Hx Hy. rewrite <- (Qplus_0_l 0). now apply Qplus_le_compat.
Qed.

Lemma scoreMetadata_range (metadata : PageMetadata) :
  exists z : Z, scoreMetadata metadata = inject_Z z /\ (0 <= z <= 25)%Z.
Proof.
  unfold scoreMetadata. apply capped_round.
  repeat match goal with
         | |- context [if ?b then _ else _] => destruct b
         end;
    repeat apply fadd_nonneg;
    try apply length_credit_nonneg; discriminate.
Qed.

Lemma scoreContent_range (headings : PageHeadings) (text : string)
      (wordCount : option number) :
  exists z : Z,
    scoreContent headings text wordCount = inject_Z z /\ (0 <= z <= 25)%Z.
Proof.
  unfold scoreContent. apply capped_round.
  assert (Hr : forall x, 0 <= x -> 0 <= Math_round x).
  { intros x Hx. unfold Math_round. change 0 with (inject_Z 0).
    rewrite <- Zle_Qle. now apply Math_round_nonneg. }
  assert (Hw : gtb (words_of wordCount text) 0 = true ->
               0 <= fmul (fdiv (words_of wordCount text) 250) 10).
  { intros Hg. unfold gtb, ltb in Hg. apply negb_true_iff in Hg.
    apply double_nonneg.
    apply Qmult_le_0_compat; [|discriminate].
    apply double_nonneg.
    apply Qle_shift_div_l; [reflexivity|]. rewrite Qmult_0_l.
    apply Qlt_le_weak, Qnot_le_lt. intros H.
    apply Qle_bool_iff in H. rewrite H in Hg. discriminate. }
  destruct (h_h1 headings) as [h1|];
    [destruct (truthy h1 && Nat.ltb 0 (length (trim h1)))%bool|];
    destruct (geb (words_of wordCount text) 250);
    try (destruct (gtb (words_of wordCount text) 0) eqn:Eg);
    repeat apply fadd_nonneg; try discriminate; apply Hr; now apply Hw.
Qed.

Lemma scoreAccessibility_range (images : list PageImage) :
  exists z : Z, scoreAccessibility images = inject_Z z /\ (0 <= z <= 25)%Z.
Proof.
  unfold scoreAccessibility.
  destruct (Nat.eqb (List.length images) 0) eqn:E.
  - exists 25%Z. split; [reflexivity | lia].
  - apply Nat.eqb_neq in E. apply share_of_25.
    + apply filter_length_le.
    + lia.
Qed.

Lemma scoreLinks_range (links : list PageLink) :
  exists z : Z, scoreLinks links = inject_Z z /\ (0 <= z <= 25)%Z.
Proof.
  unfold scoreLinks.
  destruct (Nat.eqb (List.length links) 0) eqn:E.
  - exists 25%Z. split; [reflexivity | lia].
  - apply Nat.eqb_neq in E. apply share_of_25.
    + apply filter_length_le.
    + lia.
Qed.

Lemma computeSEOScore_fields (pd : PageData) :
  breakdown (computeSEOScore pd)
  = {| sb_metadata := scoreMetadata (pd_metadata pd);
       sb_content :=
         scoreContent (pd_headings pd) (pd_text pd)
                      (pd_wordCount pd);
       sb_accessibility := scoreAccessibility (pd_images pd);
       sb_links := scoreLinks (pd_links pd) |}
  /\ seoScore (computeSEOScore pd)
     = Math_round
         (fadd (fadd (fadd (scoreMetadata (pd_metadata pd))
                           (scoreContent (pd_headings pd) (pd_text pd)
                                         (pd_wordCount pd)))
                     (scoreAccessibility (pd_images pd)))
               (scoreLinks (pd_links pd)))
  /\ pageData (computeSEOScore pd) = pd.
Proof.
  unfold computeSEOScore. destruct (identifyIssues pd). simpl.
  repeat split.
Qed.

(** C1. Each of the four sub-scores of [computeSEOScore] is an integer
    between 0 and 25, and the total is the rounded sum of the four, which is
    their sum, between 0 and 100. *)
Theorem computeSEOScore_range :
  forall pageData : PageData,
  exists m c a l : Z,
    sb_metadata (breakdown (computeSEOScore pageData)) = inject_Z m
    /\ sb_content (breakdown (computeSEOScore pageData)) = inject_Z c
    /\ sb_accessibility (breakdown (computeSEOScore pageData)) = inject_Z a
    /\ sb_links (breakdown (computeSEOScore pageData)) = inject_Z l
    /\ (0 <= m <= 25 /\ 0 <= c <= 25 /\ 0 <= a <= 25 /\ 0 <= l <= 25)%Z
    /\ seoScore (computeSEOScore pageData)
       = Math_round (sb_metadata (breakdown (computeSEOScore pageData))
                     + sb_content (breakdown (computeSEOScore pageData))
                     + sb_accessibility (breakdown (computeSEOScore pageData))
                     + sb_links (breakdown (computeSEOScore pageData)))
    /\ seoScore (computeSEOScore pageData) = inject_Z (m + c + a + l)
    /\ (0 <= m + c + a + l <= 100)%Z.
Proof.
  intros pageData.
  destruct (computeSEOScore_fields pageData) as (Hb & Hs & _).
  destruct (scoreMetadata_range (pd_metadata pageData)) as (m & Em & Hm).
  destruct (scoreContent_range (pd_headings pageData) (pd_text pageData)
                               (pd_wordCount pageData)) as (c & Ec & Hc).
  destruct (scoreAccessibility_range (pd_images pageData)) as (a & Ea & Ha).
  destruct (scoreLinks_range (pd_links pageData)) as (l & El & Hl).
  exists m, c, a, l. rewrite Hb, Hs. cbn [sb_metadata sb_content sb_accessibility sb_links].
  rewrite Em, Ec, Ea, El.
  assert (Hsum : Math_round (fadd (fadd (fadd (inject_Z m) (inject_Z c))
                                        (inject_Z a))
                                  (inject_Z l))
                 = inject_Z (m + c + a + l)).
  { rewrite !fadd_integer by lia.
    now apply Math_round_integer. }
  repeat split; try lia.
  - rewrite Hsum. symmetry. apply Math_round_integer.
    now rewrite !inject_Z_plus.
  - exact Hsum.
Qed.

(** ** Readability *)

Lemma calculateReadability_clamped
      (text : string) (words sentences : list string) :
  0 <= rd_score (calculateReadability text words sentences)
  /\ rd_score (calculateReadability text words sentences) <= 100.
Proof.
  unfold calculateReadability.
  destruct (Nat.eqb (List.length words) 0
            || Nat.eqb (List.length sentences) 0)%bool.
  - simpl. split; discriminate.
  - cbn [rd_score]. apply clamp_0_100.
Qed.

Lemma calculateReadability_no_word (text : string) (sentences : list string) :
  calculateReadability text [] sentences
  = {| rd_score := 0; rd_grade := "N/A"; rd_sentences := 0;
       rd_words := 0; rd_syllables := 0;
       rd_averageWordsPerSentence := 0;
       rd_averageSyllablesPerWord := 0 |}.
Proof. reflexivity. Qed.

(** C5. The readability score lies between 0 and 100, and with no word
    the result is all zero with grade "N/A". *)
Theorem calculateReadability_range :
  forall (text : string) (words sentences : list string),
    0 <= rd_score (calculateReadability text words sentences)
    /\ rd_score (calculateReadability text words sentences) <= 100
    /\ calculateReadability text [] sentences
       = {| rd_score := 0; rd_grade := "N/A"; rd_sentences := 0;
            rd_words := 0; rd_syllables := 0;
            rd_averageWordsPerSentence := 0;
            rd_averageSyllablesPerWord := 0 |}.
Proof.
  intros text words sentences.
  destruct (calculateReadability_clamped text words sentences) as [H0 H100].
  repeat split; trivial.
Qed.

(** The same for the readability the scanner computes from a body text:
    when the text has no word, the metrics carry the all-zero result. *)
Lemma calculateContentMetrics_readability
      (text : string) (headings : PageHeadings)
      (links : list PageLink) (images : list PageImage) :
  exists r,
    cm_readability (calculateContentMetrics text headings links images) = Some r
    /\ 0 <= rd_score r /\ rd_score r <= 100
    /\ (cm_wordCount (calculateContentMetrics text headings links images) == 0 ->
        r = {| rd_score := 0; rd_grade := "N/A"; rd_sentences := 0;
               rd_words := 0; rd_syllables := 0;
               rd_averageWordsPerSentence := 0;
               rd_averageSyllablesPerWord := 0 |}).
Proof.
  unfold calculateContentMetrics. cbn [cm_readability cm_wordCount].
  eexists. split; [reflexivity|].
  match goal with
  | |- context [calculateReadability ?t ?w ?s] =>
      pose proof (calculateReadability_clamped t w s) as (H0 & H100);
      set (words := w) in *; set (sentences := s) in *
  end.
  repeat split; trivial.
  intros H. destruct words as [|w ws]; [reflexivity|].
  exfalso. revert H. unfold of_nat, Qeq. simpl. lia.
Qed.

End ScorerFacts.

(** ** The classifier *)

Section ClassifierFacts.

Local Open Scope list_scope.

Lemma space_not (c x : ascii) :
  is_space x = false -> is_space c = true -> Ascii.eqb x c = false.
Proof.
  intros Hx Hc. destruct (Ascii.eqb_spec x c) as [E|]; trivial.
  rewrite E, Hc in Hx. discriminate.
Qed.

(** A pattern that cannot match at a space, nor at the end of the input,
    matches nowhere in a string of spaces. *)
Lemma search_from_spaces (r : re) :
  exec_here r EmptyString = None ->
  (forall c s, is_space c = true -> exec_here r (String c s) = None) ->
  forall s i,
    Forall (fun c => is_space c = true) (list_ascii_of_string s) ->
    search_from r i s = None.
Proof.
  intros Hnil Hsp s. induction s as [|c s IH]; intros i Hall; simpl.
  - now rewrite Hnil.
  - inversion Hall as [|c' l Hc Hrest]; subst.
    rewrite (Hsp c s Hc). now apply IH.
Qed.

Lemma content_matches_RichText (content : string) :
  Vocabulary.content_matches RichText content
  = (test (mkRe false re_tag) content
     || (test (mkRe false (alts [lit "&nbsp;"; lit "&lt;"; lit "&gt;";
                                 lit "&amp;"])) content
         || false))%bool.
Proof. reflexivity. Qed.

(** A value with a RichText marker is not blank. *)
Lemma RichText_marker_not_blank (content : string) :
  Vocabulary.content_matches RichText content = true ->
  (is_empty content || Nat.eqb (length (trim content)) 0)%bool = false.
Proof.
  intros Hm.
  destruct (is_empty content || Nat.eqb (length (trim content)) 0)%bool eqn:E;
    trivial.
  assert (Hall : Forall (fun c => is_space c = true)
                        (list_ascii_of_string content)).
  { apply orb_true_iff in E. destruct E as [E | E].
    - apply is_empty_true in E. subst. constructor.
    - apply length_zero in E. now apply trim_empty. }
  rewrite content_matches_RichText in Hm.
  unfold test, match_ in Hm. cbn [bol body] in Hm.
  rewrite !search_from_spaces in Hm; trivial; try discriminate.
  - intros c s Hc. unfold exec_here. cbn -[Ascii.eqb]. unfold ch.
    now rewrite (space_not c "&"%char eq_refl Hc).
  - intros c s Hc. unfold exec_here, re_tag. cbn -[Ascii.eqb]. unfold ch.
    now rewrite (space_not c "<"%char eq_refl Hc).
Qed.

Lemma classifyContent_RichText (content : string) :
  Vocabulary.content_matches RichText content = true ->
  Vocabulary.content_matches Button content = false ->
  Vocabulary.content_matches Heading content = false ->
  classifyContent content = Some RichText.
Proof.
  intros Hr Hb Hh. unfold classifyContent.
  rewrite (RichText_marker_not_blank content Hr).
  change (existsb (fun pattern => test pattern content)
                  (patterns_of Button CONTENT_PATTERNS))
    with (Vocabulary.content_matches Button content).
  rewrite Hb.
  unfold CONTENT_PATTERNS, first_match, entry_matches.
  cbn [fst snd SemanticCategory_eqb orb].
  change (existsb (fun pattern => test pattern content)
                  (patterns_of Heading CONTENT_PATTERNS))
    with (Vocabulary.content_matches Heading content) in Hh.
  unfold Vocabulary.content_matches, patterns_of, CONTENT_PATTERNS in Hh, Hr.
  cbn [flat_map fst snd SemanticCategory_eqb app] in Hh, Hr.
  rewrite Hh, Hr. reflexivity.
Qed.

Lemma get_no_entry (table : list (string * SemanticCategory)) (key : string) :
  Vocabulary.no_entry table key -> get table key = None.
Proof.
  intros [Ho Hp]. unfold get. rewrite Ho.
  destruct (existsb (String.eqb key) Object_prototype_keys) eqn:E; trivial.
  elim Hp. apply existsb_exists in E. destruct E as (k & Hk & E).
  apply String.eqb_eq in E. now subst.
Qed.

Lemma by_template_undecided (templateName : option string) :
  (forall t, templateName = Some t ->
             t = EmptyString \/ Vocabulary.no_entry TEMPLATE_PATTERNS t) ->
  by_template templateName = None.
Proof.
  intros H. destruct templateName as [t|]; trivial. unfold by_template.
  destruct (H t eq_refl) as [-> | Hn]; trivial.
  destruct (truthy t); trivial. now apply get_no_entry.
Qed.

Lemma by_type_undecided (fieldType : option string) :
  (forall t, fieldType = Some t ->
             t = EmptyString
             \/ (own semanticCategories t = None
                 /\ Vocabulary.no_entry typeMap t)) ->
  by_type fieldType = None.
Proof.
  intros H. destruct fieldType as [t|]; trivial. unfold by_type.
  destruct (H t eq_refl) as [-> | [Hc Hn]]; trivial.
  destruct (truthy t); trivial. rewrite Hc.
  unfold mapFieldTypeToCategory. now rewrite (get_no_entry _ _ Hn).
Qed.

(** C6, as the code has it.  Let the first two tiers decide nothing: the
    template name is missing or empty, or the lookup
    [TEMPLATE_PATTERNS[templateName]] yields nothing (the name is no key of
    the table and no name of an inherited member such as "constructor");
    and the declared type is missing or empty, or is no category name and
    the lookup [typeMap[fieldType]] yields nothing.  When the name
    suggests a category other than Other, Link and Button, and the value
    carries a RichText marker without being a call-to-action phrase or a
    single heading element (the two tests that content analysis makes
    before the RichText one), [classifyField] returns RichText. *)
Theorem classifyField_RichText_override :
  forall (fieldName fieldValue : string) (fieldType templateName : option string),
    (forall t, templateName = Some t ->
               t = EmptyString \/ Vocabulary.no_entry TEMPLATE_PATTERNS t) ->
    (forall t, fieldType = Some t ->
               t = EmptyString
               \/ (own semanticCategories t = None
                   /\ Vocabulary.no_entry typeMap t)) ->
    classifyFieldName fieldName <> Other ->
    classifyFieldName fieldName <> Link ->
    classifyFieldName fieldName <> Button ->
    Vocabulary.content_matches RichText fieldValue = true ->
    Vocabulary.content_matches Button fieldValue = false ->
    Vocabulary.content_matches Heading fieldValue = false ->
    classifyField fieldName fieldValue fieldType templateName = Cat RichText.
Proof.
  intros fieldName fieldValue fieldType templateName
         Ht Hty HO HL HB Hr Hb Hh.
  unfold classifyField.
  rewrite (by_template_undecided templateName Ht).
  rewrite (by_type_undecided fieldType Hty).
  rewrite (classifyContent_RichText fieldValue Hr Hb Hh).
  destruct (classifyFieldName fieldName); simpl;
    try reflexivity; congruence.
Qed.

Lemma classifyField_RichText_override_witness :
  classifyField "Description" "<p>Hello <b>world</b></p>"
                (Some "unknown") None
  = Cat RichText.
Proof.
  apply classifyField_RichText_override.
  - intros t H. discriminate H.
  - intros t H. injection H as <-. right. repeat split.
    simpl. intuition discriminate.
  - vm_compute. discriminate.
  - vm_compute. discriminate.
  - vm_compute. discriminate.
  - reflexivity.
  - reflexivity.
  - reflexivity.
Defined.

(** C6, as the specification states it, fails on a value that is a single
    heading element, and on a call-to-action phrase with markup in its
    bracket: both carry a RichText marker, and the name wins. *)
Lemma classifyField_marker_without_override :
  by_template None = None
  /\ by_type (Some "unknown") = None
  /\ classifyFieldName "text" = Paragraph
  /\ Vocabulary.content_matches RichText "<h1>Hello</h1>" = true
  /\ classifyField "text" "<h1>Hello</h1>" (Some "unknown") None
     = Cat Paragraph
  /\ classifyField "text" "<h1>Hello</h1>" (Some "unknown") None
     <> Cat RichText
  /\ Vocabulary.content_matches RichText "buy [<b>]" = true
  /\ classifyField "title" "buy [<b>]" None None = Cat Heading.
Proof. repeat split; try reflexivity. vm_compute. discriminate. Qed.

End ClassifierFacts.

(** ** Datasource fields *)

Section ConvertFacts.

Local Open Scope list_scope.

Variable ToString : JsVal -> string.
Variable JSON_stringify : JsVal -> string.

Lemma finish_type (name fieldValue : string) (fieldType : JsVal)
      (r : RawFieldInfo) :
  finish ToString name fieldValue fieldType = Returned (Some r) ->
  raw_type r = fieldType.
Proof.
  unfold finish.
  repeat match goal with
         | |- context [if ?b then _ else _] => destruct b
         end;
    intros H; inversion H; reflexivity.
Qed.

Lemma link_block_type (name : string) (actualValue : JsVal)
      (parsed : option ParsedLink) (r : RawFieldInfo) :
  link_block ToString name actualValue parsed = Some (Returned (Some r)) ->
  raw_type r = JStr "Link".
Proof.
  unfold link_block.
  destruct (match parsed with
            | Some p => _
            | None => _
            end) as [[linkText linkUrl] linkTitle].
  repeat match goal with
         | |- context [if ?b then _ else _] => destruct b
         | |- context [match ?v with JStr _ => _ | _ => _ end] => destruct v
         end;
    intros H; inversion H; reflexivity.
Qed.

Lemma image_branch_link_name (name : string) (actualValue : JsVal) :
  isLinkFieldByName name = true -> image_branch name actualValue = false.
Proof.
  intros H. unfold image_branch. rewrite H. simpl.
  now rewrite andb_false_r.
Qed.

Lemma js_or_string (a b : JsVal) (s : string) :
  js_or a b = JStr s -> typeof_object b = true -> a = JStr s /\ s <> EmptyString.
Proof.
  unfold js_or. destruct (js_truthy a) eqn:E; intros H Hb.
  - subst a. split; trivial. simpl in E. now apply truthy_true.
  - subst b. discriminate.
Qed.

(** C7, as the code has it.  A field whose name is link-like never enters
    the image branch; the object returned for it has type "Image" only when
    [jsonValue.value] is a string and [jsonValue.type] is itself "Image",
    the declared type then being passed through. *)
Theorem convertDatasourceField_link_name :
  forall (field : DatasourceField),
    isLinkFieldByName (ds_name field) = true ->
    (forall actualValue,
        image_branch (ds_name field) actualValue = false)
    /\
    (forall r,
        convertDatasourceFieldToComponentField ToString JSON_stringify field
        = Returned (Some r) ->
        raw_type r = JStr "Image" ->
        exists s,
          prop (ds_jsonValue field) "value" = JStr s
          /\ s <> EmptyString
          /\ prop (ds_jsonValue field) "type" = JStr "Image").
Proof.
  intros [name value jsonValue] Hname. cbn [ds_name ds_jsonValue] in *.
  split; [intros; now apply image_branch_link_name|].
  intros r. unfold convertDatasourceFieldToComponentField.
  cbn [ds_name ds_value ds_jsonValue].
  rewrite (image_branch_link_name name _ Hname).
  destruct (startsWith name "__"); [discriminate|].
  destruct (negb (js_truthy value) && negb (js_truthy jsonValue))%bool;
    [discriminate|].
  destruct (js_truthy jsonValue && typeof_object jsonValue)%bool eqn:Ejson.
  - apply andb_true_iff in Ejson. destruct Ejson as [_ Hobj].
    destruct (if link_branch name _ _ then _ else None) as [outcome|] eqn:El.
    + destruct (link_branch name _ _); [|discriminate].
      intros -> Hty. rewrite (link_block_type _ _ _ _ El) in Hty. discriminate.
    + destruct (js_or (prop jsonValue "value") jsonValue) as [| | | |s| |] eqn:Ea;
        intros H Hty; apply finish_type in H; rewrite H in Hty;
        try discriminate.
      destruct (js_or_string _ _ _ Ea Hobj) as [Hv Hs].
      exists s. repeat split; trivial.
      unfold js_or in Hty.
      destruct (js_truthy (prop jsonValue "type")); [exact Hty | discriminate].
  - destruct (js_truthy value).
    + destruct (link_xml_of value) as [v|].
      * destruct (parseSitecoreLinkXML v);
          intros H Hty; apply finish_type in H; rewrite H in Hty; discriminate.
      * destruct value; intros H Hty; apply finish_type in H;
          rewrite H in Hty; discriminate.
    + intros H Hty; apply finish_type in H; rewrite H in Hty; discriminate.
Qed.

End ConvertFacts.

Section ConvertSamples.

Local Open Scope list_scope.

Lemma convertDatasourceField_link_name_witness :
  image_branch "Link2"
               (JObj [ ("src", JStr "/media/banner.png");
                       ("alt", JStr "Banner") ])
  = false
  /\ (forall r,
         convertDatasourceFieldToComponentField
           Samples.sample_ToString Samples.sample_stringify
           Samples.link_named_src
         = Returned (Some r) ->
         raw_type r = JStr "Image" ->
         exists s,
           prop (ds_jsonValue Samples.link_named_src) "value" = JStr s
           /\ s <> EmptyString
           /\ prop (ds_jsonValue Samples.link_named_src) "type" = JStr "Image").
Proof.
  split.
  - apply (convertDatasourceField_link_name
             Samples.sample_ToString Samples.sample_stringify
             Samples.link_named_src).
    reflexivity.
  - apply (convertDatasourceField_link_name
             Samples.sample_ToString Samples.sample_stringify
             Samples.link_named_src).
    reflexivity.
Defined.

(** C7, as the specification states it, fails on a field named "Link1"
    whose [jsonValue] wraps a string and declares the type "Image": the
    object returned has type "Image", although the image branch is not
    entered (the value is not the "Alt: ... | Src: ..." encoding). *)
Lemma convertDatasourceField_link_name_typed_Image :
  isLinkFieldByName (ds_name Samples.link_named_image) = true
  /\ has_prop (ds_jsonValue Samples.link_named_image) "src" = true
  /\ convertDatasourceFieldToComponentField
       Samples.sample_ToString Samples.sample_stringify
       Samples.link_named_image
     = Returned (Some {| raw_name := "Link1";
                         raw_value := "Banner";
                         raw_type := JStr "Image";
                         raw_category := Cat Image |}).
Proof. repeat split. Qed.

End ConvertSamples.

(** ** The whole scan *)

Section Pipeline.

Local Open Scope list_scope.

Variable url_parses : string -> bool.

(** Of the page content, the scan reads the name only. *)
Lemma scanPageContent_page_name (pageContent pageContent' : PageContent)
      (semanticItems : list SemanticTextItem) :
  page_name pageContent = page_name pageContent' ->
  scanPageContent url_parses pageContent semanticItems
  = scanPageContent url_parses pageContent' semanticItems.
Proof.
  intros H. unfold scanPageContent, extractMetadata. now rewrite H.
Qed.

End Pipeline.


(* ================================================================== *)
(** * Further properties of the code *)

(** ** Search and grouping *)

Section SearchFacts.

Local Open Scope list_scope.

Import SemanticSearch.

Lemma lower_idem (c : ascii) : lower (lower c) = lower c.
Proof. destruct c as [[] [] [] [] [] [] [] []]; reflexivity. Qed.

Lemma is_space_lower (c : ascii) : is_space (lower c) = is_space c.
Proof. destruct c as [[] [] [] [] [] [] [] []]; reflexivity. Qed.

Lemma toLowerCase_idem (s : string) :
  toLowerCase (toLowerCase s) = toLowerCase s.
Proof.
  induction s as [|c s IH]; simpl; trivial. now rewrite lower_idem, IH.
Qed.

Lemma toLowerCase_is_empty (s : string) :
  is_empty (toLowerCase s) = is_empty s.
Proof. now destruct s. Qed.

Lemma toLowerCase_length (s : string) : length (toLowerCase s) = length s.
Proof. induction s as [|c s IH]; simpl; congruence. Qed.

Lemma trimStart_toLowerCase (s : string) :
  trimStart (toLowerCase s) = toLowerCase (trimStart s).
Proof.
  induction s as [|c s IH]; simpl; trivial.
  rewrite is_space_lower. now destruct (is_space c).
Qed.

Lemma trimEnd_toLowerCase (s : string) :
  trimEnd (toLowerCase s) = toLowerCase (trimEnd s).
Proof.
  induction s as [|c s IH]; simpl; trivial.
  rewrite is_space_lower, IH, toLowerCase_is_empty.
  now destruct (is_space c && is_empty (trimEnd s))%bool.
Qed.

Lemma trim_toLowerCase (s : string) :
  trim (toLowerCase s) = toLowerCase (trim s).
Proof. unfold trim. now rewrite trimStart_toLowerCase, trimEnd_toLowerCase. Qed.

(** X1. The letter case of the query does not matter: searching for a
    query and for its lower-case form give the same items. *)
Theorem filterBySearch_query_case :
  forall (items : list SemanticTextItem) (query : string),
    filterBySearch items (toLowerCase query) = filterBySearch items query.
Proof.
  intros items query. unfold filterBySearch, truthy.
  rewrite toLowerCase_is_empty, trim_toLowerCase, toLowerCase_length,
    toLowerCase_idem.
  reflexivity.
Qed.

Lemma filter_idem (A : Type) (p : A -> bool) (l : list A) :
  filter p (filter p l) = filter p l.
Proof.
  induction l as [|x l IH]; simpl; trivial.
  destruct (p x) eqn:E; simpl; [rewrite E|]; now rewrite ?IH.
Qed.

(** X2. Searching is idempotent, keeps the order of the items, and every
    item it keeps was given: the result is the items, filtered. *)
Theorem filterBySearch_idempotent :
  forall (items : list SemanticTextItem) (query : string),
    filterBySearch (filterBySearch items query) query
    = filterBySearch items query
    /\ (exists keep, filterBySearch items query = filter keep items)
    /\ incl (filterBySearch items query) items.
Proof.
  intros items query. unfold filterBySearch.
  destruct (negb (truthy query) || Nat.eqb (length (trim query)) 0)%bool.
  - repeat split.
    + exists (fun _ => true). induction items as [|x l IH]; simpl; congruence.
    + apply incl_refl.
  - repeat split.
    + apply filter_idem.
    + now eexists.
    + intros x Hx. apply filter_In in Hx. tauto.
Qed.

Lemma push_keys (category : SemanticCategory) (item : SemanticTextItem)
      (grouped : Grouped) :
  map fst (push category item grouped) = map fst grouped.
Proof.
  induction grouped as [|[key array] rest IH]; simpl; trivial.
  destruct (SemanticCategory_eqb key category); simpl; congruence.
Qed.

Lemma SemanticCategory_eqb_eq (a b : SemanticCategory) :
  SemanticCategory_eqb a b = true <-> a = b.
Proof. destruct a, b; simpl; split; congruence. Qed.

Lemma SemanticCategory_eqb_sym (a b : SemanticCategory) :
  SemanticCategory_eqb a b = SemanticCategory_eqb b a.
Proof. now destruct a, b. Qed.

Lemma group_push (category c : SemanticCategory) (item : SemanticTextItem)
      (grouped : Grouped) :
  group (push category item grouped) c
  = if SemanticCategory_eqb category c
    then option_map (fun array => array ++ [item]) (group grouped c)
    else group grouped c.
Proof.
  induction grouped as [|[key array] rest IH]; simpl.
  - now destruct (SemanticCategory_eqb category c).
  - destruct (SemanticCategory_eqb key category) eqn:Ek; simpl.
    + apply SemanticCategory_eqb_eq in Ek. subst key.
      now destruct (SemanticCategory_eqb category c).
    + rewrite IH. destruct (SemanticCategory_eqb key c) eqn:Ec; trivial.
      apply SemanticCategory_eqb_eq in Ec. subst key.
      now rewrite SemanticCategory_eqb_sym, Ek.
Qed.

Lemma group_fold (items : list SemanticTextItem) (c : SemanticCategory) :
  forall grouped,
    group (fold_left (fun grouped item => push (item_category item) item grouped)
                     items grouped) c
    = option_map
        (fun array => array ++ filter (SeoScanner.category_is c) items)
        (group grouped c).
Proof.
  induction items as [|item items IH]; intros grouped; simpl.
  - destruct (group grouped c); simpl; trivial. now rewrite app_nil_r.
  - rewrite IH, group_push. unfold SeoScanner.category_is.
    destruct (SemanticCategory_eqb (item_category item) c);
      destruct (group grouped c); simpl; trivial.
    now rewrite <- app_assoc.
Qed.

Lemma keys_fold (items : list SemanticTextItem) :
  forall grouped,
    map fst (fold_left
               (fun grouped item => push (item_category item) item grouped)
               items grouped)
    = map fst grouped.
Proof.
  induction items as [|item items IH]; intros grouped; simpl; trivial.
  now rewrite IH, push_keys.
Qed.

(** X3. [groupByCategory] has the nine categories as keys, in the order of
    the literal, and the group of a category is the items of that
    category, in their order. *)
Theorem groupByCategory_groups :
  forall (items : list SemanticTextItem),
    map fst (groupByCategory items)
    = [Heading; Paragraph; RichText; Label; Link; Button; Image; List; Other]
    /\ forall c : SemanticCategory,
        group (groupByCategory items) c
        = Some (filter (SeoScanner.category_is c) items).
Proof.
  intros items. unfold groupByCategory. split.
  - now rewrite keys_fold.
  - intros c. rewrite group_fold. now destruct c.
Qed.

End SearchFacts.

(** ** The component tree *)

Section TreeFacts.

Local Open Scope list_scope.

Import ComponentTree.

Lemma traverse_eq (c : ComponentNode) (flat : list ComponentNode) :
  traverse c flat
  = fold_left (fun flat child => traverse child flat)
              (node_children c) (flat ++ [c]).
Proof. destruct c; reflexivity. Qed.

Lemma traverse_acc (c : ComponentNode) :
  forall flat, traverse c flat = flat ++ traverse c [].
Proof.
  induction c as [c IH] using ComponentNode_children_ind. intros flat.
  rewrite (traverse_eq c flat), (traverse_eq c []).
  rewrite !(fold_left_append _ _ (fun child flat => traverse child flat)); trivial.
  simpl. now rewrite <- app_assoc.
Qed.

Lemma traverse_nodes (c : ComponentNode) :
  traverse c [] = c :: flat_map (fun child => traverse child []) (node_children c).
Proof.
  rewrite traverse_eq.
  rewrite (fold_left_append _ _ (fun child flat => traverse child flat)).
  - reflexivity.
  - apply Forall_forall. intros child _ flat. apply traverse_acc.
Qed.

Lemma flattenComponentTree_nodes (components : list ComponentNode) :
  flattenComponentTree components
  = flat_map (fun c => traverse c []) components.
Proof.
  unfold flattenComponentTree.
  rewrite (fold_left_append _ _ (fun c flat => traverse c flat)).
  - reflexivity.
  - apply Forall_forall. intros c _ flat. apply traverse_acc.
Qed.

Lemma find_app (A : Type) (p : A -> bool) (l l' : list A) :
  find p (l ++ l')
  = match find p l with Some x => Some x | None => find p l' end.
Proof.
  induction l as [|x l IH]; simpl; trivial. now destruct (p x).
Qed.

Lemma find_flat_map (A B : Type) (p : B -> bool) (f : A -> list B)
      (l : list A) :
  find p (flat_map f l) = first_found (fun x => find p (f x)) l.
Proof.
  induction l as [|x l IH]; simpl; trivial.
  rewrite find_app, IH. reflexivity.
Qed.

Lemma first_found_ext (A B : Type) (f g : A -> option B) (l : list A) :
  Forall (fun x => f x = g x) l -> first_found f l = first_found g l.
Proof.
  induction 1 as [|x l Hx _ IH]; simpl; trivial. now rewrite Hx, IH.
Qed.

Lemma findComponent_eq (id : string) (c : ComponentNode) :
  findComponent id c
  = if String.eqb (node_id c) id then Some c
    else first_found (findComponent id) (node_children c).
Proof. destruct c; reflexivity. Qed.

Lemma findComponent_find (id : string) (c : ComponentNode) :
  findComponent id c
  = find (fun c' => String.eqb (node_id c') id) (traverse c []).
Proof.
  induction c as [c IH] using ComponentNode_children_ind.
  rewrite findComponent_eq, traverse_nodes. simpl.
  destruct (String.eqb (node_id c) id); trivial.
  rewrite find_flat_map. now apply first_found_ext.
Qed.

(** X4. [findComponentById] returns the first component, in the order of
    [flattenComponentTree] (a component before its children, children in
    order), whose id is the one asked for, and [null] when the tree has
    none. *)
Theorem findComponentById_first :
  forall (components : list ComponentNode) (id : string),
    findComponentById components id
    = find (fun c => String.eqb (node_id c) id)
           (flattenComponentTree components).
Proof.
  intros components id. unfold findComponentById.
  rewrite flattenComponentTree_nodes, find_flat_map.
  apply first_found_ext, Forall_forall. intros c _.
  apply findComponent_find.
Qed.

Lemma traverse_reach (c : ComponentNode) :
  forall c', In c' (traverse c []) <-> exists ancestors, Vocabulary.reach c ancestors c'.
Proof.
  induction c as [c IH] using ComponentNode_children_ind. intros c'.
  rewrite traverse_nodes. rewrite Forall_forall in IH. split.
  - intros [<- | Hin].
    + exists []. constructor.
    + apply in_flat_map in Hin. destruct Hin as (child & Hchild & Hin).
      apply (IH child Hchild) in Hin. destruct Hin as (anc & Hr).
      exists (c :: anc). econstructor; eassumption.
  - intros (anc & Hr). inversion Hr as [|c0 child anc' c0' Hchild Hr']; subst.
    + now left.
    + right. apply in_flat_map. exists child. split; trivial.
      apply (IH child Hchild). now exists anc'.
Qed.

(** X5. The components of [flattenComponentTree] are exactly the
    components of the tree: the given ones and their descendants. *)
Theorem flattenComponentTree_components :
  forall (components : list ComponentNode) (c : ComponentNode),
    In c (flattenComponentTree components)
    <-> exists root ancestors,
          In root components /\ Vocabulary.reach root ancestors c.
Proof.
  intros components c. rewrite flattenComponentTree_nodes, in_flat_map.
  split.
  - intros (root & Hroot & Hin). apply traverse_reach in Hin.
    destruct Hin as (anc & Hr). now exists root, anc.
  - intros (root & anc & Hroot & Hr). exists root. split; trivial.
    apply traverse_reach. now exists anc.
Qed.

Lemma processComponent_metadata (c : ComponentNode) :
  forall path,
    map item_metadata (processComponent c path [])
    = flat_map (fun c' => map (metadata_of c') (node_fields c'))
               (traverse c []).
Proof.
  induction c as [c IH] using ComponentNode_children_ind. intros path.
  rewrite processComponent_items, traverse_nodes. simpl.
  rewrite map_app, map_map. f_equal.
  rewrite Forall_forall in IH.
  induction (node_children c) as [|child rest IHrest]; simpl; trivial.
  rewrite map_app, flat_map_app, IH by now left.
  f_equal. apply IHrest. intros x Hx. apply IH. now right.
Qed.

(** X6. The items of [extractSemanticItems] follow the order of
    [flattenComponentTree]: component by component, each component's
    fields in their order, one item per field. *)
Theorem extractSemanticItems_order :
  forall (pageContent : PageContent),
    map item_metadata (extractSemanticItems pageContent)
    = flat_map (fun c => map (metadata_of c) (node_fields c))
               (flattenComponentTree (page_components pageContent))
    /\ List.length (extractSemanticItems pageContent)
       = list_sum (map (fun c => List.length (node_fields c))
                       (flattenComponentTree (page_components pageContent))).
Proof.
  intros pageContent.
  assert (H : map item_metadata (extractSemanticItems pageContent)
              = flat_map (fun c => map (metadata_of c) (node_fields c))
                  (flattenComponentTree (page_components pageContent))).
  { rewrite extractSemanticItems_items, flattenComponentTree_nodes.
    induction (page_components pageContent) as [|c rest IH]; simpl; trivial.
    rewrite map_app, flat_map_app, processComponent_metadata. now f_equal. }
  split; trivial.
  rewrite <- (length_map item_metadata), H.
  generalize (flattenComponentTree (page_components pageContent)).
  intros l. induction l as [|c rest IH]; simpl; trivial.
  rewrite length_app, length_map. now f_equal.
Qed.

Lemma array_includes_lower (s : string) :
  isSystemField (toLowerCase s) = isSystemField s.
Proof. unfold isSystemField. now rewrite toLowerCase_idem. Qed.

(** X7. [isSystemField] ignores the letter case of the name, and so never
    holds for "displayName", however it is written: the table lists it
    with a capital N, and the name is compared in lower case. *)
Theorem isSystemField_displayName :
  forall (fieldName : string),
    isSystemField (toLowerCase fieldName) = isSystemField fieldName
    /\ (toLowerCase fieldName = "displayname" ->
        isSystemField fieldName = false)
    /\ (isSystemField fieldName = true <->
        In (toLowerCase fieldName)
           [ "__typename"; "id"; "name"; "template"; "path"; "url";
             "children"; "parent"; "created"; "updated"; "revision";
             "version" ]).
Proof.
  intros fieldName. split; [apply array_includes_lower|].
  unfold isSystemField, array_includes, systemFields. split.
  - intros ->. reflexivity.
  - cbn [existsb]. rewrite !orb_true_iff. cbn [In].
    rewrite !String.eqb_eq.
    assert (Hd : toLowerCase fieldName <> "displayName").
    { intros E. pose proof (toLowerCase_idem fieldName) as H.
      rewrite E in H. discriminate. }
    split.
    + intros H. repeat (destruct H as [H | H]; [auto 20|]);
        try discriminate; try (now elim Hd); auto 20.
    + intros H. repeat (destruct H as [H | H]; [rewrite <- H; auto 20|]).
      destruct H.
Qed.

End TreeFacts.

(** ** Grade and colour *)

Section DisplayFacts.

Local Open Scope Q_scope.

Import ScoreDisplay.

Lemma geb_weaken (score a b : number) :
  b <= a -> geb score a = true -> geb score b = true.
Proof.
  unfold geb, leb. intros Hab H. apply Qle_bool_iff in H.
  apply Qle_bool_iff. now apply Qle_trans with a.
Qed.

(** X8. The colour of a score agrees with its grade: the good colour goes
    with the grades A+ and A, the moderate one with B and C, the poor one
    with D and F. *)
Theorem getScoreColor_grade :
  forall (score : number),
    (getScoreColor score = "#8629FF"%string <->
     getSEOGrade score = "A+"%string \/ getSEOGrade score = "A"%string)
    /\ (getScoreColor score = "#6b7280"%string <->
        getSEOGrade score = "B"%string \/ getSEOGrade score = "C"%string)
    /\ (getScoreColor score = "#FF1F38"%string <->
        getSEOGrade score = "D"%string \/ getSEOGrade score = "F"%string).
Proof.
  intros score. unfold getScoreColor, getSEOGrade.
  pose proof (geb_weaken score 90 80 ltac:(discriminate)) as H98.
  pose proof (geb_weaken score 80 70 ltac:(discriminate)) as H87.
  pose proof (geb_weaken score 70 60 ltac:(discriminate)) as H76.
  pose proof (geb_weaken score 60 50 ltac:(discriminate)) as H65.
  destruct (geb score 90); [rewrite H98 by trivial|];
    (destruct (geb score 80); [rewrite ?H87 in * by trivial|]);
    (destruct (geb score 70); [rewrite ?H76 in * by trivial|]);
    (destruct (geb score 60); [rewrite ?H65 in * by trivial|]);
    try destruct (geb score 50);
    repeat split; intros H; try discriminate; auto;
    destruct H as [H | H]; discriminate.
Qed.

End DisplayFacts.

(** ** Names from datasource paths *)

Section DatasourceNameFacts.

Local Open Scope list_scope.

Import DatasourceName.

Import Helpers.

Lemma strip_spec (w s rest : string) :
  strip w s = Some rest -> s = (w ++ rest)%string.
Proof.
  revert s. induction w as [|a w IH]; intros [|c s]; simpl; intros H;
    try discriminate; try (now inversion H).
  destruct (Ascii.eqb_spec a c) as [->|]; [|discriminate].
  now rewrite (IH _ H).
Qed.

Lemma run_lit (A : Type) (w s : string) (cap : option string) (k : cont A) :
  run (lit w) s cap k
  = match strip w s with Some rest => k rest cap | None => None end.
Proof.
  revert s. induction w as [|a w IH]; intros s; simpl.
  - reflexivity.
  - destruct s as [|c s]; trivial. unfold ch.
    destruct (Ascii.eqb a c); trivial.
Qed.

Lemma length_append (a b : string) :
  length (a ++ b)%string = length a + length b.
Proof. induction a as [|c a IH]; simpl; congruence. Qed.

Lemma substring_append (w rest : string) :
  String.substring (length w) (length rest) (w ++ rest)%string = rest.
Proof.
  induction w as [|a w IH]; simpl; trivial.
  induction rest as [|c rest IHr]; simpl; trivial. now f_equal.
Qed.

Lemma replace_at_start_lit (w s : string) :
  replace_at_start (lit w) "" s
  = match strip w s with Some rest => rest | None => s end.
Proof.
  unfold replace_at_start, exec_here. rewrite run_lit.
  destruct (strip w s) as [rest|] eqn:E; trivial.
  apply strip_spec in E. subst s. simpl.
  rewrite length_append.
  replace (length w + length rest - (length w + length rest - length rest))
    with (length rest) by lia.
  replace (length w + length rest - length rest) with (length w) by lia.
  apply substring_append.
Qed.

Lemma strip_before (w : string) (sep : ascii) :
  lacks sep w = true ->
  forall dir tail rest,
    strip w (dir ++ String sep tail)%string = Some rest ->
    exists d, rest = (d ++ String sep tail)%string.
Proof.
  induction w as [|a w IH]; simpl; intros Hw dir tail rest H.
  - inversion H. now exists dir.
  - unfold lacks in Hw. simpl in Hw. apply andb_true_iff in Hw.
    destruct Hw as [Ha Hw]. destruct dir as [|c dir]; simpl in H.
    + rewrite (proj1 (negb_true_iff _) Ha) in H. discriminate.
    + destruct (Ascii.eqb a c); [|discriminate]. now apply (IH Hw dir tail).
Qed.

Lemma rev_string_cons (c : ascii) (cur : list ascii) (s : string) :
  (rev_string (c :: cur) ++ s)%string = (rev_string cur ++ String c s)%string.
Proof.
  unfold rev_string. simpl.
  induction (rev cur) as [|x l IH]; simpl; trivial. now rewrite IH.
Qed.

Lemma split_char_aux_lacks (sep : ascii) (s : string) :
  lacks sep s = true ->
  forall cur, split_char_aux sep cur s = [(rev_string cur ++ s)%string].
Proof.
  unfold lacks. induction s as [|c s IH]; simpl; intros H cur.
  - f_equal. induction (rev_string cur); simpl; congruence.
  - apply andb_true_iff in H. destruct H as [Hc Hs].
    rewrite (proj1 (negb_true_iff _) Hc), (IH Hs). now rewrite rev_string_cons.
Qed.

Lemma split_char_aux_nonempty (sep : ascii) (s : string) (cur : list ascii) :
  split_char_aux sep cur s <> [].
Proof.
  revert cur. induction s as [|c s IH]; intros cur; simpl; try discriminate.
  destruct (Ascii.eqb c sep); [discriminate | apply IH].
Qed.

Lemma split_char_aux_last (sep : ascii) (dir tail : string) :
  forall cur,
    last (split_char_aux sep cur (dir ++ String sep tail)%string) EmptyString
    = last (split_char_aux sep [] tail) EmptyString.
Proof.
  induction dir as [|c dir IH]; intros cur; simpl.
  - rewrite Ascii.eqb_refl.
    pose proof (split_char_aux_nonempty sep tail []) as Hne.
    now destruct (split_char_aux sep [] tail).
  - destruct (Ascii.eqb c sep); [|apply IH].
    pose proof (split_char_aux_nonempty sep (dir ++ String sep tail) []) as Hne.
    rewrite <- (IH []).
    now destruct (split_char_aux sep [] (dir ++ String sep tail)).
Qed.

Lemma split_char_aux_segments (sep : ascii) (s : string) :
  forall cur,
    forallb (fun x => negb (Ascii.eqb x sep)) cur = true ->
    Forall (fun segment => lacks sep segment = true)
           (split_char_aux sep cur s).
Proof.
  assert (Hrev : forall cur,
             forallb (fun x => negb (Ascii.eqb x sep)) cur = true ->
             lacks sep (rev_string cur) = true).
  { intros cur H. unfold lacks, rev_string.
    rewrite list_ascii_of_string_of_list_ascii.
    apply forallb_forall. intros x Hx. apply in_rev in Hx.
    now apply (proj1 (forallb_forall _ _) H). }
  induction s as [|c s IH]; intros cur Hcur; simpl.
  - constructor; auto.
  - destruct (Ascii.eqb c sep) eqn:E.
    + constructor; auto.
    + apply IH. simpl. now rewrite E.
Qed.

Lemma or_else_empty (s : string) : or_else s "" = s.
Proof. now destruct s. Qed.

(** X9. The name taken from a datasource path is its last segment: what
    follows the last slash.  It never contains a slash, and is empty for a
    path that ends in one. *)
Theorem extractComponentNameFromDatasource_last_segment :
  forall (datasourcePath dir name : string),
    lacks "/"%char name = true ->
    extractComponentNameFromDatasource (dir ++ "/" ++ name)%string = name
    /\ lacks "/"%char (extractComponentNameFromDatasource datasourcePath)
       = true.
Proof.
  intros path dir name Hname. split.
  - unfold extractComponentNameFromDatasource.
    replace (truthy (dir ++ "/" ++ name)%string) with true
      by (destruct dir; reflexivity).
    cbn [negb]. rewrite replace_at_start_lit, or_else_empty.
    assert (Hd : exists d,
               match strip "local:" (dir ++ "/" ++ name)%string with
               | Some rest => rest
               | None => (dir ++ "/" ++ name)%string
               end = (d ++ String "/"%char name)%string).
    { destruct (strip "local:" (dir ++ "/" ++ name)%string) eqn:E.
      - apply (strip_before "local:" "/"%char eq_refl dir name s E).
      - now exists dir. }
    destruct Hd as (d & ->). unfold split_char.
    rewrite split_char_aux_last, (split_char_aux_lacks "/"%char name Hname).
    reflexivity.
  - unfold extractComponentNameFromDatasource.
    destruct (negb (truthy path)); [reflexivity|].
    rewrite or_else_empty. unfold split_char.
    pose proof (split_char_aux_segments "/"%char
                  (replace_at_start (lit "local:") "" path) [] eq_refl) as H.
    pose proof (split_char_aux_nonempty "/"%char
                  (replace_at_start (lit "local:") "" path) []) as Hne.
    induction H as [|segment rest Hs _ IH]; [now elim Hne|].
    destruct rest as [|segment' rest']; [exact Hs|].
    apply IH. discriminate.
Qed.

Lemma extractComponentNameFromDatasource_last_segment_witness :
  extractComponentNameFromDatasource "local:/Data/HeroST/HeroST 1"
  = "HeroST 1"
  /\ lacks "/"%char
           (extractComponentNameFromDatasource "local:/Data/HeroST") = true.
Proof.
  apply (extractComponentNameFromDatasource_last_segment
           "local:/Data/HeroST" "local:/Data/HeroST" "HeroST 1").
  reflexivity.
Defined.

End DatasourceNameFacts.

(** ** Headings *)

Section HeadingFacts.

Local Open Scope list_scope.

Import Helpers.

Lemma heading_step_skip (headings : PageHeadings) (item : SemanticTextItem) :
  truthy (heading_text item) = false -> heading_step headings item = headings.
Proof.
  intros H. unfold heading_step. fold (heading_text item). now rewrite H.
Qed.

Lemma fold_heading_step (items : list SemanticTextItem) :
  forall headings,
    fold_left heading_step items headings
    = fold_left heading_step
                (filter (fun item => truthy (heading_text item)) items)
                headings.
Proof.
  induction items as [|item items IH]; intros headings; simpl; trivial.
  destruct (truthy (heading_text item)) eqn:E; simpl.
  - apply IH.
  - rewrite (heading_step_skip headings item E). apply IH.
Qed.

Lemma heading_step_all (headings : PageHeadings) (item : SemanticTextItem) :
  truthy (heading_text item) = true ->
  h_all (heading_step headings item) = h_all headings ++ [heading_text item]
  /\ (filed headings <= List.length (h_all headings) ->
      filed (heading_step headings item)
      <= List.length (h_all (heading_step headings item)))
  /\ h_h1 (heading_step headings item)
     = (if opt_truthy (h_h1 headings) then h_h1 headings
        else if h1_candidate item then Some (heading_text item)
             else h_h1 headings).
Proof.
  intros Ht. unfold heading_step, h1_candidate, filed.
  fold (heading_text item). rewrite Ht. cbn [negb].
  destruct (opt_truthy (h_h1 headings)) eqn:E1;
    destruct (includes (fieldName_lower item) "h1");
    destruct (String.eqb (fieldName_lower item) "title");
    destruct (String.eqb (fieldName_lower item) "heading");
    destruct (includes (fieldName_lower item) "h2");
    destruct (includes (fieldName_lower item) "h3");
    cbn [negb orb andb h_all h_h1 h_h2 h_h3 or_nil opt_truthy];
    rewrite ?E1, ?Ht; repeat split; trivial;
    rewrite ?length_app; cbn [List.length]; try lia.
Qed.

Lemma fold_heading_all (items : list SemanticTextItem) :
  Forall (fun item => truthy (heading_text item) = true) items ->
  forall headings,
    h_all (fold_left heading_step items headings)
    = h_all headings ++ map heading_text items
    /\ (filed headings <= List.length (h_all headings) ->
        filed (fold_left heading_step items headings)
        <= List.length (h_all (fold_left heading_step items headings)))
    /\ h_h1 (fold_left heading_step items headings)
       = (if opt_truthy (h_h1 headings) then h_h1 headings
          else match find h1_candidate items with
               | Some item => Some (heading_text item)
               | None => h_h1 headings
               end).
Proof.
  induction 1 as [|item items Ht _ IH]; intros headings; simpl.
  - rewrite app_nil_r. repeat split; trivial.
    now destruct (opt_truthy (h_h1 headings)).
  - destruct (heading_step_all headings item Ht) as (Ha & Hf & H1).
    destruct (IH (heading_step headings item)) as (IHa & IHf & IH1).
    split; [|split].
    + now rewrite IHa, Ha, <- app_assoc.
    + intros H. apply IHf, Hf, H.
    + rewrite IH1, H1.
      destruct (opt_truthy (h_h1 headings)) eqn:E1; [now rewrite E1|].
      destruct (h1_candidate item).
      * cbn [opt_truthy]. now rewrite Ht.
      * now rewrite E1.
Qed.

Lemma headings_read_text (items : list SemanticTextItem) :
  Forall (fun item => truthy (heading_text item) = true) (headings_read items).
Proof.
  apply Forall_forall. intros item H. unfold headings_read in H.
  apply filter_In in H. tauto.
Qed.

Lemma extractHeadings_read (items : list SemanticTextItem) :
  extractHeadings items
  = fold_left heading_step (headings_read items)
              {| h_h1 := None; h_h2 := Some []; h_h3 := Some []; h_all := [] |}.
Proof. unfold extractHeadings, headings_read. apply fold_heading_step. Qed.

(** X10. [headings.all] lists the plain text of every Heading item that
    has some, in the order of the items; the texts filed under h1, h2 and
    h3 together are never more than that. *)
Theorem extractHeadings_all :
  forall (semanticItems : list SemanticTextItem),
    h_all (extractHeadings semanticItems)
    = map heading_text (headings_read semanticItems)
    /\ filed (extractHeadings semanticItems)
       <= List.length (h_all (extractHeadings semanticItems)).
Proof.
  intros items. rewrite extractHeadings_read.
  destruct (fold_heading_all (headings_read items) (headings_read_text items)
              {| h_h1 := None; h_h2 := Some []; h_h3 := Some []; h_all := [] |})
    as (Ha & Hf & _).
  split; [exact Ha | apply Hf; unfold filed; simpl; lia].
Qed.

(** X11. The h1 of [extractHeadings] is the text of the first Heading item
    with text whose name hints at h1 ("h1" in it, or "title" or "heading"
    as a whole) or hints at neither h2 nor h3; there is no h1 when there is
    no such item. *)
Theorem extractHeadings_h1 :
  forall (semanticItems : list SemanticTextItem),
    h_h1 (extractHeadings semanticItems)
    = option_map heading_text
                 (find h1_candidate (headings_read semanticItems)).
Proof.
  intros items. rewrite extractHeadings_read.
  destruct (fold_heading_all (headings_read items) (headings_read_text items)
              {| h_h1 := None; h_h2 := Some []; h_h3 := Some []; h_all := [] |})
    as (_ & _ & H1).
  rewrite H1. cbn [opt_truthy h_h1].
  now destruct (find h1_candidate (headings_read items)).
Qed.

End HeadingFacts.

(** ** Images, links and buckets *)

Section ImageLinkFacts.

Local Open Scope list_scope.

Import Helpers.

Variable url_parses : string -> bool.

Lemma extractImages_items (items : list SemanticTextItem) :
  extractImages items
  = flat_map
      (fun item =>
         if truthy (group1_trim (match_ re_src (item_text item)))
         then [image_of item (group1_trim (match_ re_alt (item_text item)))
                        (group1_trim (match_ re_src (item_text item)))]
         else [])
      (filter (category_is Image) items).
Proof.
  unfold extractImages.
  rewrite (fold_left_append _ _
             (fun item images =>
                if truthy (group1_trim (match_ re_src (item_text item)))
                then images
                     ++ [image_of item
                                  (group1_trim (match_ re_alt (item_text item)))
                                  (group1_trim (match_ re_src (item_text item)))]
                else images)).
  - reflexivity.
  - apply Forall_forall. intros item _ images.
    destruct (truthy (group1_trim (match_ re_src (item_text item))));
      simpl; trivial. now rewrite app_nil_r.
Qed.

(** X12. Every image of [extractImages] comes from an Image item whose
    text has a "Src:" part; its src is the trimmed text after it, which is
    not empty, and its alt is never left undefined. *)
Theorem extractImages_src_not_empty :
  forall (semanticItems : list SemanticTextItem) (image : PageImage),
    In image (extractImages semanticItems) ->
    exists item m,
      In item semanticItems /\ item_category item = Image
      /\ match_ re_src (item_text item) = Some m
      /\ img_src image = trim (group1 m)
      /\ img_src image <> EmptyString
      /\ trim (img_src image) = img_src image
      /\ img_alt image
         = Some (group1_trim (match_ re_alt (item_text item)))
      /\ img_id image = item_id item.
Proof.
  intros items image Hin. rewrite extractImages_items in Hin.
  apply in_flat_map in Hin. destruct Hin as (item & Hitem & Hin).
  apply filter_In in Hitem. destruct Hitem as [Hitem Hcat].
  destruct (match_ re_src (item_text item)) as [m|] eqn:Em; simpl in Hin;
    [|destruct Hin].
  destruct (truthy (trim (group1 m))) eqn:Et; simpl in Hin; [|destruct Hin].
  destruct Hin as [<- | []].
  exists item, m. simpl. repeat split; trivial.
  - now apply category_is_true.
  - now apply truthy_true.
  - apply trim_idem.
Qed.

Lemma startsWith_cons (s p : string) (c : ascii) :
  startsWith s (String c p) = true -> exists rest, s = String c rest.
Proof.
  unfold startsWith. destruct s as [|a s]; simpl; [discriminate|].
  destruct (ascii_dec c a) as [->|]; [|discriminate]. intros _. now exists s.
Qed.

Lemma trim_cons_nonspace (c : ascii) (s : string) :
  is_space c = false -> trim (String c s) <> EmptyString.
Proof.
  intros Hc. unfold trim. rewrite trimStart_cons, trimEnd_cons by exact Hc.
  discriminate.
Qed.

(** X13. Every link that [extractLinks] flags as a placeholder it also
    flags as broken, and the scorer does not count it as valid. *)
Theorem extractLinks_placeholder_is_broken :
  forall (semanticItems : list SemanticTextItem) (link : PageLink),
    In link (extractLinks url_parses semanticItems) ->
    link_isPlaceholder link = Some true ->
    link_isBroken link = Some true /\ is_validLink link = false.
Proof.
  intros items link Hin Hp.
  destruct (extractLinks_origin url_parses items link Hin)
    as (item & m & _ & _ & _ & Hne & ->).
  unfold link_of in *. cbn [link_isPlaceholder link_isBroken] in *.
  assert (Hb : detectBrokenLink url_parses (trim (group1 m)) = true).
  { inversion Hp as [Hp']. unfold detectBrokenLink.
    destruct (Nat.eqb (length (trim (trim (group1 m)))) 0);
      [now rewrite orb_true_r|].
    rewrite orb_false_r in Hp'. rewrite Hp'.
    now destruct (negb (truthy (trim (group1 m))) || false)%bool. }
  split; [now rewrite Hb|].
  unfold is_validLink. cbn [link_href link_isPlaceholder link_isBroken opt_true].
  rewrite Hb. cbn [negb]. now rewrite !andb_false_r.
Qed.

(** X14. A link whose href starts with "/", "./" or "../" and holds no
    "javascript:" placeholder is never flagged as broken or as a
    placeholder; and for an href without space, line feed or tab the
    verdict does not depend on the URL parser. *)
Theorem detectBrokenLink_relative :
  forall (href : string),
    ((startsWith href "/" || startsWith href "./" || startsWith href "../")%bool
     = true ->
     (includes href "javascript:void(0)" || includes href "javascript:;")%bool
     = false ->
     forall item text,
       link_isBroken (link_of url_parses item text href) = Some false
       /\ link_isPlaceholder (link_of url_parses item text href) = Some false)
    /\
    ((includes href " " || includes href SemanticClassifier.LF
      || includes href TAB)%bool = false ->
     detectBrokenLink url_parses href = detectBrokenLink (fun _ => false) href).
Proof.
  intros href. split.
  - intros Hrel Hjs item text.
    assert (Hc : exists c rest,
               href = String c rest /\ is_space c = false
               /\ Ascii.eqb c "#" = false /\ Ascii.eqb c "h" = false).
    { apply orb_true_iff in Hrel. destruct Hrel as [Hrel | Hrel];
        [apply orb_true_iff in Hrel; destruct Hrel as [Hrel | Hrel]|];
        apply startsWith_cons in Hrel; destruct Hrel as (rest & ->);
        eexists; eexists; repeat split. }
    destruct Hc as (c & rest & -> & Hsp & Hhash & Hh).
    assert (Ht : Nat.eqb (length (trim (String c rest))) 0 = false).
    { pose proof (trim_cons_nonspace c rest Hsp) as Hne.
      destruct (trim (String c rest)); [now elim Hne | reflexivity]. }
    assert (E1 : String.eqb (String c rest) "http://#" = false).
    { simpl. now rewrite Hh. }
    assert (E2 : String.eqb (String c rest) "#" = false).
    { simpl. now rewrite Hhash. }
    assert (E3 : startsWith (String c rest) "http://#" = false).
    { unfold startsWith. cbn -[ascii_dec].
      destruct (ascii_dec "h" c) as [<-|]; [discriminate | reflexivity]. }
    unfold link_of, detectBrokenLink.
    cbn [link_isBroken link_isPlaceholder].
    rewrite Ht, E1, E2, E3, Hjs, Hrel. now split.
  - intros Hws. unfold detectBrokenLink. rewrite Hws.
    now destruct (url_parses href).
Qed.

End ImageLinkFacts.

(** ** Per-component buckets *)

Section BucketFacts.

Local Open Scope list_scope.

Import Helpers.

Variable url_parses : string -> bool.

Lemma component_item_id (item : SemanticTextItem) (c : ComponentContent) :
  cc_componentId (component_item item c) = cc_componentId c.
Proof.
  unfold component_item.
  destruct (item_category item); trivial;
    repeat match goal with
           | |- context [if ?b then _ else _] => destruct b
           end; reflexivity.
Qed.

Lemma has_keyed (componentId : string) (m : list ComponentContent) :
  has componentId m = existsb (keyed componentId) m.
Proof. induction m as [|c m IH]; simpl; trivial. now rewrite IH. Qed.

Lemma existsb_find (A : Type) (p : A -> bool) (l : list A) :
  existsb p l = match find p l with Some _ => true | None => false end.
Proof.
  induction l as [|x l IH]; simpl; trivial. destruct (p x); simpl; trivial.
Qed.

Lemma find_snoc (A : Type) (p : A -> bool) (l : list A) (x : A) :
  find p (l ++ [x])
  = match find p l with
    | Some y => Some y
    | None => if p x then Some x else None
    end.
Proof.
  induction l as [|y l IH]; simpl; trivial. destruct (p y); trivial.
Qed.

Lemma filter_snoc (A : Type) (p : A -> bool) (l : list A) (x : A) :
  filter p (l ++ [x]) = filter p l ++ (if p x then [x] else []).
Proof. now rewrite filter_app. Qed.

Lemma find_none_filter (A : Type) (p : A -> bool) (l : list A) :
  find p l = None -> filter p l = [].
Proof.
  induction l as [|x l IH]; simpl; trivial.
  destruct (p x); [discriminate | exact IH].
Qed.

Lemma find_update (id id' : string)
      (f : ComponentContent -> ComponentContent)
      (m : list ComponentContent) :
  (forall c, cc_componentId (f c) = cc_componentId c) ->
  find (keyed id') (update id f m)
  = if String.eqb id id' then option_map f (find (keyed id) m)
    else find (keyed id') m.
Proof.
  intros Hf. induction m as [|c m IH]; simpl.
  - now destruct (String.eqb id id').
  - unfold keyed in *.
    destruct (String.eqb (cc_componentId c) id) eqn:E; simpl.
    + apply String.eqb_eq in E. rewrite Hf, E.
      destruct (String.eqb id id'); reflexivity.
    + destruct (String.eqb (cc_componentId c) id') eqn:E'.
      * apply String.eqb_eq in E'. subst id'.
        rewrite String.eqb_sym, E. reflexivity.
      * exact IH.
Qed.

Lemma map_update (id : string) (f : ComponentContent -> ComponentContent)
      (m : list ComponentContent) :
  (forall c, cc_componentId (f c) = cc_componentId c) ->
  map cc_componentId (update id f m) = map cc_componentId m.
Proof.
  intros Hf. induction m as [|c m IH]; simpl; trivial.
  destruct (String.eqb (cc_componentId c) id); simpl.
  - now rewrite Hf.
  - now rewrite IH.
Qed.

(** The bucket a first item opens. *)
Lemma extractComponentContent_snoc (items : list SemanticTextItem)
      (item : SemanticTextItem) :
  extractComponentContent (items ++ [item])
  = update (meta_componentId (item_metadata item)) (component_item item)
      (if negb (has (meta_componentId (item_metadata item))
                    (extractComponentContent items))
       then extractComponentContent items
            ++ [ {| cc_componentId := meta_componentId (item_metadata item);
                    cc_componentName :=
                      meta_componentName (item_metadata item);
                    cc_path := item_path item;
                    cc_headings :=
                      {| h_h1 := None; h_h2 := None; h_h3 := None;
                         h_all := [] |};
                    cc_paragraphs := [];
                    cc_images := [];
                    cc_links := [] |} ]
       else extractComponentContent items).
Proof. unfold extractComponentContent. now rewrite fold_left_app. Qed.

Lemma first_occurrences_snoc (l : list string) (x : string) :
  forall seen,
    first_occurrences seen (l ++ [x])
    = first_occurrences seen l
      ++ (if existsb (String.eqb x) (seen ++ l) then [] else [x]).
Proof.
  induction l as [|a l IH]; intros seen; simpl.
  - rewrite app_nil_r. now destruct (existsb (String.eqb x) seen).
  - destruct (existsb (String.eqb a) seen) eqn:E.
    + rewrite IH. f_equal. rewrite !existsb_app. simpl.
      destruct (String.eqb x a) eqn:Exa; trivial.
      apply String.eqb_eq in Exa. subst a. rewrite E. reflexivity.
    + simpl. rewrite IH. do 2 f_equal. now rewrite <- app_assoc.
Qed.

Lemma first_occurrences_In (l : list string) :
  forall seen x,
    In x (first_occurrences seen l)
    <-> In x l /\ existsb (String.eqb x) seen = false.
Proof.
  induction l as [|a l IH]; intros seen x; simpl; [tauto|].
  destruct (existsb (String.eqb a) seen) eqn:E.
  - rewrite IH. split; [tauto|]. intros [[-> | H] Hs]; [congruence | tauto].
  - simpl. rewrite IH, existsb_app. simpl. rewrite orb_false_r.
    split.
    + intros [-> | (H & Hs)]; [tauto|].
      apply orb_false_iff in Hs. tauto.
    + intros [[-> | H] Hs]; [tauto|].
      destruct (String.eqb x a) eqn:Exa.
      * apply String.eqb_eq in Exa. now left.
      * right. split; trivial. now rewrite Hs.
Qed.

Lemma first_occurrences_NoDup (l : list string) :
  forall seen, NoDup (first_occurrences seen l).
Proof.
  induction l as [|a l IH]; intros seen; simpl; [constructor|].
  destruct (existsb (String.eqb a) seen); [apply IH|].
  constructor; [|apply IH].
  rewrite first_occurrences_In, existsb_app. simpl.
  rewrite String.eqb_refl, orb_true_r. intros [_ H]. discriminate.
Qed.

Lemma existsb_keyed (id : string) (m : list ComponentContent) :
  existsb (keyed id) m = existsb (String.eqb id) (map cc_componentId m).
Proof.
  induction m as [|c m IH]; simpl; trivial.
  unfold keyed at 1. now rewrite IH, String.eqb_sym.
Qed.

Lemma existsb_first_occurrences (x : string) (l : list string) :
  existsb (String.eqb x) (first_occurrences [] l)
  = existsb (String.eqb x) l.
Proof.
  apply eq_true_iff_eq. rewrite !existsb_exists.
  split; intros (y & Hy & E); exists y; split; trivial.
  - apply first_occurrences_In in Hy. tauto.
  - apply first_occurrences_In. split; trivial.
Qed.

Lemma extractComponentContent_ids (items : list SemanticTextItem) :
  map cc_componentId (extractComponentContent items)
  = first_occurrences []
      (map (fun item => meta_componentId (item_metadata item)) items).
Proof.
  induction items as [|item items IH] using rev_ind; trivial.
  rewrite extractComponentContent_snoc.
  rewrite map_update by apply component_item_id.
  rewrite (map_app (fun item => meta_componentId (item_metadata item))).
  cbn [map]. rewrite first_occurrences_snoc.
  rewrite has_keyed, existsb_keyed, IH, existsb_first_occurrences.
  cbn [map app].
  destruct (existsb _ _); cbn [negb].
  - now rewrite IH, app_nil_r.
  - now rewrite map_app, IH.
Qed.

(** X15. [extractComponentContent] returns one bucket for each component
    id that occurs among the items, in the order in which the ids first
    occur: no component has two buckets, and no bucket is made for an id
    without items. *)
Theorem extractComponentContent_one_bucket_per_component :
  forall (semanticItems : list SemanticTextItem),
    let ids :=
      map (fun item => meta_componentId (item_metadata item)) semanticItems in
    let components := extractComponentContent semanticItems in
    map cc_componentId components = first_occurrences [] ids
    /\ NoDup (map cc_componentId components)
    /\ (forall componentId,
           In componentId (map cc_componentId components)
           <-> In componentId ids)
    /\ List.length components <= List.length semanticItems.
Proof.
  intros items ids components. subst components.
  rewrite extractComponentContent_ids. fold ids.
  split; [reflexivity|]. split; [apply first_occurrences_NoDup|]. split.
  - intros id. rewrite first_occurrences_In. simpl. tauto.
  - rewrite <- (length_map cc_componentId), extractComponentContent_ids.
    fold ids. rewrite <- (length_map
        (fun item => meta_componentId (item_metadata item)) items).
    fold ids. generalize (@nil string). induction ids as [|a l IH]; intros seen;
      simpl; [lia|].
    destruct (existsb (String.eqb a) seen); simpl.
    + specialize (IH seen). lia.
    + specialize (IH (seen ++ [a])). lia.
Qed.

(** The bucket of a component, read off the items. *)
Lemma extractComponentContent_find (items : list SemanticTextItem) :
  forall componentId,
    find (keyed componentId) (extractComponentContent items)
    = option_map
        (fun first =>
           fold_left (fun c item => component_item item c)
                     (filter (of_component componentId) items)
                     {| cc_componentId :=
                          meta_componentId (item_metadata first);
                        cc_componentName :=
                          meta_componentName (item_metadata first);
                        cc_path := item_path first;
                        cc_headings :=
                          {| h_h1 := None; h_h2 := None; h_h3 := None;
                             h_all := [] |};
                        cc_paragraphs := [];
                        cc_images := [];
                        cc_links := [] |})
        (find (of_component componentId) items).
Proof.
  induction items as [|item items IH] using rev_ind; intros id; trivial.
  rewrite extractComponentContent_snoc.
  rewrite find_update by apply component_item_id.
  rewrite find_snoc, filter_snoc. unfold of_component at 2 4.
  destruct (String.eqb (meta_componentId (item_metadata item)) id) eqn:E.
  - apply String.eqb_eq in E. subst id.
    rewrite has_keyed, existsb_find, IH.
    destruct (find (of_component _) items) as [first|] eqn:Ef; cbn [option_map negb].
    + rewrite IH, Ef. cbn [option_map]. now rewrite fold_left_app.
    + rewrite find_snoc, IH, Ef. cbn [option_map].
      unfold keyed. cbn [cc_componentId]. rewrite String.eqb_refl.
      cbn [option_map]. now rewrite (find_none_filter _ _ _ Ef).
  - rewrite app_nil_r.
    replace (match find (of_component id) items with
             | Some y => Some y
             | None => None
             end)
      with (find (of_component id) items)
      by now destruct (find (of_component id) items).
    destruct (negb (has _ _)); [|apply IH].
    rewrite find_snoc, IH. unfold keyed at 1. cbn [cc_componentId]. rewrite E.
    now destruct (find (of_component id) items).
Qed.

Lemma find_keyed_NoDup (m : list ComponentContent) (c : ComponentContent) :
  NoDup (map cc_componentId m) -> In c m ->
  find (keyed (cc_componentId c)) m = Some c.
Proof.
  induction m as [|c' m IH]; simpl; [tauto|].
  intros Hnd [-> | Hin].
  - unfold keyed. now rewrite String.eqb_refl.
  - inversion Hnd as [|? ? Hnot Hnd']; subst.
    unfold keyed at 1.
    destruct (String.eqb (cc_componentId c') (cc_componentId c)) eqn:E.
    + apply String.eqb_eq in E. elim Hnot. rewrite E. now apply in_map.
    + now apply IH.
Qed.

Lemma fold_component_item (items : list SemanticTextItem) :
  forall c,
    let c' := fold_left (fun c item => component_item item c) items c in
    cc_componentName c' = cc_componentName c
    /\ cc_path c' = cc_path c
    /\ cc_images c' = cc_images c ++ extractImages items
    /\ map link_target (cc_links c')
       = map link_target (cc_links c)
         ++ map link_target (extractLinks url_parses items)
    /\ h_all (cc_headings c')
       = h_all (cc_headings c) ++ map heading_text (headings_read items).
Proof.
  induction items as [|item items IH]; intros c; simpl.
  - rewrite !app_nil_r. repeat split.
  - destruct (IH (component_item item c)) as (Hn & Hp & Hi & Hl & Hh).
    rewrite Hn, Hp, Hi, Hl, Hh. clear IH Hn Hp Hi Hl Hh.
    rewrite !extractImages_items, !extractLinks_items.
    unfold headings_read, component_item, category_is, link_step, link_of.
    cbv zeta. cbn [filter]. fold (heading_text item).
    destruct (item_category item);
      cbn [SemanticCategory_eqb filter flat_map map];
      repeat match goal with
             | |- context [if ?b then _ else _] => destruct b
             end;
      cbn [cc_componentName cc_path cc_images cc_links cc_headings
           set_headings h_all flat_map map app];
      rewrite ?map_app, <- ?app_assoc; repeat split.
Qed.

(** X16. A bucket of [extractComponentContent] holds what the page-level
    extractors find in the items of its component alone: the same images,
    links with the same text, href and field, the same heading texts; its
    name and path are those of the component's first item. *)
Theorem extractComponentContent_bucket :
  forall (semanticItems : list SemanticTextItem) (c : ComponentContent),
    In c (extractComponentContent semanticItems) ->
    let own := filter (of_component (cc_componentId c)) semanticItems in
    cc_images c = extractImages own
    /\ map link_target (cc_links c)
       = map link_target (extractLinks url_parses own)
    /\ h_all (cc_headings c) = h_all (extractHeadings own)
    /\ exists first,
         find (of_component (cc_componentId c)) semanticItems = Some first
         /\ cc_componentName c = meta_componentName (item_metadata first)
         /\ cc_path c = item_path first.
Proof.
  intros items c Hin own.
  assert (Hnd : NoDup (map cc_componentId (extractComponentContent items))).
  { rewrite extractComponentContent_ids. apply first_occurrences_NoDup. }
  pose proof (find_keyed_NoDup _ _ Hnd Hin) as Hf.
  rewrite extractComponentContent_find in Hf.
  destruct (find (of_component (cc_componentId c)) items) as [first|];
    [|discriminate].
  cbn [option_map] in Hf. injection Hf as Hc. fold own in Hc.
  match type of Hc with
  | fold_left _ _ ?c0 = _ =>
      destruct (fold_component_item own c0) as (Hn & Hp & Hi & Hl & Hh)
  end.
  rewrite Hc in Hn, Hp, Hi, Hl, Hh. cbn in Hn, Hp, Hi, Hl, Hh.
  repeat split; trivial.
  - rewrite Hh. symmetry.
    rewrite extractHeadings_read.
    destruct (fold_heading_all (headings_read own) (headings_read_text own)
                {| h_h1 := None; h_h2 := Some []; h_h3 := Some [];
                   h_all := [] |}) as (Ha & _). exact Ha.
  - exists first. repeat split; trivial.
Qed.

End BucketFacts.

(** ** Issues and scores *)

Section IssueFacts.

Local Open Scope list_scope.

Lemma has_alt_weak (img : PageImage) : has_alt img = negb (weak_alt img).
Proof.
  unfold has_alt, weak_alt. destruct (img_alt img) as [alt|]; trivial.
  rewrite negb_orb, negb_involutive. f_equal.
  rewrite Nat.leb_antisym. reflexivity.
Qed.

Lemma is_validLink_accounted (link : PageLink) :
  is_validLink link
  = negb (href_missing link)
    && negb (opt_true (link_isPlaceholder link)
             || String.eqb (match link_href link with
                            | Some h => h
                            | None => EmptyString
                            end) "http://#"
             || String.eqb (match link_href link with
                            | Some h => h
                            | None => EmptyString
                            end) "#")
    && negb (opt_true (link_isBroken link)).
Proof.
  unfold is_validLink, href_missing.
  destruct (link_href link) as [href|]; trivial.
  destruct (truthy href); trivial.
  destruct (length (trim href)); trivial.
  cbn [Nat.eqb Nat.ltb Nat.leb negb orb andb].
  destruct (opt_true (link_isPlaceholder link)),
    (opt_true (link_isBroken link)),
    (String.eqb href "http://#"), (String.eqb href "#"); reflexivity.
Qed.

Lemma filter_partition_length (A : Type) (p : A -> bool) (l : list A) :
  List.length (filter p l) + List.length (filter (fun x => negb (p x)) l)
  = List.length l.
Proof.
  induction l as [|x l IH]; simpl; trivial.
  destruct (p x); simpl; lia.
Qed.

Lemma issue_step_count (st : link_state) (link : PageLink) :
  let '(broken, placeholders, details) := st in
  let '(broken', placeholders', details') := issue_step st link in
  List.length details'
  = List.length details + (if is_validLink link then 0 else 1)
  /\ List.length broken' + List.length placeholders'
     = List.length broken + List.length placeholders
       + (if is_validLink link then 0 else 1).
Proof.
  destruct st as [[broken placeholders] details].
  rewrite is_validLink_accounted. unfold issue_step.
  destruct (href_missing link); cbn [negb andb];
    [rewrite !length_app; simpl; lia|].
  destruct (opt_true (link_isPlaceholder link)
            || String.eqb _ "http://#" || String.eqb _ "#")%bool;
    cbn [negb andb]; [rewrite !length_app; simpl; lia|].
  destruct (opt_true (link_isBroken link)); cbn [negb];
    rewrite ?length_app; simpl; lia.
Qed.

Lemma issue_fold_count (links : list PageLink) :
  forall st : link_state,
    let '(broken, placeholders, details) := st in
    let '(broken', placeholders', details') :=
      fold_left issue_step links st in
    List.length details'
    = List.length details
      + List.length (filter (fun l => negb (is_validLink l)) links)
    /\ List.length broken' + List.length placeholders'
       = List.length broken + List.length placeholders
         + List.length (filter (fun l => negb (is_validLink l)) links).
Proof.
  induction links as [|link links IH]; intros [[broken placeholders] details];
    cbn [fold_left filter].
  - simpl. lia.
  - pose proof (issue_step_count (broken, placeholders, details) link) as Hs.
    cbv beta iota in Hs.
    specialize (IH (issue_step (broken, placeholders, details) link)).
    destruct (issue_step (broken, placeholders, details) link)
      as [[broken1 placeholders1] details1].
    destruct (fold_left issue_step links (broken1, placeholders1, details1))
      as [[broken2 placeholders2] details2].
    cbv beta iota in IH, Hs.
    destruct (is_validLink link); simpl; lia.
Qed.

Lemma or_nil_nonempty_list (A : Type) (l : list A) :
  or_nil (nonempty_list l) = l.
Proof. now destruct l. Qed.

Lemma nonempty_list_None (A : Type) (l : list A) :
  nonempty_list l = None -> l = [].
Proof. destruct l; [trivial | discriminate]. Qed.

Lemma filter_all (A : Type) (p : A -> bool) (l : list A) :
  filter (fun x => negb (p x)) l = [] -> filter p l = l.
Proof.
  induction l as [|x l IH]; simpl; trivial.
  destruct (p x); simpl; [|discriminate]. intros H. now rewrite IH.
Qed.

Lemma identifyIssues_lists (pd : PageData) :
  exists broken placeholders,
    fold_left issue_step (pd_links pd) ([], [], [])
    = (broken, placeholders, snd (identifyIssues pd))
    /\ brokenLinks (fst (identifyIssues pd)) = nonempty_list broken
    /\ placeholderLinks (fst (identifyIssues pd))
       = nonempty_list placeholders
    /\ weakAltText (fst (identifyIssues pd))
       = nonempty_list (map img_id (filter weak_alt (pd_images pd))).
Proof.
  unfold identifyIssues.
  destruct (fold_left issue_step (pd_links pd) ([], [], []))
    as [[broken placeholders] details].
  exists broken, placeholders. repeat split.
Qed.

Local Open Scope Q_scope.

Lemma share_all (n : nat) :
  (0 < n)%nat -> Math_round (fmul (fdiv (of_nat n) (of_nat n)) 25) = 25.
Proof.
  intros Hn.
  assert (H : ~ of_nat n == 0).
  { intros E. pose proof (of_nat_pos n Hn) as Hp. rewrite E in Hp.
    now apply Qlt_irrefl in Hp. }
  unfold fdiv. rewrite (double_integer_eq _ 1); [|lia|now field].
  unfold fmul. rewrite (double_integer_eq _ 25); [|lia|reflexivity].
  reflexivity.
Qed.

Lemma share_none (n : nat) :
  Math_round (fmul (fdiv (of_nat 0) (of_nat n)) 25) = 0.
Proof.
  unfold fdiv. rewrite (double_integer_eq _ 0); [|lia|].
  - reflexivity.
  - unfold of_nat. simpl. unfold Qdiv. now rewrite Qmult_0_l.
Qed.

Lemma scoreLinks_all_valid (links : list PageLink) :
  filter (fun l => negb (is_validLink l)) links = [] ->
  scoreLinks links = 25.
Proof.
  intros H. unfold scoreLinks. rewrite (filter_all _ _ _ H).
  destruct (Nat.eqb (List.length links) 0) eqn:E; trivial.
  apply Nat.eqb_neq in E. apply share_all. lia.
Qed.

Lemma scoreAccessibility_all_alt (images : list PageImage) :
  filter weak_alt images = [] -> scoreAccessibility images = 25.
Proof.
  intros H. unfold scoreAccessibility.
  assert (Hf : filter has_alt images = images).
  { rewrite (filter_ext has_alt (fun x => negb (weak_alt x)))
      by apply has_alt_weak.
    clear -H. induction images as [|x l IH]; simpl in *; trivial.
    destruct (weak_alt x); [discriminate|]. simpl. now rewrite IH. }
  rewrite Hf.
  destruct (Nat.eqb (List.length images) 0) eqn:E; trivial.
  apply Nat.eqb_neq in E. apply share_all. lia.
Qed.

(** X17. [identifyIssues] and [scoreLinks] split the links the same way:
    every link is either counted as valid by the scorer or gets exactly
    one entry of [brokenLinksDetails], and that entry's href is listed once
    under [brokenLinks] or [placeholderLinks]; without entries the link
    score is 25. *)
Theorem identifyIssues_link_accounting :
  forall (pageData : PageData),
    let links := pd_links pageData in
    let found := fst (identifyIssues pageData) in
    let details := snd (identifyIssues pageData) in
    (List.length details + List.length (filter is_validLink links)
     = List.length links)%nat
    /\ (List.length (or_nil (brokenLinks found))
        + List.length (or_nil (placeholderLinks found))
        = List.length details)%nat
    /\ (details = [] -> scoreLinks links = 25).
Proof.
  intros pd links found details. subst links found details.
  destruct (identifyIssues_lists pd) as (broken & placeholders & Hf & -> & -> & _).
  pose proof (issue_fold_count (pd_links pd) ([], [], [])) as Hc.
  cbv beta iota in Hc. rewrite Hf in Hc. simpl in Hc.
  destruct Hc as [Hd Hb].
  pose proof (filter_partition_length _ is_validLink (pd_links pd)) as Hp.
  rewrite !or_nil_nonempty_list.
  split; [lia|]. split; [lia|].
  intros E. apply scoreLinks_all_valid.
  rewrite E in Hd. simpl in Hd.
  destruct (filter (fun l => negb (is_validLink l)) (pd_links pd));
    [trivial | discriminate].
Qed.

(** X18. [identifyIssues] and [scoreAccessibility] split the images the
    same way: an image either counts as having alt text or has its id
    listed under [weakAltText]; when none is listed the accessibility score
    is 25, and when all of them are it is 0. *)
Theorem identifyIssues_image_accounting :
  forall (pageData : PageData),
    let images := pd_images pageData in
    let weak := or_nil (weakAltText (fst (identifyIssues pageData))) in
    (List.length weak + List.length (filter has_alt images)
     = List.length images)%nat
    /\ weak = map img_id (filter weak_alt images)
    /\ (weak = [] -> scoreAccessibility images = 25)
    /\ (List.length weak = List.length images -> images <> [] ->
        scoreAccessibility images = 0).
Proof.
  intros pd images weak. subst images weak.
  destruct (identifyIssues_lists pd) as (_ & _ & _ & _ & _ & ->).
  rewrite or_nil_nonempty_list, length_map.
  pose proof (filter_partition_length _ has_alt (pd_images pd)) as Hp.
  rewrite (filter_ext (fun x => negb (has_alt x)) weak_alt) in Hp
    by (intros x; rewrite has_alt_weak; apply negb_involutive).
  split; [lia|]. split; [reflexivity|]. split.
  - intros E. apply scoreAccessibility_all_alt.
    destruct (filter weak_alt (pd_images pd)); [trivial | discriminate].
  - intros E Hne. unfold scoreAccessibility.
    destruct (pd_images pd) as [|img images] eqn:Ei; [now elim Hne|].
    cbn [List.length Nat.eqb].
    replace (List.length (filter has_alt (img :: images))) with 0%nat
      by (simpl in *; lia).
    apply share_none.
Qed.

End IssueFacts.

(** ** What the issues say about the score *)

Section IssueScoreFacts.

Local Open Scope list_scope.
Local Open Scope Q_scope.

Lemma Math_min_le (x y : number) : Math_min x y <= y.
Proof.
  unfold Math_min. destruct (Qle_bool x y) eqn:E.
  - now apply Qle_bool_iff.
  - apply Qle_refl.
Qed.

Lemma Math_round_le (x : number) (z : Z) :
  x <= inject_Z z -> Math_round x <= inject_Z z.
Proof.
  intros H. unfold Math_round. rewrite <- Zle_Qle.
  rewrite <- (Qfloor_half z). apply Qfloor_resp_le.
  apply Qplus_le_compat; [exact H | apply Qle_refl].
Qed.

Lemma Math_round_ge (x : number) (z : Z) :
  inject_Z z <= x -> inject_Z z <= Math_round x.
Proof.
  intros H. unfold Math_round. rewrite <- Zle_Qle.
  rewrite <- (Qfloor_half z). apply Qfloor_resp_le.
  apply Qplus_le_compat; [exact H | apply Qle_refl].
Qed.

Lemma length_credit_le (len limit : nat) : length_credit len limit <= 10.
Proof.
  unfold length_credit. destruct (Nat.leb len limit) eqn:E.
  - apply Qle_refl.
  - apply Nat.leb_gt in E. unfold Math_max.
    destruct (Qle_bool 0 _); [|discriminate].
    apply (double_le _ 10); [lia|].
    assert (H : 0 <= fmul (fsub (of_nat len) (of_nat limit)) (double (1 # 10))).
    { apply double_nonneg. apply Qmult_le_0_compat.
      - apply double_nonneg. unfold Qminus.
        rewrite <- (Qplus_opp_r (of_nat limit)).
        apply Qplus_le_compat; [|apply Qle_refl]. apply of_nat_le. lia.
      - apply double_nonneg. discriminate. }
    unfold Qminus. rewrite <- (Qplus_0_r (inject_Z 10)).
    apply Qplus_le_compat; [apply Qle_refl|].
    apply (Qopp_le_compat 0). exact H.
Qed.

Lemma trim_or_empty_missing (o : option string) :
  match o with
  | Some d => (negb (truthy d) || Nat.eqb (length (trim d)) 0)%bool
  | None => true
  end
  = Nat.eqb (length (trim_or_empty o)) 0.
Proof.
  destruct o as [d|]; trivial. simpl.
  destruct d; simpl; trivial.
Qed.

(** The partial credit for fewer than 250 words. *)
Lemma words_credit (words : number) :
  geb words 250 = false -> gtb words 0 = true ->
  0 <= Math_round (fmul (fdiv words 250) 10)
  /\ Math_round (fmul (fdiv words 250) 10) <= 10.
Proof.
  intros E Eg. unfold geb, leb in E. unfold gtb, ltb in Eg.
  apply negb_true_iff in Eg.
  assert (Hw : words <= 250).
  { apply Qlt_le_weak, Qnot_le_lt. intros H.
    apply Qle_bool_iff in H. rewrite H in E. discriminate. }
  assert (H0 : 0 <= words).
  { apply Qlt_le_weak, Qnot_le_lt. intros H.
    apply Qle_bool_iff in H. rewrite H in Eg. discriminate. }
  assert (Hd : inject_Z 0 <= fdiv words 250 /\ fdiv words 250 <= inject_Z 1).
  { apply double_between; try lia.
    - apply Qle_shift_div_l; [reflexivity|]. now rewrite Qmult_0_l.
    - apply Qle_shift_div_r; [reflexivity|]. now rewrite Qmult_1_l. }
  destruct Hd as [Hd0 Hd1].
  assert (Hm : inject_Z 0 <= fmul (fdiv words 250) 10
               /\ fmul (fdiv words 250) 10 <= inject_Z 10).
  { apply double_between; try lia.
    - change (inject_Z 0) with (0 * 10). now apply Qmult_le_compat_r.
    - change (inject_Z 10) with (1 * 10). now apply Qmult_le_compat_r. }
  destruct Hm as [Hm0 Hm1]. split.
  - now apply (Math_round_ge _ 0).
  - now apply (Math_round_le _ 10).
Qed.

Lemma words_part_le (words : number) :
  (if geb words 250 then fadd 0 10
   else if gtb words 0
        then fadd 0 (Math_round (fmul (fdiv words 250) 10))
        else 0)
  <= 10.
Proof.
  destruct (geb words 250) eqn:E; [discriminate|].
  destruct (gtb words 0) eqn:Eg; [|discriminate].
  destruct (words_credit words E Eg) as [_ H].
  apply (fadd_le _ _ 0 10); [lia | apply Qle_refl | exact H].
Qed.

Lemma words_part_ge (words : number) :
  15
  <= (if geb words 250 then fadd (fadd 0 15) 10
      else if gtb words 0
           then fadd (fadd 0 15) (Math_round (fmul (fdiv words 250) 10))
           else fadd 0 15).
Proof.
  change (fadd 0 15) with 15.
  destruct (geb words 250) eqn:E; [discriminate|].
  destruct (gtb words 0) eqn:Eg; [|apply Qle_refl].
  destruct (words_credit words E Eg) as [H0 H10].
  apply (fadd_ge _ _ 15 0 25); try lia; trivial.
  - apply Qle_refl.
  - change (inject_Z 25) with (15 + 10). apply Qplus_le_compat; trivial.
    apply Qle_refl.
Qed.

Lemma identifyIssues_flags (pd : PageData) :
  missingMetaDescription (fst (identifyIssues pd))
  = Nat.eqb (length (trim_or_empty (md_description (pd_metadata pd)))) 0
  /\ titleTooLong (fst (identifyIssues pd))
     = Nat.ltb 60 (length (trim_or_empty (md_title (pd_metadata pd))))
  /\ descriptionTooLong (fst (identifyIssues pd))
     = Nat.ltb 165
               (length (trim_or_empty (md_description (pd_metadata pd))))
  /\ missingH1 (fst (identifyIssues pd))
     = match h_h1 (pd_headings pd) with
       | Some h1 => (negb (truthy h1) || Nat.eqb (length (trim h1)) 0)%bool
       | None => true
       end
  /\ shortContent (fst (identifyIssues pd))
     = ltb (words_of (pd_wordCount pd) (pd_text pd)) 250
  /\ missingImages (fst (identifyIssues pd))
     = Nat.eqb (List.length (pd_images pd)) 0.
Proof.
  unfold identifyIssues.
  destruct (fold_left issue_step (pd_links pd) ([], [], []))
    as [[broken placeholders] details].
  cbn [fst missingMetaDescription titleTooLong descriptionTooLong missingH1
       shortContent missingImages].
  rewrite trim_or_empty_missing. repeat split.
Qed.

(** X19. The issue flags bound the sub-scores: with [missingH1] the
    content score is at most 10, and without it at least 15; with
    [missingMetaDescription] the metadata score is at most 10; with
    [missingImages] the accessibility score is 25. *)
Theorem identifyIssues_bounds_scores :
  forall (pageData : PageData),
    let found := fst (identifyIssues pageData) in
    let scores := breakdown (computeSEOScore pageData) in
    (missingH1 found = true -> sb_content scores <= 10)
    /\ (missingH1 found = false -> 15 <= sb_content scores)
    /\ (missingMetaDescription found = true -> sb_metadata scores <= 10)
    /\ (missingImages found = true -> sb_accessibility scores = 25).
Proof.
  intros pd found scores. subst found scores.
  destruct (computeSEOScore_fields pd) as (-> & _ & _).
  destruct (identifyIssues_flags pd) as (-> & _ & _ & -> & _ & ->).
  cbn [sb_content sb_metadata sb_accessibility].
  split; [|split; [|split]].
  - intros H. unfold scoreContent.
    apply Qle_trans with (1 := Math_min_le _ _).
    apply (Math_round_le _ 10).
    destruct (h_h1 (pd_headings pd)) as [h1|].
    + destruct (truthy h1); [|apply words_part_le].
      destruct (length (trim h1)); [apply words_part_le | discriminate].
    + apply words_part_le.
  - intros H. unfold scoreContent.
    destruct (h_h1 (pd_headings pd)) as [h1|]; [|discriminate].
    destruct (truthy h1); [|discriminate].
    destruct (length (trim h1)); [discriminate|].
    cbn [andb Nat.ltb Nat.leb].
    destruct (scoreContent_range (pd_headings pd) (pd_text pd)
                                 (pd_wordCount pd)) as (z & _ & _).
    unfold Math_min.
    match goal with
    | |- _ <= (if Qle_bool 25 ?r then _ else _) =>
        assert (Hr : 15 <= r)
    end.
    { apply (Math_round_ge _ 15). apply words_part_ge. }
    destruct (Qle_bool 25 _); [discriminate | exact Hr].
  - intros H. apply Nat.eqb_eq in H. unfold scoreMetadata. rewrite H.
    cbn [Nat.ltb Nat.leb andb]. rewrite andb_false_r.
    apply Qle_trans with (1 := Math_min_le _ _).
    apply (Math_round_le _ 10).
    destruct (length (trim_or_empty (md_title (pd_metadata pd))));
      [discriminate|].
    apply (fadd_le _ _ 0 10); [lia | apply Qle_refl | apply length_credit_le].
  - intros H. unfold scoreAccessibility. now rewrite H.
Qed.

(** X20. When none of the flags that stand for lost points is raised (no
    missing or overlong description, no overlong title, an h1, 250 words,
    no weak alt text, no placeholder or broken link) the score is 100,
    unless the title is blank: then it is 85, and no issue says why. *)
Theorem computeSEOScore_without_issues :
  forall (pageData : PageData),
    let found := fst (identifyIssues pageData) in
    missingMetaDescription found = false ->
    titleTooLong found = false ->
    descriptionTooLong found = false ->
    missingH1 found = false ->
    shortContent found = false ->
    weakAltText found = None ->
    placeholderLinks found = None ->
    brokenLinks found = None ->
    seoScore (computeSEOScore pageData)
    = if Nat.eqb (length (trim_or_empty (md_title (pd_metadata pageData)))) 0
      then 85 else 100.
Proof.
  intros pd found. subst found.
  destruct (computeSEOScore_fields pd) as (_ & -> & _).
  destruct (identifyIssues_flags pd) as (-> & -> & -> & -> & -> & _).
  destruct (identifyIssues_lists pd)
    as (broken & placeholders & Hf & -> & -> & ->).
  intros Hd Ht Hdl Hh Hw Hwa Hp Hb.
  assert (Ea : scoreAccessibility (pd_images pd) = 25).
  { apply scoreAccessibility_all_alt.
    apply nonempty_list_None in Hwa.
    destruct (filter weak_alt (pd_images pd)); [trivial | discriminate]. }
  assert (El : scoreLinks (pd_links pd) = 25).
  { apply scoreLinks_all_valid.
    apply nonempty_list_None in Hp, Hb. subst.
    pose proof (issue_fold_count (pd_links pd) ([], [], [])) as Hc.
    cbv beta iota in Hc. rewrite Hf in Hc. simpl in Hc.
    destruct (filter (fun l => negb (is_validLink l)) (pd_links pd));
      [trivial | simpl in Hc; lia]. }
  assert (Ec : scoreContent (pd_headings pd) (pd_text pd) (pd_wordCount pd)
               = 25).
  { unfold scoreContent.
    destruct (h_h1 (pd_headings pd)) as [h1|]; [|discriminate].
    destruct (truthy h1); [|discriminate].
    destruct (length (trim h1)); [discriminate|].
    cbn [andb Nat.ltb Nat.leb].
    unfold ltb in Hw. apply negb_false_iff in Hw.
    unfold geb, leb. rewrite Hw. reflexivity. }
  assert (Em : scoreMetadata (pd_metadata pd)
               = if Nat.eqb (length (trim_or_empty
                                       (md_title (pd_metadata pd)))) 0
                 then 10 else 25).
  { unfold scoreMetadata, length_credit.
    set (t := length (trim_or_empty (md_title (pd_metadata pd)))) in *.
    set (d := length (trim_or_empty (md_description (pd_metadata pd)))) in *.
    apply Nat.ltb_ge in Ht, Hdl. apply Nat.eqb_neq in Hd.
    apply Nat.leb_le in Ht, Hdl. rewrite Ht, Hdl.
    assert (Hd0 : Nat.ltb 0 d = true) by (apply Nat.ltb_lt; lia).
    rewrite Hd0.
    destruct (Nat.eqb t 0) eqn:E0.
    - apply Nat.eqb_eq in E0. rewrite E0. reflexivity.
    - apply Nat.eqb_neq in E0.
      assert (Ht0 : Nat.ltb 0 t = true) by (apply Nat.ltb_lt; lia).
      rewrite Ht0. reflexivity. }
  rewrite Ea, El, Ec, Em.
  destruct (Nat.eqb (length (trim_or_empty (md_title (pd_metadata pd)))) 0);
    reflexivity.
Qed.

End IssueScoreFacts.

Lemma computeSEOScore_without_issues_witness :
  seoScore (computeSEOScore (PageSamples.clean_page "Products")) = 100%Q
  /\ seoScore (computeSEOScore (PageSamples.clean_page "  ")) = 85%Q.
Proof.
  split.
  - apply (computeSEOScore_without_issues (PageSamples.clean_page "Products"));
      reflexivity.
  - apply (computeSEOScore_without_issues (PageSamples.clean_page "  "));
      reflexivity.
Defined.

(** ** What [classifyField] can return *)

Section ClassifiedFacts.

Local Open Scope list_scope.

Lemma prototype_key (key : string) :
  In key Object_prototype_keys <->
  existsb (String.eqb key) Object_prototype_keys = true.
Proof.
  rewrite existsb_exists. split.
  - intros H. exists key. split; trivial. apply String.eqb_refl.
  - intros (k & Hk & E). apply String.eqb_eq in E. now subst.
Qed.

Lemma get_Inherited (table : list (string * SemanticCategory))
      (t key : string) :
  get table t = Some (Inherited key) ->
  t = key /\ In key Object_prototype_keys /\ own table key = None.
Proof.
  unfold get. destruct (own table t) eqn:E; [discriminate|].
  destruct (existsb (String.eqb t) Object_prototype_keys) eqn:Ep;
    [|discriminate].
  intros H. injection H as <-. repeat split; trivial.
  now apply prototype_key.
Qed.

Lemma by_template_prototype (key : string) :
  In key Object_prototype_keys ->
  by_template (Some key) = Some (Inherited key).
Proof.
  intros H. simpl in H.
  repeat (destruct H as [<- | H]; [reflexivity|]). destruct H.
Qed.

Lemma by_type_prototype (key : string) :
  In key Object_prototype_keys ->
  by_type (Some key) = Some (Inherited key).
Proof.
  intros H. simpl in H.
  repeat (destruct H as [<- | H]; [reflexivity|]). destruct H.
Qed.

Lemma by_template_Inherited (templateName : option string) (key : string) :
  by_template templateName = Some (Inherited key) ->
  templateName = Some key /\ In key Object_prototype_keys.
Proof.
  unfold by_template. destruct templateName as [t|]; [|discriminate].
  destruct (truthy t); [|discriminate].
  intros H. apply get_Inherited in H. destruct H as (-> & H & _). now split.
Qed.

Lemma by_type_Inherited (fieldType : option string) (key : string) :
  by_type fieldType = Some (Inherited key) ->
  fieldType = Some key /\ In key Object_prototype_keys.
Proof.
  unfold by_type, mapFieldTypeToCategory.
  destruct fieldType as [t|]; [|discriminate].
  destruct (truthy t); [|discriminate].
  destruct (own semanticCategories t); [discriminate|].
  destruct (get typeMap t) as [v|] eqn:E; [|discriminate].
  destruct (is_Other v); [discriminate|].
  intros H. injection H as ->. apply get_Inherited in E.
  destruct E as (-> & H & _). now split.
Qed.

(** X21. [classifyField] returns one of the nine categories, except when
    the template name, or else the field type, is the name of a member
    that object literals inherit ("constructor", "toString", ...): the
    table lookup then yields that member, and [classifyField] returns
    it. *)
Theorem classifyField_category :
  forall (fieldName fieldValue : string)
         (fieldType templateName : option string) (key : string),
    classifyField fieldName fieldValue fieldType templateName
    = Inherited key
    <-> In key Object_prototype_keys
        /\ (templateName = Some key
            \/ (by_template templateName = None /\ fieldType = Some key)).
Proof.
  intros fieldName fieldValue fieldType templateName key. split.
  - unfold classifyField.
    destruct (by_template templateName) as [v|] eqn:Et.
    + intros ->. apply by_template_Inherited in Et. tauto.
    + destruct (by_type fieldType) as [v|] eqn:Ey.
      * intros ->. apply by_type_Inherited in Ey. tauto.
      * repeat match goal with
               | |- context [if ?b then _ else _] => destruct b
               | |- context [match ?o with Some _ => _ | None => _ end] =>
                   destruct o
               | |- context [match ?c with Heading => _ | _ => _ end] =>
                   destruct c
               end; discriminate.
  - intros (Hk & [-> | (Ht & ->)]); unfold classifyField.
    + now rewrite (by_template_prototype key Hk).
    + now rewrite Ht, (by_type_prototype key Hk).
Qed.

End ClassifiedFacts.

Lemma classifyField_category_witness :
  classifyField "Title" "Welcome" None (Some "constructor")
  = Inherited "constructor"
  /\ classifyField "Title" "Welcome" (Some "toString") (Some "Hero")
     = Inherited "toString".
Proof.
  split.
  - apply (classifyField_category "Title" "Welcome" None (Some "constructor")).
    split; [simpl; tauto | now left].
  - apply (classifyField_category "Title" "Welcome" (Some "toString")
                                  (Some "Hero")).
    split; [simpl; tauto | right; split; reflexivity].
Defined.

(** ** White space in plain text *)

Section PlainTextFacts.

Local Open Scope list_scope.

Import Helpers.

Lemma trimStart_length (s : string) : length (trimStart s) <= length s.
Proof.
  induction s as [|c s IH]; simpl; trivial.
  destruct (is_space c); simpl; lia.
Qed.

Lemma star_greedy_spaces (A : Type) (g : string -> option string -> A)
      (s : string) (cap : option string) :
  star_greedy is_space s cap (fun s' cap' => Some (g s' cap'))
  = Some (g (trimStart s) cap).
Proof.
  induction s as [|c s IH]; simpl; trivial.
  destruct (is_space c); trivial. now rewrite IH.
Qed.

Lemma exec_here_spaces (s : string) :
  exec_here re_spaces s
  = match s with
    | String c s' =>
        if is_space c
        then Some (S (length s' - length (trimStart s')), None)
        else None
    | EmptyString => None
    end.
Proof.
  unfold exec_here, re_spaces, plus. destruct s as [|c s']; trivial.
  cbn [run]. destruct (is_space c); trivial.
  rewrite (star_greedy_spaces _
             (fun s'' cap' => (length (String c s') - length s'', cap'))).
  do 2 f_equal. pose proof (trimStart_length s').
  change (length (String c s')) with (S (length s')). lia.
Qed.

Lemma replace_all_spaces (s : string) :
  replace_all_aux re_spaces " " 0 s = collapse false s
  /\ replace_all_aux re_spaces " " (length s - length (trimStart s)) s
     = collapse true s.
Proof.
  induction s as [|c s [IH0 IH1]].
  - split; reflexivity.
  - assert (H0 : replace_all_aux re_spaces " " 0 (String c s)
                 = collapse false (String c s)).
    { cbn [replace_all_aux collapse]. rewrite exec_here_spaces.
      destruct (is_space c).
      - now rewrite IH1.
      - now rewrite IH0. }
    split; [exact H0|].
    cbn [trimStart]. destruct (is_space c) eqn:E.
    + pose proof (trimStart_length s).
      replace (length (String c s) - length (trimStart s))
        with (S (length s - length (trimStart s)))
        by (change (length (String c s)) with (S (length s)); lia).
      cbn [replace_all_aux collapse]. now rewrite E.
    + rewrite Nat.sub_diag, H0. cbn [collapse]. now rewrite E.
Qed.

Lemma collapse_tidy (s : string) :
  forall b, tidy_from b (collapse b s) = true.
Proof.
  induction s as [|c s IH]; intros b; simpl; trivial.
  destruct (is_space c) eqn:E.
  - destruct b; [apply IH|]. simpl. now rewrite IH.
  - simpl. rewrite E. apply IH.
Qed.

Lemma trimStart_tidy (s : string) :
  forall b, tidy_from b s = true -> tidy_from true (trimStart s) = true.
Proof.
  induction s as [|c s IH]; intros b; simpl; trivial.
  destruct (is_space c) eqn:E.
  - intros H. apply andb_true_iff in H. destruct H as [_ H]. now apply (IH true).
  - intros H. simpl. now rewrite E.
Qed.

Lemma trimEnd_tidy (s : string) :
  forall b, tidy_from b s = true -> tidy_from b (trimEnd s) = true.
Proof.
  induction s as [|c s IH]; intros b; simpl; trivial.
  destruct (is_space c) eqn:E; simpl.
  - intros H. apply andb_true_iff in H. destruct H as [H1 H2].
    destruct (is_empty (trimEnd s)); trivial.
    simpl. rewrite E, H1. now apply IH.
  - intros H. rewrite E. now apply IH.
Qed.

Lemma tidy_space (s : string) :
  forall b c,
    tidy_from b s = true ->
    In c (list_ascii_of_string s) -> is_space c = true -> c = " "%char.
Proof.
  induction s as [|a s IH]; intros b c; simpl; [tauto|].
  destruct (is_space a) eqn:E.
  - intros H [<- | Hin] Hc.
    + apply andb_true_iff in H. destruct H as [H _].
      apply andb_true_iff in H. destruct H as [H _].
      now apply Ascii.eqb_eq in H.
    + apply andb_true_iff in H. destruct H as [_ H]. now apply (IH true).
  - intros H [<- | Hin] Hc; [congruence|]. now apply (IH false).
Qed.

Lemma tidy_no_double_space (s : string) :
  forall b, tidy_from b s = true -> includes s "  " = false.
Proof.
  induction s as [|a s IH]; intros b H; trivial.
  cbn [includes]. cbn [tidy_from] in H.
  assert (Hp : String.prefix "  " (String a s) = false).
  { destruct s as [|a' s']; cbn -[ascii_dec].
    - now destruct (ascii_dec " " a).
    - destruct (ascii_dec " " a) as [<-|]; trivial.
      destruct (ascii_dec " " a') as [<-|]; trivial.
      exfalso. cbn [tidy_from] in H.
      change (is_space " ") with true in H. cbv iota in H.
      cbn [negb] in H. rewrite !andb_false_r in H. discriminate. }
  rewrite Hp.
  destruct (is_space a).
  - apply andb_true_iff in H. destruct H as [_ H]. now apply (IH true).
  - now apply (IH false).
Qed.

(** X22. The text [extractPlainText] returns has its white space
    normalised: none at either end, so that trimming it again changes
    nothing; no white space character other than the space; and no two
    spaces in a row. *)
Theorem extractPlainText_whitespace :
  forall (html : string),
    let text := extractPlainText html in
    trim text = text
    /\ (forall c, In c (list_ascii_of_string text) ->
                  is_space c = true -> c = " "%char)
    /\ includes text "  " = false.
Proof.
  intros html text. subst text. unfold extractPlainText.
  destruct (is_empty html); [repeat split; simpl; tauto|].
  cbv zeta.
  match goal with
  | |- context [replace_all re_spaces " " ?t] => generalize t
  end.
  intros t. unfold replace_all.
  destruct (replace_all_spaces t) as [-> _].
  assert (Ht : tidy_from true (trim (collapse false t)) = true).
  { unfold trim. apply trimEnd_tidy.
    apply (trimStart_tidy _ false), collapse_tidy. }
  split; [apply trim_idem|]. split.
  - intros c. now apply (tidy_space _ true).
  - now apply (tidy_no_double_space _ true).
Qed.

End PlainTextFacts.

(** ** Syllables *)

Section SyllableFacts.

Local Open Scope list_scope.

Lemma countSyllables_positive (word : string) : 1 <= countSyllables word.
Proof.
  unfold countSyllables.
  destruct (Nat.leb _ 3); [lia|].
  destruct (match_all _ _); [|lia].
  apply Nat.le_max_l.
Qed.

Lemma syllables_fold (words : list string) :
  forall total,
    total + List.length words
    <= fold_left (fun total word => total + countSyllables word) words total.
Proof.
  induction words as [|word words IH]; intros total; simpl; [lia|].
  specialize (IH (total + countSyllables word)).
  pose proof (countSyllables_positive word). lia.
Qed.

(** X23. [calculateReadability] never reports fewer syllables than words:
    every word counts for at least one syllable. *)
Theorem calculateReadability_syllables :
  forall (text : string) (words sentences : list string),
    (rd_words (calculateReadability text words sentences)
     <= rd_syllables (calculateReadability text words sentences))%Q
    /\ Forall (fun word => 1 <= countSyllables word) words.
Proof.
  intros text words sentences. split.
  - unfold calculateReadability.
    destruct (Nat.eqb (List.length words) 0
              || Nat.eqb (List.length sentences) 0)%bool;
      cbn [rd_words rd_syllables]; [apply Qle_refl|].
    apply of_nat_le. apply (syllables_fold words 0).
  - apply Forall_forall. intros word _. apply countSyllables_positive.
Qed.

End SyllableFacts.

(** ** Link names *)

Section LinkNameFacts.

Local Open Scope list_scope.

(** X24. [isLinkFieldByName] is decided by its second test alone: a name
    that matches [/^link\d*$/i] has "link" in its lower-case form, so a
    field counts as a link exactly when its lower-cased name contains
    "link". *)
Theorem isLinkFieldByName_includes :
  forall (name : string),
    isLinkFieldByName name = includes (toLowerCase name) "link".
Proof.
  intros name. unfold isLinkFieldByName.
  destruct (includes (toLowerCase name) "link") eqn:E; [apply orb_true_r|].
  rewrite orb_false_r. unfold test, match_, exec_here.
  cbn [bol body seqs liti run].
  destruct name as [|c1 [|c2 [|c3 [|c4 rest]]]]; trivial; unfold chi;
    destruct (Ascii.eqb_spec (lower c1) (lower "l")) as [E1|]; trivial;
    try (destruct (Ascii.eqb_spec (lower c2) (lower "i")) as [E2|]; trivial);
    try (destruct (Ascii.eqb_spec (lower c3) (lower "n")) as [E3|]; trivial);
    try (destruct (Ascii.eqb_spec (lower c4) (lower "k")) as [E4|]; trivial).
  cbn [toLowerCase] in E. rewrite E1, E2, E3, E4 in E.
  change (lower "l") with "l"%char in E. change (lower "i") with "i"%char in E.
  change (lower "n") with "n"%char in E. change (lower "k") with "k"%char in E.
  destruct (toLowerCase rest); cbn in E; discriminate.
Qed.

End LinkNameFacts.

(** ** The properties above on sample data *)

Section FurtherSamples.

Local Open Scope list_scope.

Import Helpers.

Lemma isSystemField_displayName_witness :
  ComponentTree.isSystemField "displayName" = false
  /\ ComponentTree.isSystemField "DISPLAYNAME" = false.
Proof.
  split.
  - apply (isSystemField_displayName "displayName"). reflexivity.
  - apply (isSystemField_displayName "DISPLAYNAME"). reflexivity.
Defined.

Lemma extractImages_src_not_empty_witness :
  exists item m,
    In item PageSamples.mixed_items /\ item_category item = Image
    /\ match_ re_src (item_text item) = Some m
    /\ "/logo.png" = trim (group1 m)
    /\ "/logo.png" <> EmptyString
    /\ trim "/logo.png" = "/logo.png"
    /\ Some "Logo" = Some (group1_trim (match_ re_alt (item_text item)))
    /\ "promo-2-Image" = item_id item.
Proof.
  apply (extractImages_src_not_empty
           PageSamples.mixed_items
           (image_of (PageSamples.item_in "promo-2" Image "Image"
                                          "Alt: Logo | Src: /logo.png")
                     "Logo" "/logo.png")).
  vm_compute. left. reflexivity.
Defined.

Lemma extractLinks_placeholder_is_broken_witness :
  link_isBroken
    (link_of Samples.any_url
             (PageSamples.item_in "promo-2" Link "Link2" "Home [#]")
             "Home" "#")
  = Some true
  /\ is_validLink
       (link_of Samples.any_url
                (PageSamples.item_in "promo-2" Link "Link2" "Home [#]")
                "Home" "#")
     = false.
Proof.
  apply (extractLinks_placeholder_is_broken
           Samples.any_url PageSamples.mixed_items).
  - vm_compute. right. left. reflexivity.
  - reflexivity.
Defined.

Lemma detectBrokenLink_relative_witness :
  link_isBroken
    (link_of (fun _ => false)
             (PageSamples.item_in "hero-1" Link "Cta" "Read more [/about]")
             "Read more" "/about")
  = Some false
  /\ link_isPlaceholder
       (link_of (fun _ => false)
                (PageSamples.item_in "hero-1" Link "Cta" "Read more [/about]")
                "Read more" "/about")
     = Some false.
Proof.
  destruct (detectBrokenLink_relative (fun _ => false) "/about") as [H _].
  apply H; reflexivity.
Defined.

Lemma extractComponentContent_bucket_witness :
  exists c,
    In c (extractComponentContent PageSamples.mixed_items)
    /\ cc_componentId c = "promo-2"
    /\ cc_images c
       = extractImages
           (filter (of_component "promo-2") PageSamples.mixed_items)
    /\ map link_target (cc_links c)
       = map link_target
             (extractLinks
                Samples.any_url
                (filter (of_component "promo-2") PageSamples.mixed_items)).
Proof.
  assert (H : exists c,
             In c (extractComponentContent PageSamples.mixed_items)
             /\ cc_componentId c = "promo-2").
  { vm_compute. eexists. split; [right; left; reflexivity | reflexivity]. }
  destruct H as (c & Hin & Hid). exists c.
  split; [exact Hin|]. split; [exact Hid|]. rewrite <- Hid.
  pose proof (extractComponentContent_bucket
                Samples.any_url PageSamples.mixed_items c Hin) as H.
  cbv zeta in H. destruct H as (Hi & Hl & _). now split.
Defined.

Lemma identifyIssues_link_accounting_witness :
  scoreLinks (pd_links (PageSamples.clean_page "Products")) = 25%Q.
Proof.
  pose proof (identifyIssues_link_accounting
                (PageSamples.clean_page "Products")) as H.
  cbv zeta in H. destruct H as (_ & _ & H). apply H. reflexivity.
Defined.

Lemma identifyIssues_image_accounting_witness :
  scoreAccessibility (pd_images (PageSamples.clean_page "Products")) = 25%Q
  /\ scoreAccessibility (pd_images PageSamples.unlabelled_page) = 0%Q.
Proof.
  split.
  - pose proof (identifyIssues_image_accounting
                  (PageSamples.clean_page "Products")) as H.
    cbv zeta in H. destruct H as (_ & _ & H & _). apply H. reflexivity.
  - pose proof (identifyIssues_image_accounting
                  PageSamples.unlabelled_page) as H.
    cbv zeta in H. destruct H as (_ & _ & _ & H). apply H.
    + reflexivity.
    + vm_compute. discriminate.
Defined.

Lemma identifyIssues_bounds_scores_witness :
  (15 <= sb_content
           (breakdown (computeSEOScore (PageSamples.clean_page "Products"))))%Q
  /\ (sb_content (breakdown (computeSEOScore PageSamples.unlabelled_page))
      <= 10)%Q
  /\ (sb_metadata (breakdown (computeSEOScore PageSamples.unlabelled_page))
      <= 10)%Q
  /\ sb_accessibility
       (breakdown (computeSEOScore (PageSamples.clean_page "Products")))
     = 25%Q.
Proof.
  pose proof (identifyIssues_bounds_scores
                (PageSamples.clean_page "Products")) as H.
  pose proof (identifyIssues_bounds_scores PageSamples.unlabelled_page) as H'.
  cbv zeta in H, H'.
  destruct H as (_ & H2 & _ & H4). destruct H' as (H1 & _ & H3 & _).
  split; [|split; [|split]]; [apply H2 | apply H1 | apply H3 | apply H4];
    vm_compute; reflexivity.
Defined.

End FurtherSamples.

(** ** A page without content *)

Section BlankPage.

Local Open Scope list_scope.

Variable url_parses : string -> bool.

(** X25. A page without components is scored on its name alone: nothing
    is read off it but the title, the content score is 0, and the
    accessibility and link scores are 25 each for want of images and
    links.  With a name of at most 60 characters the total is 60, or 50
    when the name is blank. *)
Theorem blank_page_score :
  forall (pageContent : PageContent),
    page_components pageContent = [] ->
    Nat.leb (length (trim (page_name pageContent))) 60 = true ->
    let pageData :=
      scanPageContent url_parses pageContent
                      (extractSemanticItems pageContent) in
    let blank := Nat.eqb (length (trim (page_name pageContent))) 0 in
    pd_metadata pageData
    = {| md_title := Some (page_name pageContent);
         md_description := None; md_keywords := None;
         md_canonical := None; md_robots := None |}
    /\ pd_images pageData = [] /\ pd_links pageData = []
    /\ pd_text pageData = EmptyString
    /\ breakdown (computeSEOScore pageData)
       = {| sb_metadata := if blank then 0%Q else 10%Q;
            sb_content := 0%Q;
            sb_accessibility := 25%Q;
            sb_links := 25%Q |}
    /\ seoScore (computeSEOScore pageData)
       = (if blank then 50%Q else 60%Q).
Proof.
  intros page Hc Hlen pd blank. subst pd blank.
  unfold extractSemanticItems. rewrite Hc. cbn [fold_left].
  destruct (computeSEOScore_fields (scanPageContent url_parses page []))
    as (-> & -> & _).
  change (scanPageContent url_parses page [])
    with {| pd_metadata :=
              {| md_title := Some (page_name page);
                 md_description := None; md_keywords := None;
                 md_canonical := None; md_robots := None |};
            pd_headings := extractHeadings [];
            pd_text := EmptyString;
            pd_images := [];
            pd_links := [];
            pd_wordCount := Some (of_nat 0);
            pd_components := Some [];
            pd_metrics :=
              Some (calculateContentMetrics EmptyString (extractHeadings [])
                                            [] []) |}.
  cbn [pd_metadata pd_images pd_links pd_text pd_headings pd_wordCount].
  assert (Em : scoreMetadata
                 {| md_title := Some (page_name page);
                    md_description := None; md_keywords := None;
                    md_canonical := None; md_robots := None |}
               = if Nat.eqb (length (trim (page_name page))) 0
                 then 0%Q else 10%Q).
  { unfold scoreMetadata, length_credit. cbn [trim_or_empty md_title md_description].
    rewrite Hlen.
    destruct (length (trim (page_name page))); reflexivity. }
  rewrite Em.
  change (scoreContent (extractHeadings []) EmptyString (Some (of_nat 0)))
    with 0%Q.
  change (scoreAccessibility []) with 25%Q.
  change (scoreLinks []) with 25%Q.
  repeat split.
  destruct (Nat.eqb (length (trim (page_name page))) 0); reflexivity.
Qed.

End BlankPage.

Lemma blank_page_score_witness :
  seoScore
    (computeSEOScore
       (scanPageContent Samples.any_url (PageSamples.blank_page "Home")
                        (extractSemanticItems (PageSamples.blank_page "Home"))))
  = 60%Q.
Proof.
  apply (blank_page_score Samples.any_url (PageSamples.blank_page "Home"));
    reflexivity.
Defined.

(** ** Reading back the link format *)

Section LinkFormat.

Local Open Scope list_scope.

Import Helpers.

Variable url_parses : string -> bool.

Lemma star_greedy_all (A : Type) (p : ascii -> bool) (pre tail : string)
      (cap : option string) (k : cont A) (a : A) :
  forallb p (list_ascii_of_string pre) = true ->
  match tail with String c _ => p c = false | EmptyString => True end ->
  k tail cap = Some a ->
  star_greedy p (pre ++ tail)%string cap k = Some a.
Proof.
  intros Hpre Htail Hk. induction pre as [|c pre IH]; simpl.
  - destruct tail as [|c tail]; simpl; trivial. now rewrite Htail.
  - simpl in Hpre. apply andb_true_iff in Hpre. destruct Hpre as [Hc Hpre].
    now rewrite Hc, (IH Hpre).
Qed.

Lemma take_append (a b : string) : take (length a) (a ++ b)%string = a.
Proof. induction a as [|c a IH]; simpl; [now destruct b | now rewrite IH]. Qed.

Lemma string_append_assoc (a b c : string) :
  ((a ++ b) ++ c)%string = (a ++ b ++ c)%string.
Proof. induction a as [|x a IH]; cbn [append]; [reflexivity | now rewrite IH]. Qed.

Lemma length_append_sub (a b : string) :
  length (a ++ b)%string - length b = length a.
Proof. rewrite length_append. lia. Qed.

Lemma lacks_none_of2 (c1 c2 : ascii) (s : string) :
  lacks c1 s = true -> lacks c2 s = true ->
  forallb (none_of (String c1 (String c2 EmptyString)))
          (list_ascii_of_string s) = true.
Proof.
  unfold lacks. induction s as [|c s IH];
    cbn [list_ascii_of_string forallb]; trivial.
  intros H1 H2. apply andb_true_iff in H1, H2.
  destruct H1 as [H1 H1'], H2 as [H2 H2'].
  rewrite (IH H1' H2'), andb_true_r.
  apply negb_true_iff in H1, H2. unfold none_of.
  cbn [list_ascii_of_string existsb]. now rewrite H1, H2.
Qed.

Lemma lacks_none_of (c1 : ascii) (s : string) :
  lacks c1 s = true ->
  forallb (none_of (String c1 EmptyString)) (list_ascii_of_string s) = true.
Proof.
  unfold lacks. induction s as [|c s IH];
    cbn [list_ascii_of_string forallb]; trivial.
  intros H1. apply andb_true_iff in H1. destruct H1 as [H1 H1'].
  rewrite (IH H1'), andb_true_r.
  apply negb_true_iff in H1. unfold none_of.
  cbn [list_ascii_of_string existsb]. now rewrite H1.
Qed.

(** The text pattern reads the label: what precedes the first bracket or
    parenthesis. *)
Lemma linktext_label (label tail : string) :
  lacks "["%char label = true -> lacks "("%char label = true ->
  match tail with
  | String c _ => none_of "[(" c = false
  | EmptyString => True
  end ->
  group1_trim (match_ re_linktext (label ++ tail)%string) = trim label.
Proof.
  intros H1 H2 Ht. unfold match_.
  change (bol re_linktext) with true. cbv iota.
  unfold re_linktext, exec_here, plus. cbn [body run].
  pose proof (lacks_none_of2 _ _ label H1 H2) as Hall.
  destruct label as [|c label].
  - destruct tail as [|c tail]; trivial. simpl. now rewrite Ht.
  - simpl in Hall. apply andb_true_iff in Hall. destruct Hall as [Hc Hall].
    change ((String c label ++ tail)%string)
      with (String c (label ++ tail)%string).
    cbv iota. rewrite Hc.
    erewrite star_greedy_all; [|exact Hall|exact Ht|reflexivity].
    cbn [group1_trim group1 m_1]. f_equal.
    change (String c (label ++ tail)%string)
      with ((String c label ++ tail)%string).
    now rewrite length_append_sub, take_append.
Qed.

(** The URL pattern finds nothing before the first bracket. *)
Lemma search_url_skip (pre s : string) :
  lacks "["%char pre = true ->
  forall i,
    search_from (body re_url) i (pre ++ s)%string
    = search_from (body re_url) (i + length pre) s.
Proof.
  unfold lacks. induction pre as [|c pre IH]; simpl; intros H i.
  - now rewrite Nat.add_0_r.
  - apply andb_true_iff in H. destruct H as [Hc H].
    apply negb_true_iff in Hc.
    unfold exec_here, re_url. cbn [body seqs lit run]. unfold ch at 1.
    rewrite Ascii.eqb_sym, Hc.
    fold (exec_here (body re_url)). rewrite (IH H). f_equal. lia.
Qed.

(** The URL pattern reads the content of the last brackets. *)
Lemma url_href (pre href : string) :
  lacks "["%char pre = true -> lacks "]"%char href = true ->
  href <> EmptyString ->
  group1_trim (match_ re_url (pre ++ "[" ++ href ++ "]")%string) = trim href.
Proof.
  intros Hpre Hhref Hne. unfold match_.
  change (bol re_url) with false. cbv iota.
  rewrite search_url_skip by exact Hpre.
  pose proof (lacks_none_of _ href Hhref) as Hall.
  destruct href as [|c href]; [now elim Hne|].
  simpl in Hall. apply andb_true_iff in Hall. destruct Hall as [Hc Hall].
  cbn [search_from append].
  unfold exec_here, re_url, plus. cbn [body seqs lit run]. unfold ch at 1.
  rewrite Ascii.eqb_refl, Hc.
  erewrite star_greedy_all; [|exact Hall|reflexivity|]; cycle 1.
  - cbn [run lit]. unfold ch. rewrite Ascii.eqb_refl. reflexivity.
  - cbn [group1_trim group1 m_1]. f_equal.
    change (String c (href ++ "]")%string)
      with ((String c href ++ "]")%string).
    now rewrite length_append_sub, take_append.
Qed.

(** X26. [extractLinks] reads back the format in which link fields are
    written, a label, an optional title in parentheses, and the URL in
    square brackets at the end: the link it returns has the trimmed
    content of the brackets as href and the trimmed label as text. *)
Theorem extractLinks_reads_link_format :
  forall (item : SemanticTextItem) (label title href : string),
    item_category item = Link ->
    item_text item = (label ++ title ++ "[" ++ href ++ "]")%string ->
    lacks "["%char label = true -> lacks "("%char label = true ->
    lacks "["%char title = true ->
    (title = EmptyString \/ startsWith title "(" = true) ->
    lacks "]"%char href = true ->
    trim href <> EmptyString ->
    extractLinks url_parses [item]
    = [link_of url_parses item (trim label) (trim href)].
Proof.
  intros item label title href Hcat Htext Hl1 Hl2 Ht1 Ht2 Hh Hne.
  assert (Hhne : href <> EmptyString) by (intros ->; now apply Hne).
  unfold extractLinks, category_is. cbn [filter]. rewrite Hcat.
  cbn [SemanticCategory_eqb fold_left]. unfold link_step.
  rewrite Htext.
  assert (Eu : group1_trim
                 (match_ re_url (label ++ title ++ "[" ++ href ++ "]")%string)
               = trim href).
  { replace (label ++ title ++ "[" ++ href ++ "]")%string
      with ((label ++ title) ++ "[" ++ href ++ "]")%string.
    - apply url_href; trivial.
      unfold lacks in *. clear -Hl1 Ht1.
      induction label as [|c label IH]; simpl in *; trivial.
      apply andb_true_iff in Hl1. destruct Hl1 as [-> Hl1].
      now rewrite IH.
    - apply string_append_assoc. }
  assert (El : group1_trim
                 (match_ re_linktext
                         (label ++ title ++ "[" ++ href ++ "]")%string)
               = trim label).
  { apply linktext_label; trivial.
    destruct Ht2 as [-> | Ht2]; [reflexivity|].
    apply startsWith_cons in Ht2. destruct Ht2 as (rest & ->). reflexivity. }
  rewrite Eu, El.
  now rewrite (proj2 (truthy_true (trim href)) Hne).
Qed.

End LinkFormat.

Lemma extractLinks_reads_link_format_witness :
  extractLinks
    Samples.any_url
    [PageSamples.item_in "hero-1" Link "Cta"
                         "Read more (Opens the story) [ /about?ref=1 ]"]
  = [link_of Samples.any_url
             (PageSamples.item_in
                "hero-1" Link "Cta"
                "Read more (Opens the story) [ /about?ref=1 ]")
             "Read more" "/about?ref=1"].
Proof.
  apply (extractLinks_reads_link_format
           Samples.any_url
           (PageSamples.item_in "hero-1" Link "Cta"
                                "Read more (Opens the story) [ /about?ref=1 ]")
           "Read more " "(Opens the story) " " /about?ref=1 ");
    try reflexivity.
  - now right.
  - vm_compute. discriminate.
Defined.

(** ** Reading back the image format *)

Section ImageFormat.

Local Open Scope list_scope.

Import Helpers.

Lemma string_append_empty (s : string) : (s ++ "")%string = s.
Proof. induction s as [|c s IH]; cbn [append]; [reflexivity | now rewrite IH]. Qed.

Lemma take_all (s : string) : take (length s) s = s.
Proof. induction s as [|c s IH]; simpl; [reflexivity | now rewrite IH]. Qed.

Lemma trimStart_split (s : string) :
  exists w, s = (w ++ trimStart s)%string
            /\ forallb is_space (list_ascii_of_string w) = true.
Proof.
  induction s as [|c s (w & Hs & Hw)]; simpl.
  - now exists EmptyString.
  - destruct (is_space c) eqn:E.
    + exists (String c w). simpl. rewrite E, Hw. split; [congruence | reflexivity].
    + now exists EmptyString.
Qed.

Lemma trimStart_first (s : string) :
  match trimStart s with
  | String c _ => is_space c = false
  | EmptyString => True
  end.
Proof.
  destruct (trimStart_head s) as [-> | (c & t & -> & H)]; trivial.
Qed.

Lemma trim_trimStart (s : string) : trim (trimStart s) = trim s.
Proof.
  unfold trim. f_equal.
  destruct (trimStart_head s) as [-> | (c & t & -> & H)]; trivial.
  now apply trimStart_cons.
Qed.

Lemma trimEnd_space (s : string) (c : ascii) :
  is_space c = true ->
  trimEnd (s ++ String c EmptyString)%string = trimEnd s.
Proof.
  intros Hc. induction s as [|x s IH]; simpl.
  - now rewrite Hc.
  - now rewrite IH.
Qed.

Lemma trim_space_end (s : string) :
  trim (s ++ " ")%string = trim s.
Proof.
  unfold trim.
  destruct (trimStart_split s) as (w & Hs & Hw).
  destruct (trimStart_head s) as [E | (c & t & E & Hc)].
  - rewrite E in *. rewrite Hs at 1. clear Hs.
    induction w as [|x w IH]; simpl in *; trivial.
    apply andb_true_iff in Hw. destruct Hw as [-> Hw]. now apply IH.
  - assert (Hst : trimStart (s ++ " ")%string = (trimStart s ++ " ")%string).
    { rewrite Hs at 1. rewrite E. clear Hs.
      induction w as [|x w IH]; simpl in *.
      - now rewrite Hc.
      - apply andb_true_iff in Hw. destruct Hw as [-> Hw]. now apply IH. }
    rewrite Hst. now apply trimEnd_space.
Qed.

Lemma search_from_skip (r : re) (pre s : string) :
  (forall t1 t2, pre = (t1 ++ t2)%string -> t2 <> EmptyString ->
                 exec_here r (t2 ++ s)%string = None) ->
  forall i,
    search_from r i (pre ++ s)%string = search_from r (i + length pre) s.
Proof.
  induction pre as [|c pre IH]; intros H i.
  - simpl. now rewrite Nat.add_0_r.
  - cbn [append search_from].
    change (String c (pre ++ s)%string) with ((String c pre ++ s)%string).
    rewrite (H EmptyString (String c pre) eq_refl) by discriminate.
    rewrite IH.
    + f_equal. simpl. lia.
    + intros t1 t2 -> Hne. now apply (H (String c t1) t2).
Qed.

Lemma exec_here_lit_first (w : string) (r : re) (u : string) :
  strip w u = None -> exec_here (Seq (lit w) r) u = None.
Proof.
  intros H. unfold exec_here. cbn [run]. now rewrite run_lit, H.
Qed.

Lemma exec_here_src (u : string) :
  strip "Src:" u = None -> exec_here (body re_src) u = None.
Proof.
  intros H.
  exact (exec_here_lit_first
           "Src:" (seqs [star is_space; Grp (plus is_dot); Eol]) u H).
Qed.

Lemma strip_Src (a z : string) :
  String.prefix "Src:" a = false ->
  strip "Src:" (a ++ String " " z)%string = None.
Proof.
  intros H.
  destruct a as [|c1 a]; [reflexivity|]. cbn [append strip].
  destruct (Ascii.eqb_spec "S" c1) as [<-|]; [|reflexivity].
  destruct a as [|c2 a]; [reflexivity|]. cbn [append strip].
  destruct (Ascii.eqb_spec "r" c2) as [<-|]; [|reflexivity].
  destruct a as [|c3 a]; [reflexivity|]. cbn [append strip].
  destruct (Ascii.eqb_spec "c" c3) as [<-|]; [|reflexivity].
  destruct a as [|c4 a]; [reflexivity|]. cbn [append strip].
  destruct (Ascii.eqb_spec ":" c4) as [<-|]; [|reflexivity].
  destruct a; discriminate.
Qed.

Lemma includes_suffix (a b sub : string) :
  includes (a ++ b)%string sub = false -> includes b sub = false.
Proof.
  induction a as [|c a IH]; trivial. cbn [append includes].
  destruct (String.prefix sub (String c (a ++ b)%string)); [discriminate|].
  exact IH.
Qed.

Lemma includes_head (s sub : string) :
  includes s sub = false -> String.prefix sub s = false.
Proof.
  destruct s; cbn [includes]; now destruct (String.prefix sub _).
Qed.

(** The source pattern finds nothing in the alternative text. *)
Lemma search_src_skip (alt s : string) :
  includes alt "Src:" = false ->
  search_from (body re_src) 0 ("Alt: " ++ alt ++ " | " ++ s)%string
  = search_from (body re_src) (8 + length alt) s.
Proof.
  intros H. cbn [append search_from].
  do 5 (rewrite exec_here_src by reflexivity).
  rewrite (search_from_skip (body re_src) alt).
  - cbn [search_from].
    do 3 (rewrite exec_here_src by reflexivity).
    f_equal.
  - intros t1 t2 -> Hne. apply exec_here_src.
    apply strip_Src. apply includes_head. exact (includes_suffix _ _ _ H).
Qed.

Lemma forallb_dot_tail (s : string) :
  forallb is_dot (list_ascii_of_string s) = true ->
  forallb is_dot (list_ascii_of_string (trimStart s)) = true.
Proof.
  induction s as [|c s IH]; simpl; trivial.
  intros H. apply andb_true_iff in H. destruct H as [Hc H].
  destruct (is_space c); [now apply IH|]. simpl. now rewrite Hc, H.
Qed.

Lemma src_read (alt src : string) :
  includes alt "Src:" = false ->
  forallb is_dot (list_ascii_of_string src) = true ->
  trim src <> EmptyString ->
  group1_trim (match_ re_src ("Alt: " ++ alt ++ " | Src: " ++ src)%string)
  = trim src.
Proof.
  intros Ha Hdot Hne. unfold match_.
  change (bol re_src) with false. cbv iota.
  change ("Alt: " ++ alt ++ " | Src: " ++ src)%string
    with ("Alt: " ++ alt ++ " | " ++ "Src: " ++ src)%string.
  rewrite search_src_skip by exact Ha.
  cbn [append search_from].
  unfold exec_here, re_src, star, plus. cbn [body seqs lit run]. unfold ch.
  cbn [Ascii.eqb Bool.eqb]. cbv iota.
  destruct (trimStart_split src) as (w & Hs & Hw).
  pose proof (forallb_dot_tail src Hdot) as Hd.
  pose proof (trimStart_first src) as Hf.
  rewrite <- (trim_trimStart src) in Hne |- *.
  destruct (trimStart src) as [|c t] eqn:Et; [now elim Hne|].
  simpl in Hd. apply andb_true_iff in Hd. destruct Hd as [Hc Hd].
  rewrite Hs at 1.
  change (String " " (w ++ String c t)%string)
    with ((String " " w ++ String c t)%string).
  erewrite star_greedy_all;
    [|simpl; exact Hw|exact Hf|]; cycle 1.
  - cbn [run]. rewrite Hc.
    pattern t at 1. rewrite <- (string_append_empty t).
    erewrite star_greedy_all; [reflexivity|exact Hd|exact I|reflexivity].
  - cbn [group1_trim group1 m_1]. f_equal.
    cbn [length]. rewrite Nat.sub_0_r.
    apply (take_all (String c t)).
Qed.

Lemma alt_read (alt tail : string) :
  lacks "|"%char alt = true ->
  trim alt <> EmptyString ->
  group1_trim (match_ re_alt ("Alt: " ++ alt ++ " |" ++ tail)%string)
  = trim alt.
Proof.
  intros Hl Hne. unfold match_.
  change (bol re_alt) with false. cbv iota.
  cbn [append search_from].
  unfold exec_here, re_alt, star, plus. cbn [body seqs lit run]. unfold ch.
  cbn [Ascii.eqb Bool.eqb]. cbv iota.
  destruct (trimStart_split alt) as (w & Hs & Hw).
  pose proof (trimStart_first alt) as Hf.
  assert (Hlt : lacks "|"%char (trimStart alt) = true).
  { clear -Hl. unfold lacks in *. induction alt as [|c a IH]; simpl in *; trivial.
    apply andb_true_iff in Hl. destruct Hl as [Hc Hl].
    destruct (is_space c); [now apply IH|]. simpl. now rewrite Hc, Hl. }
  rewrite <- (trim_trimStart alt) in Hne |- *.
  rewrite <- (trim_space_end (trimStart alt)).
  destruct (trimStart alt) as [|c t] eqn:Et; [now elim Hne|].
  pose proof (lacks_none_of _ _ Hlt) as Hall.
  simpl in Hall. apply andb_true_iff in Hall. destruct Hall as [Hc Hall].
  rewrite Hs at 1.
  match goal with
  | |- context [star_greedy is_space ?s None ?k] =>
      replace s
        with ((String " " w ++ (String c t ++ " ") ++ String "|" tail)%string)
        by (cbn [append]; now rewrite !string_append_assoc)
  end.
  erewrite star_greedy_all;
    [|simpl; exact Hw|exact Hf|]; cycle 1.
  - cbn [append]. rewrite Hc.
    change (String c (t ++ " ") ++ String "|" tail)%string
      with (String c ((t ++ " ") ++ String "|" tail)%string).
    cbv iota.
    erewrite star_greedy_all; [reflexivity| |reflexivity|reflexivity].
    clear -Hall. induction t as [|x t IH]; simpl in *; trivial.
    apply andb_true_iff in Hall. destruct Hall as [-> Hall]. now apply IH.
  - cbn [group1_trim group1 m_1]. do 2 f_equal.
    change (String c ((t ++ " ") ++ String "|" tail)%string)
      with ((String c (t ++ " ") ++ String "|" tail)%string).
    rewrite length_append_sub. apply take_append.
Qed.

(** X27. [extractImages] reads back the format in which image fields are
    written, "Alt: " and the alternative text, " | ", "Src: " and the
    source: the image it returns has the trimmed alternative text and
    the trimmed source, provided the alternative text holds no bar and no
    "Src:" and the source no line break. *)
Theorem extractImages_reads_image_format :
  forall (item : SemanticTextItem) (alt src : string),
    item_category item = Image ->
    item_text item = ("Alt: " ++ alt ++ " | Src: " ++ src)%string ->
    lacks "|"%char alt = true ->
    includes alt "Src:" = false ->
    trim alt <> EmptyString ->
    forallb is_dot (list_ascii_of_string src) = true ->
    trim src <> EmptyString ->
    extractImages [item] = [image_of item (trim alt) (trim src)].
Proof.
  intros item alt src Hcat Htext Hbar Hsrc Halt Hdot Hne.
  unfold extractImages, category_is. cbn [filter]. rewrite Hcat.
  cbn [SemanticCategory_eqb fold_left]. rewrite Htext.
  rewrite (src_read alt src Hsrc Hdot Hne).
  change (" | Src: " ++ src)%string with (" |" ++ " Src: " ++ src)%string.
  rewrite (alt_read alt _ Hbar Halt).
  now rewrite (proj2 (truthy_true (trim src)) Hne).
Qed.

End ImageFormat.

Lemma extractImages_reads_image_format_witness :
  extractImages
    [PageSamples.item_in "promo-2" Image "Image"
                         "Alt:  Our logo | Src: /media/logo.png "]
  = [image_of (PageSamples.item_in "promo-2" Image "Image"
                                   "Alt:  Our logo | Src: /media/logo.png ")
              "Our logo" "/media/logo.png"].
Proof.
  apply (extractImages_reads_image_format
           (PageSamples.item_in "promo-2" Image "Image"
                                "Alt:  Our logo | Src: /media/logo.png ")
           " Our logo" "/media/logo.png ");
    try reflexivity; vm_compute; discriminate.
Defined.
